(** * SPIRV-IR: the in-memory representation of SPIR-V (SPIRV/spvIR.h)

    A shallow embedding of the four classes of [namespace spv] declared in
    spvIR.h (Instruction, Block, Function and Module) and
    the properties of their binary output ([dump]), of the string packing, of
    the terminator-aware insertion and of the module-wide id index.

    Conventions of the embedding:
    - [unsigned int] and [spv::Id] are [N], every arithmetic operation of the
      source on them is followed by its reduction modulo 2^32 ([wrap32]);
    - objects the source holds by pointer ([Instruction*], [Block*],
      [Function*], [Module&]) live in a store indexed by addresses; a pointer
      is [null] or [ptr a]; dereferencing [null] or an address without an
      object, indexing a vector out of range and moving an iterator before
      [begin()] have undefined behaviour in C++ and yield [None] here;
    - a [for] loop that walks a [std::vector] by an [int] index is a traversal
      of the list in order (vectors hold fewer than 2^31 elements);
    - a non-const member function is a function from the state of the objects
      it touches to their new state. *)

From Stdlib Require Import NArith ZArith Lia Ascii String Sorted.
From stdpp Require Import base option list gmap.

Local Open Scope N_scope.

Module spv.

(** ** Words and ids *)

(** [unsigned int]: 32 bits. *)
Definition word : Type := N.

Definition wrap32 (n : N) : word := n mod 2 ^ 32.

(** [typedef unsigned int Id;] *)
Definition Id : Type := N.

Definition NoResult : Id := 0.
Definition NoType : Id := 0.

(** Modelled from the spec: [WordCountShift] is declared in spirv.hpp, which
    is not among the sources; the instruction header keeps the word count in
    its upper 16 bits and the opcode in its lower 16 bits. *)
Definition WordCountShift : N := 16.

(** [enum Op] is declared in spirv.hpp as well.  The enumerators that
    spvIR.h names are constructors; [OpOther] stands for every other
    enumerator.  The numeric value of an enumerator is a parameter
    ([opValue]) of the functions that encode it. *)
Inductive Op : Type :=
  | OpFunction
  | OpFunctionParameter
  | OpFunctionEnd
  | OpLoopMerge
  | OpLabel
  | OpBranch
  | OpBranchConditional
  | OpSwitch
  | OpKill
  | OpReturn
  | OpReturnValue
  | OpOther (tag : N).

Global Instance Op_eq_dec : EqDecision Op.
Proof. solve_decision. Defined.

(** ** Pointers *)

Definition addr : Type := positive.

Inductive pointer : Type :=
  | null
  | ptr (a : addr).

Global Instance pointer_eq_dec : EqDecision pointer.
Proof. solve_decision. Defined.

(** ** class Instruction *)

Record Instruction : Type := mkInstruction {
  resultId : Id;
  typeId : Id;
  opCode : Op;
  operands : list Id;
  (** [std::vector<unsigned int>* string], "usually non-existent": [None] is
      the null pointer. *)
  string : option (list word);
  originalString : String.string
}.

(** [Instruction(Id resultId, Id typeId, Op opCode)] *)
Definition Instruction_ctor (resultId typeId : Id) (opCode : Op) : Instruction :=
  mkInstruction resultId typeId opCode [] None EmptyString.

(** [explicit Instruction(Op opCode)] *)
Definition Instruction_ctor_op (opCode : Op) : Instruction :=
  mkInstruction NoResult NoType opCode [] None EmptyString.

Definition push_back {A : Type} (v : list A) (x : A) : list A := v ++ [x].

Definition Instruction_addIdOperand (id : Id) (this : Instruction) : Instruction :=
  mkInstruction (resultId this) (typeId this) (opCode this)
    (push_back (operands this) id) (string this) (originalString this).

Definition Instruction_addImmediateOperand (immediate : word) (this : Instruction)
  : Instruction :=
  mkInstruction (resultId this) (typeId this) (opCode this)
    (push_back (operands this) immediate) (string this) (originalString this).

(** *** addStringOperand

    [unsigned int word; char* wordString = (char* )&word;]: the word is
    written one [char] at a time through its four bytes in memory, and read
    back as an [unsigned int] on a little-endian host. *)
Record WordBytes : Type := mkWordBytes {
  byte0 : ascii;
  byte1 : ascii;
  byte2 : ascii;
  byte3 : ascii
}.

(** [*(wordString + k) = c] *)
Definition store_char (k : nat) (c : ascii) (w : WordBytes) : WordBytes :=
  match k with
  | 0%nat => mkWordBytes c (byte1 w) (byte2 w) (byte3 w)
  | 1%nat => mkWordBytes (byte0 w) c (byte2 w) (byte3 w)
  | 2%nat => mkWordBytes (byte0 w) (byte1 w) c (byte3 w)
  | _ => mkWordBytes (byte0 w) (byte1 w) (byte2 w) c
  end.

Definition word_of_bytes (w : WordBytes) : word :=
  N.lor (N_of_ascii (byte0 w))
    (N.lor (N.shiftl (N_of_ascii (byte1 w)) 8)
       (N.lor (N.shiftl (N_of_ascii (byte2 w)) 16)
          (N.shiftl (N_of_ascii (byte3 w)) 24))).

Definition NUL : ascii := zero.

(** The state of the packing loop: the bytes of [word], [charCount] (which
    is also the offset of [wordPtr] in the word) and the vector [*string]. *)
Record PackState : Type := mkPackState {
  pk_word : WordBytes;
  pk_charCount : nat;
  pk_string : list word
}.

(** One turn of the [do] loop body for the character [c]. *)
Definition pack_char (c : ascii) (s : PackState) : PackState :=
  let w := store_char (pk_charCount s) c (pk_word s) in
  let charCount := S (pk_charCount s) in
  if decide (charCount = 4%nat)
  then mkPackState w 0 (push_back (pk_string s) (word_of_bytes w))
  else mkPackState w charCount (pk_string s).

(** [do { c = *(str++); ... } while (c != 0);] over the characters at [str]:
    the list [str] is followed in memory by the terminating NUL. *)
Fixpoint pack_loop (str : list ascii) (s : PackState) : PackState :=
  match str with
  | [] => pack_char NUL s
  | c :: str' =>
      let s' := pack_char c s in
      if decide (c = NUL) then s' else pack_loop str' s'
  end.

(** [for (; charCount < 4; ++charCount) *(wordPtr++) = 0;] *)
Fixpoint pad_zeros (fuel : nat) (charCount : nat) (w : WordBytes) : WordBytes :=
  match fuel with
  | O => w
  | S fuel' =>
      if decide (charCount < 4)%nat
      then pad_zeros fuel' (S charCount) (store_char charCount NUL w)
      else w
  end.

(** deal with partial last word *)
Definition pack_finish (s : PackState) : list word :=
  if decide (0 < pk_charCount s)%nat
  then (* pad with 0s *)
    push_back (pk_string s)
      (word_of_bytes (pad_zeros 4 (pk_charCount s) (pk_word s)))
  else pk_string s.

(** The vector [*string] at the end of [addStringOperand]; [word0] is the
    indeterminate initial value of the local [word]. *)
Definition pack_string (word0 : WordBytes) (str : list ascii) : list word :=
  pack_finish (pack_loop str (mkPackState word0 0 [])).

(** The characters a [const char*] denotes: those before the first NUL. *)
Fixpoint c_str (str : list ascii) : list ascii :=
  match str with
  | [] => []
  | c :: str' => if decide (c = NUL) then [] else c :: c_str str'
  end.

Definition Instruction_addStringOperand (word0 : WordBytes) (str : String.string)
    (this : Instruction) : Instruction :=
  mkInstruction (resultId this) (typeId this) (opCode this) (operands this)
    (Some (pack_string word0 (list_ascii_of_string str)))
    (string_of_list_ascii (c_str (list_ascii_of_string str))).

Definition Instruction_getOpCode (this : Instruction) : Op := opCode this.
(** [(int)operands.size()] *)
Definition Instruction_getNumOperands (this : Instruction) : Z :=
  Z.of_nat (length (operands this)).
Definition Instruction_getResultId (this : Instruction) : Id := resultId this.
Definition Instruction_getTypeId (this : Instruction) : Id := typeId this.
(** [operands[op]] *)
Definition Instruction_getIdOperand (op : nat) (this : Instruction) : option Id :=
  operands this !! op.

(** ** class Block, class Function, class Module: the data members *)

Record Block : Type := mkBlock {
  instructions : list pointer;
  predecessors : list pointer;
  successors : list pointer;
  localVariables : list pointer;
  (** [Function& parent] *)
  Block_parent : addr;
  unreachable : bool
}.

Record Function : Type := mkFunction {
  (** [Module& parent] *)
  Function_parent : addr;
  (** The member [Instruction functionInstruction]: the address of the
      member object, which is what [&functionInstruction] evaluates to. *)
  functionInstruction : addr;
  parameterInstructions : list pointer;
  blocks : list pointer
}.

Record Module : Type := mkModule {
  functions : list pointer;
  (** map from result id to instruction having that result id *)
  idToInstruction : list pointer
}.

(** ** The store of objects *)

Record State : Type := mkState {
  instructionObjects : gmap addr Instruction;
  blockObjects : gmap addr Block;
  functionObjects : gmap addr Function;
  moduleObjects : gmap addr Module
}.

Definition deref {T : Type} (objects : gmap addr T) (p : pointer) : option T :=
  match p with
  | null => None
  | ptr a => objects !! a
  end.

(** Computations on the store that may run into undefined behaviour. *)
Definition M (A : Type) : Type := State -> option (A * State).

Definition ret {A : Type} (x : A) : M A := fun s => Some (x, s).

Definition bind {A B : Type} (m : M A) (k : A -> M B) : M B :=
  fun s => match m s with
           | Some (x, s') => k x s'
           | None => None
           end.

Definition lift {A : Type} (o : option A) : M A :=
  fun s => match o with
           | Some x => Some (x, s)
           | None => None
           end.

Definition gets {A : Type} (f : State -> A) : M A := fun s => Some (f s, s).

Definition modify (f : State -> State) : M unit := fun s => Some (tt, f s).

Notation "'let*' x ':=' m 'in' k" := (bind m (fun x => k))
  (at level 10, x name, m at level 200, k at level 200,
   format "'[v' 'let*'  x  ':='  m  'in' '/' k ']'").

Notation "m ';;' k" := (bind m (fun _ => k))
  (at level 100, k at level 200, right associativity).

(** [body] for each element of [l], in order. *)
Fixpoint for_each {A : Type} (body : A -> M unit) (l : list A) : M unit :=
  match l with
  | [] => ret tt
  | x :: l' => body x ;; for_each body l'
  end.

Definition set_instructionObjects (f : gmap addr Instruction -> gmap addr Instruction)
    (s : State) : State :=
  mkState (f (instructionObjects s)) (blockObjects s) (functionObjects s)
    (moduleObjects s).

Definition set_blockObjects (f : gmap addr Block -> gmap addr Block)
    (s : State) : State :=
  mkState (instructionObjects s) (f (blockObjects s)) (functionObjects s)
    (moduleObjects s).

Definition set_functionObjects (f : gmap addr Function -> gmap addr Function)
    (s : State) : State :=
  mkState (instructionObjects s) (blockObjects s) (f (functionObjects s))
    (moduleObjects s).

Definition set_moduleObjects (f : gmap addr Module -> gmap addr Module)
    (s : State) : State :=
  mkState (instructionObjects s) (blockObjects s) (functionObjects s)
    (f (moduleObjects s)).

Global Arguments set_instructionObjects _ _ /.
Global Arguments set_blockObjects _ _ /.
Global Arguments set_functionObjects _ _ /.
Global Arguments set_moduleObjects _ _ /.

Definition deref_Instruction (p : pointer) : M Instruction :=
  let* h := gets instructionObjects in lift (deref h p).

Definition load_Block (a : addr) : M Block :=
  let* h := gets blockObjects in lift (h !! a).

Definition load_Function (a : addr) : M Function :=
  let* h := gets functionObjects in lift (h !! a).

Definition load_Module (a : addr) : M Module :=
  let* h := gets moduleObjects in lift (h !! a).

Definition store_Block (a : addr) (b : Block) : M unit :=
  modify (set_blockObjects <[a := b]>).

Definition store_Function (a : addr) (f : Function) : M unit :=
  modify (set_functionObjects <[a := f]>).

Definition store_Module (a : addr) (m : Module) : M unit :=
  modify (set_moduleObjects <[a := m]>).

(** [new Instruction(...)]: the object gets an address no Instruction has. *)
Definition new_Instruction (i : Instruction) : M addr :=
  fun s =>
    let a := fresh (dom (instructionObjects s)) in
    Some (a, set_instructionObjects <[a := i]> s).

(** ** class Module: member functions *)

Definition Module_addFunction (fn : pointer) (this : Module) : Module :=
  mkModule (push_back (functions this) fn) (idToInstruction this).

(** [std::vector::resize] fills the new slots with null pointers. *)
Definition Module_mapInstruction (h : gmap addr Instruction) (instruction : pointer)
    (this : Module) : option Module :=
  i ← deref h instruction;
  let resultId := Instruction_getResultId i in
  (* map the instruction's result id *)
  let index :=
    if decide (N.of_nat (length (idToInstruction this)) <= resultId)
    then resize (N.to_nat (wrap32 (resultId + 16))) null (idToInstruction this)
    else idToInstruction this in
  if decide (N.to_nat resultId < length index)%nat
  then Some (mkModule (functions this) (<[N.to_nat resultId := instruction]> index))
  else None.

Definition Module_getInstruction (id : Id) (this : Module) : option pointer :=
  idToInstruction this !! N.to_nat id.

Definition Module_getTypeId (h : gmap addr Instruction) (resultId : Id)
    (this : Module) : option Id :=
  p ← idToInstruction this !! N.to_nat resultId;
  i ← deref h p;
  Some (Instruction_getTypeId i).

(** [parent.mapInstruction(instruction)] on the module at [this]. *)
Definition call_Module_mapInstruction (this : addr) (instruction : pointer) : M unit :=
  let* m := load_Module this in
  let* h := gets instructionObjects in
  let* m' := lift (Module_mapInstruction h instruction m) in
  store_Module this m'.

Definition call_Module_addFunction (this : addr) (fn : pointer) : M unit :=
  let* m := load_Module this in
  store_Module this (Module_addFunction fn m).

(** ** class Block: member functions *)

Definition set_instructions (l : list pointer) (this : Block) : Block :=
  mkBlock l (predecessors this) (successors this) (localVariables this)
    (Block_parent this) (unreachable this).

Definition Block_addPredecessor (pred : pointer) (this : Block) : Block :=
  mkBlock (instructions this) (push_back (predecessors this) pred)
    (successors this) (localVariables this) (Block_parent this) (unreachable this).

Definition Block_addSuccessor (succ : pointer) (this : Block) : Block :=
  mkBlock (instructions this) (predecessors this)
    (push_back (successors this) succ) (localVariables this)
    (Block_parent this) (unreachable this).

Definition Block_addLocalVariable (inst : pointer) (this : Block) : Block :=
  mkBlock (instructions this) (predecessors this) (successors this)
    (push_back (localVariables this) inst) (Block_parent this) (unreachable this).

Definition Block_setUnreachable (this : Block) : Block :=
  mkBlock (instructions this) (predecessors this) (successors this)
    (localVariables this) (Block_parent this) true.

Definition Block_getNumInstructions (this : Block) : nat :=
  length (instructions this).

(** [instructions.back()->getOpCode()] *)
Definition back_opCode (h : gmap addr Instruction) (this : Block) : option Op :=
  p ← last (instructions this);
  i ← deref h p;
  Some (Instruction_getOpCode i).

Definition Block_isTerminated (h : gmap addr Instruction) (this : Block)
  : option bool :=
  op ← back_opCode h this;
  Some match op with
       | OpBranch | OpBranchConditional | OpSwitch
       | OpKill | OpReturn | OpReturnValue => true
       | _ => false
       end.

(** [Block::Block(Id id, Function& parent)], called by [new Block(id, parent)]:
    the members are initialised, then the body pushes the label. *)
Definition new_Block (id : Id) (parent : addr) : M addr :=
  let* this := gets (fun s => fresh (dom (blockObjects s))) in
  store_Block this (mkBlock [] [] [] [] parent false) ;;
  let* label := new_Instruction (Instruction_ctor id NoType OpLabel) in
  let* b := load_Block this in
  store_Block this (set_instructions (push_back (instructions b) (ptr label)) b) ;;
  ret this.

Definition Block_addInstruction (this : addr) (inst : pointer) : M unit :=
  let* b := load_Block this in
  store_Block this (set_instructions (push_back (instructions b) inst) b) ;;
  let* i := deref_Instruction inst in
  if decide (Instruction_getResultId i = 0) then ret tt
  else
    let* f := load_Function (Block_parent b) in
    call_Module_mapInstruction (Function_parent f) inst.

(** [v.insert(v.begin() + k, x)] *)
Definition insert_at {A : Type} (k : nat) (x : A) (v : list A) : list A :=
  take k v ++ x :: drop k v.

(** [v.insert(v.end() - k, x)]: the iterator [v.end() - k] does not exist
    when the vector has fewer than [k] elements. *)
Definition insert_from_end {A : Type} (k : nat) (x : A) (v : list A)
  : option (list A) :=
  if decide (k <= length v)%nat then Some (insert_at (length v - k) x v)
  else None.

Definition Block_insertInstructionBeforeTerminal (h : gmap addr Instruction)
    (inst : pointer) (this : Block) : option Block :=
  op ← back_opCode h this;
  match op with
  | OpBranchConditional | OpSwitch =>
      v ← insert_from_end 2 inst (instructions this);
      Some (set_instructions v this)
  | OpBranch =>
      isLoopMerge ←
        (if decide (1 < length (instructions this))%nat
         then p ← instructions this !! (length (instructions this) - 2)%nat;
              i ← deref h p;
              Some (bool_decide (Instruction_getOpCode i = OpLoopMerge))
         else Some false);
      v ← insert_from_end (if isLoopMerge : bool then 2 else 1) inst
            (instructions this);
      Some (set_instructions v this)
  | OpKill | OpReturn | OpReturnValue =>
      v ← insert_from_end 1 inst (instructions this);
      Some (set_instructions v this)
  | _ => Some (set_instructions (push_back (instructions this) inst) this)
  end.

(** ** class Function: member functions *)

Definition set_parameterInstructions (l : list pointer) (this : Function)
  : Function :=
  mkFunction (Function_parent this) (functionInstruction this) l (blocks this).

Definition Function_addBlock (block : pointer) (this : Function) : Function :=
  mkFunction (Function_parent this) (functionInstruction this)
    (parameterInstructions this) (push_back (blocks this) block).

Section Construction.

(** [FunctionControlMaskNone] is an enumerator of spirv.hpp. *)
Variable FunctionControlMaskNone : word.

(** The body of the [for] loop of the constructor, for parameter [p]. *)
Definition Function_ctor_param (this parent : addr) (typeInst : pointer)
    (firstParamId : Id) (p : nat) : M unit :=
  let* ti := deref_Instruction typeInst in
  let* ty := lift (Instruction_getIdOperand (p + 1) ti) in
  let* param :=
    new_Instruction
      (Instruction_ctor (wrap32 (firstParamId + N.of_nat p)) ty
         OpFunctionParameter) in
  call_Module_mapInstruction parent (ptr param) ;;
  let* f := load_Function this in
  store_Function this
    (set_parameterInstructions
       (push_back (parameterInstructions f) (ptr param)) f).

(** [Function::Function(Id id, Id resultType, Id functionType,
    Id firstParamId, Module& parent)], called by [new Function(...)]. *)
Definition new_Function (id resultType functionType firstParamId : Id)
    (parent : addr) : M addr :=
  let* this := gets (fun s => fresh (dom (functionObjects s))) in
  let* fi := new_Instruction (Instruction_ctor id resultType OpFunction) in
  store_Function this (mkFunction parent fi [] []) ;;
  (* OpFunction *)
  let* i := deref_Instruction (ptr fi) in
  let i := Instruction_addImmediateOperand FunctionControlMaskNone i in
  let i := Instruction_addIdOperand functionType i in
  modify (set_instructionObjects <[fi := i]>) ;;
  call_Module_mapInstruction parent (ptr fi) ;;
  call_Module_addFunction parent (ptr this) ;;
  (* OpFunctionParameter *)
  let* m := load_Module parent in
  let* typeInst := lift (Module_getInstruction functionType m) in
  let* ti := deref_Instruction typeInst in
  let numParams := (Instruction_getNumOperands ti - 1)%Z in
  (* for (int p = 0; p < numParams; ++p) *)
  for_each (Function_ctor_param this parent typeInst firstParamId)
    (seq 0 (Z.to_nat numParams)) ;;
  ret this.

End Construction.

(** [Function::addLocalVariable] *)
Definition Function_addLocalVariable (this : addr) (inst : pointer) : M unit :=
  let* f := load_Function this in
  let* entry := lift (blocks f !! 0%nat) in
  match entry with
  | null => lift None
  | ptr e =>
      let* b := load_Block e in
      store_Block e (Block_addLocalVariable inst b) ;;
      call_Module_mapInstruction (Function_parent f) inst
  end.

(** ** The other member functions *)

(** [originalString.c_str()] *)
Definition Instruction_getStringOperand (this : Instruction) : String.string :=
  originalString this.

(** [operands[op]] *)
Definition Instruction_getImmediateOperand (op : nat) (this : Instruction)
  : option word :=
  operands this !! op.

Definition set_operands (l : list Id) (this : Instruction) : Instruction :=
  mkInstruction (resultId this) (typeId this) (opCode this) l (string this)
    (originalString this).

(** [if(operands[index] == oldOperand) operands[index] = newOperand;] *)
Definition Instruction_rewriteOperand (oldOperand newOperand : Id) (index : nat)
    (this : Instruction) : option Instruction :=
  x ← operands this !! index;
  if decide (x = oldOperand)
  then Some (set_operands (<[index := newOperand]> (operands this)) this)
  else Some this.

(** [rewriteOperand(oldOperand, newOperand, i)] for each [i] of [indices]. *)
Fixpoint rewriteOperand_each (oldOperand newOperand : Id) (indices : list nat)
    (this : Instruction) : option Instruction :=
  match indices with
  | [] => Some this
  | i :: indices' =>
      this' ← Instruction_rewriteOperand oldOperand newOperand i this;
      rewriteOperand_each oldOperand newOperand indices' this'
  end.

(** [for(auto i = 0u; i < operands.size(); ++i)] *)
Definition Instruction_rewriteOperands (oldOperand newOperand : Id)
    (this : Instruction) : option Instruction :=
  rewriteOperand_each oldOperand newOperand (seq 0 (length (operands this))) this.

(** [instructions.front()->getResultId()] *)
Definition Block_getId (h : gmap addr Instruction) (this : Block) : option Id :=
  p ← head (instructions this);
  i ← deref h p;
  Some (Instruction_getResultId i).

Definition Block_getNumPredecessors (this : Block) : Z :=
  Z.of_nat (length (predecessors this)).

Definition Block_getNumSuccessors (this : Block) : Z :=
  Z.of_nat (length (successors this)).

Definition Block_isUnreachable (this : Block) : bool := unreachable this.

(** [std::find(predecessors.begin(), predecessors.end(), pred)
    != predecessors.end()] *)
Definition Block_hasPredecessor (pred : pointer) (this : Block) : bool :=
  bool_decide (pred ∈ predecessors this).

(** [pred && pred->hasPredecessor(this)], for the block at [this]. *)
Definition Block_isPredecessorOf (objects : gmap addr Block) (this : addr)
    (pred : pointer) : option bool :=
  match pred with
  | null => Some false
  | ptr _ =>
      b ← deref objects pred;
      Some (Block_hasPredecessor (ptr this) b)
  end.

(** [successors[i]] *)
Definition Block_getSuccessor (i : nat) (this : Block) : option pointer :=
  successors this !! i.

(** [assert(c)]: nothing when NDEBUG is defined (the condition is not
    evaluated); otherwise the condition is evaluated and the program is
    aborted when it is false. *)
Definition assert (NDEBUG : bool) (c : M bool) : M unit :=
  if NDEBUG then ret tt
  else let* holds := c in if holds : bool then ret tt else lift None.

(** [Block::addInstructionAtFront]; [++instructions.begin()] does not exist
    in an empty vector. *)
Definition Block_addInstructionAtFront (NDEBUG : bool) (this : addr)
    (inst : pointer) : M unit :=
  let* b := load_Block this in
  assert NDEBUG (ret (negb (bool_decide (instructions b = [])))) ;;
  assert NDEBUG (let* front := lift (head (instructions b)) in
                 let* i := deref_Instruction front in
                 ret (bool_decide (Instruction_getOpCode i = OpLabel))) ;;
  assert NDEBUG (let* i := deref_Instruction inst in
                 ret (negb (bool_decide (Instruction_getOpCode i = OpLabel)))) ;;
  (if decide (instructions b = []) then lift None else ret tt) ;;
  store_Block this (set_instructions (insert_at 1 inst (instructions b)) b) ;;
  let* i := deref_Instruction inst in
  if decide (Instruction_getResultId i = 0) then ret tt
  else
    let* f := load_Function (Block_parent b) in
    call_Module_mapInstruction (Function_parent f) inst.

(** [functionInstruction.getResultId()] *)
Definition Function_getId (h : gmap addr Instruction) (this : Function)
  : option Id :=
  i ← h !! functionInstruction this;
  Some (Instruction_getResultId i).

(** [parameterInstructions[p]->getResultId()] *)
Definition Function_getParamId (h : gmap addr Instruction) (p : nat)
    (this : Function) : option Id :=
  q ← parameterInstructions this !! p;
  i ← deref h q;
  Some (Instruction_getResultId i).

(** [void popBlock(Block* ) { blocks.pop_back(); }]: the argument is not
    used; [pop_back] on an empty vector is undefined. *)
Definition Function_popBlock (block : pointer) (this : Function)
  : option Function :=
  match blocks this with
  | [] => None
  | _ :: _ =>
      Some (mkFunction (Function_parent this) (functionInstruction this)
              (parameterInstructions this) (removelast (blocks this)))
  end.

(** [blocks.front()] *)
Definition Function_getEntryBlock (this : Function) : option pointer :=
  head (blocks this).

(** [blocks.back()] *)
Definition Function_getLastBlock (this : Function) : option pointer :=
  last (blocks this).

(** [functionInstruction.getTypeId()] *)
Definition Function_getReturnType (h : gmap addr Instruction) (this : Function)
  : option Id :=
  i ← h !! functionInstruction this;
  Some (Instruction_getTypeId i).

(** [(StorageClass)idToInstruction[typeId]->getImmediateOperand(0)] *)
Definition Module_getStorageClass (h : gmap addr Instruction) (typeId : Id)
    (this : Module) : option word :=
  p ← idToInstruction this !! N.to_nat typeId;
  i ← deref h p;
  Instruction_getImmediateOperand 0 i.

Section Encoding.

(** The numeric value of each enumerator of [Op]. *)
Variable opValue : Op -> N.

(** *** dump: write out the binary form *)
Definition Instruction_dump (this : Instruction) (out : list word) : list word :=
  (* Compute the wordCount *)
  let wordCount : word := 1 in
  let wordCount := if decide (typeId this = 0) then wordCount
                   else wrap32 (wordCount + 1) in
  let wordCount := if decide (resultId this = 0) then wordCount
                   else wrap32 (wordCount + 1) in
  let wordCount :=
    wrap32 (wordCount + wrap32 (N.of_nat (length (operands this)))) in
  let wordCount :=
    match string this with
    | Some s => wrap32 (wordCount + wrap32 (N.of_nat (length s)))
    | None => wordCount
    end in
  (* Write out the beginning of the instruction *)
  let out :=
    push_back out
      (wrap32 (N.lor (wrap32 (N.shiftl wordCount WordCountShift))
                 (opValue (opCode this)))) in
  let out := if decide (typeId this = 0) then out
             else push_back out (typeId this) in
  let out := if decide (resultId this = 0) then out
             else push_back out (resultId this) in
  (* Write out the operands *)
  let out := foldl push_back out (operands this) in
  match string this with
  | Some s => foldl push_back out s
  | None => out
  end.

(** [x->dump(out)] for each pointer of a vector, in order. *)
Fixpoint dump_each {T : Type} (objects : gmap addr T)
    (dump : T -> list word -> option (list word)) (v : list pointer)
    (out : list word) : option (list word) :=
  match v with
  | [] => Some out
  | p :: v' =>
      x ← deref objects p;
      out' ← dump x out;
      dump_each objects dump v' out'
  end.

(** [Instruction::dump] never fails. *)
Definition dump_Instruction (i : Instruction) (out : list word)
  : option (list word) :=
  Some (Instruction_dump i out).

Definition Block_dump (s : State) (this : Block) (out : list word)
  : option (list word) :=
  (* skip the degenerate unreachable blocks *)
  if unreachable this && bool_decide (length (instructions this) <= 2)%nat
  then Some out
  else
    label ← instructions this !! 0%nat;
    i ← deref (instructionObjects s) label;
    let out := Instruction_dump i out in
    out ← dump_each (instructionObjects s) dump_Instruction
            (localVariables this) out;
    dump_each (instructionObjects s) dump_Instruction
      (drop 1 (instructions this)) out.

Definition Function_dump (s : State) (this : Function) (out : list word)
  : option (list word) :=
  (* OpFunction *)
  fi ← instructionObjects s !! functionInstruction this;
  let out := Instruction_dump fi out in
  (* OpFunctionParameter *)
  out ← dump_each (instructionObjects s) dump_Instruction
          (parameterInstructions this) out;
  (* Blocks *)
  out ← dump_each (blockObjects s) (Block_dump s) (blocks this) out;
  let end_ := Instruction_ctor 0 0 OpFunctionEnd in
  Some (Instruction_dump end_ out).

Definition Module_dump (s : State) (this : Module) (out : list word)
  : option (list word) :=
  dump_each (functionObjects s) (Function_dump s) (functions this) out.

End Encoding.

End spv.

Import spv.

(** * Vocabulary of the statements *)

(** The words of the string operand; none when there is no string. *)
Definition string_words (i : Instruction) : list word :=
  default [] (string i).

(** 1 for an id that is present, 0 for [NoResult] / [NoType]. *)
Definition id_words (id : Id) : list word :=
  if decide (id = 0) then [] else [id].

(** The number of words of the encoding of an instruction. *)
Definition wordCount (i : Instruction) : N :=
  1 + N.of_nat (length (id_words (typeId i)))
    + N.of_nat (length (id_words (resultId i)))
    + N.of_nat (length (operands i))
    + N.of_nat (length (string_words i)).

(** The header word: [(wordCount << 16) | opcode], in 32 bits. *)
Definition header (opValue : Op -> N) (i : Instruction) : word :=
  wrap32 (N.lor (N.shiftl (wordCount i) 16) (opValue (opCode i))).

(** The encoding of an instruction. *)
Definition Instruction_words (opValue : Op -> N) (i : Instruction) : list word :=
  header opValue i :: id_words (typeId i) ++ id_words (resultId i)
    ++ operands i ++ string_words i.

Global Arguments Instruction_words : simpl never.

(** A dump that only appends: whether it is defined does not depend on the
    vector it is given, and neither do the words it adds to it. *)
Definition appends {T : Type} (dump : T -> list word -> option (list word))
  : Prop :=
  forall (x : T) (out : list word),
    dump x out = (fun ws => out ++ ws) <$> dump x [].

(** The words of the objects behind a vector of pointers, in order. *)
Definition words_of_each {T : Type} (objects : gmap addr T)
    (dump : T -> list word -> option (list word)) (v : list pointer)
  : option (list (list word)) :=
  mapM (fun p => x ← deref objects p; dump x []) v.

(** The characters of a string in groups of four, the last group filled up
    with NUL: the bytes of the words of a packed string. *)
Fixpoint group4 (l : list ascii) : list WordBytes :=
  match l with
  | [] => []
  | [a] => [mkWordBytes a NUL NUL NUL]
  | [a; b] => [mkWordBytes a b NUL NUL]
  | [a; b; c] => [mkWordBytes a b c NUL]
  | a :: b :: c :: d :: l' => mkWordBytes a b c d :: group4 l'
  end.

Definition bytes_of (w : WordBytes) : list ascii :=
  [byte0 w; byte1 w; byte2 w; byte3 w].

(** [mapInstruction] for each pointer of [v], in order. *)
Fixpoint mapInstructions (h : gmap addr Instruction) (v : list pointer)
    (m : Module) : option Module :=
  match v with
  | [] => Some m
  | p :: v' => m' ← Module_mapInstruction h p m; mapInstructions h v' m'
  end.

(** ** A small module, built with the operations above

    A module at address 1; the function type with id 2, return type 1 and
    parameter types 3 and 4 (an opcode that spvIR.h does not name); the
    function 5 of that type, whose parameters get the ids 6 and 7; its entry
    block 8 with a local variable 9, a load 10 and a return. *)

(** The state a computation leaves, the value it returns. *)
Definition exec {A : Type} (c : M A) (s : State) : State :=
  default s (snd <$> c s).

Definition eval {A : Type} (c : M A) (d : A) (s : State) : A :=
  default d (fst <$> c s).

Definition OpTypeFunction : Op := OpOther 33.
Definition OpVariable : Op := OpOther 59.
Definition OpLoad : Op := OpOther 61.

Definition example_type : Instruction :=
  Instruction_addIdOperand 4
    (Instruction_addIdOperand 3
       (Instruction_addIdOperand 1 (Instruction_ctor 2 NoType OpTypeFunction))).

Definition example_module : addr := 1%positive.

Definition empty_module_state : State :=
  mkState ∅ ∅ ∅ {[ example_module := mkModule [] [] ]}.

(** The state once the function type is registered. *)
Definition example_type_state : State :=
  exec (let* t := new_Instruction example_type in
        call_Module_mapInstruction example_module (ptr t))
    empty_module_state.

Definition example_type_module : Module :=
  default (mkModule [] []) (moduleObjects example_type_state !! example_module).

Definition example_new_Function : M addr :=
  new_Function 0 5 1 2 6 example_module.

Definition example_function : addr :=
  eval example_new_Function 1%positive example_type_state.

(** The state once the function is constructed. *)
Definition example_state : State :=
  exec example_new_Function example_type_state.

(** [block = new Block(8, *f); f->addBlock(block);
    f->addLocalVariable(new Instruction(9, 3, OpVariable));] *)
Definition example_new_Block : M addr :=
  let* b := new_Block 8 example_function in
  let* F := load_Function example_function in
  store_Function example_function (Function_addBlock (ptr b) F) ;;
  let* v := new_Instruction (Instruction_ctor 9 3 OpVariable) in
  Function_addLocalVariable example_function (ptr v) ;;
  ret b.

Definition example_block : addr :=
  eval example_new_Block 1%positive example_state.

Definition example_load : Instruction :=
  Instruction_addIdOperand 9 (Instruction_ctor 10 3 OpLoad).

(** The state once the block is constructed and the load is allocated. *)
Definition example_block_state : State :=
  exec (new_Instruction example_load) (exec example_new_Block example_state).

Definition example_load_addr : addr :=
  eval (new_Instruction example_load) 1%positive
    (exec example_new_Block example_state).

(** [block->addInstruction(load);
    block->addInstruction(new Instruction(OpReturn));] *)
Definition example_final_state : State :=
  exec (Block_addInstruction example_block (ptr example_load_addr) ;;
        let* r := new_Instruction (Instruction_ctor_op OpReturn) in
        Block_addInstruction example_block (ptr r))
    example_block_state.

(** The objects of the example. *)
Definition example_Block : Block :=
  default (mkBlock [] [] [] [] 1%positive false)
    (blockObjects example_final_state !! example_block).

Definition example_Function : Function :=
  default (mkFunction 1%positive 1%positive [] [])
    (functionObjects example_final_state !! example_function).

Definition example_Module : Module :=
  default (mkModule [] [])
    (moduleObjects example_final_state !! example_module).

(** The opcode numbers of SPIR-V 1.0, for the examples. *)
Definition example_opValue (op : Op) : N :=
  match op with
  | OpFunction => 54
  | OpFunctionParameter => 55
  | OpFunctionEnd => 56
  | OpLoopMerge => 246
  | OpLabel => 248
  | OpBranch => 249
  | OpBranchConditional => 250
  | OpSwitch => 251
  | OpKill => 252
  | OpReturn => 253
  | OpReturnValue => 254
  | OpOther tag => tag
  end.

(** A loop header: label, loop merge, branch; and one more instruction. *)
Definition loop_instructions : gmap addr Instruction :=
  list_to_map
    [(1%positive, Instruction_ctor 11 NoType OpLabel);
     (2%positive, Instruction_addIdOperand 12 (Instruction_ctor_op OpLoopMerge));
     (3%positive, Instruction_addIdOperand 13 (Instruction_ctor_op OpBranch));
     (4%positive, Instruction_ctor 14 3 OpLoad)].

Definition loop_block : Block :=
  mkBlock [ptr 1%positive; ptr 2%positive; ptr 3%positive] [] [] []
    1%positive false.

(** Three instructions with increasing ids that are not contiguous. *)
Definition sparse_instructions : gmap addr Instruction :=
  list_to_map
    [(1%positive, Instruction_ctor 3 NoType OpLabel);
     (2%positive, Instruction_ctor 20 NoType OpLabel);
     (3%positive, Instruction_ctor 100 NoType OpLabel)].

(** The largest ids: [limit_id + 16] does not fit 32 bits. *)
Definition limit_id : Id := 4294967285.

(** Three instructions with increasing ids, the last one at the limit. *)
Definition limit_instructions : gmap addr Instruction :=
  list_to_map
    [(1%positive, Instruction_ctor 3 NoType OpLabel);
     (2%positive, Instruction_ctor 20 NoType OpLabel);
     (3%positive, Instruction_ctor limit_id NoType OpLabel)].

(** The example block, and a load with the id at the limit allocated. *)
Definition example_limit_state : State :=
  exec (new_Instruction (Instruction_ctor limit_id 3 OpLoad))
    example_block_state.

Definition example_limit_addr : addr :=
  eval (new_Instruction (Instruction_ctor limit_id 3 OpLoad)) 1%positive
    example_block_state.

(** ** What a member function leaves of a block *)

(** Block [b'] is block [b] with the instruction vector [l]: every other
    member is as in [b]. *)
Definition Block_with_instructions (b : Block) (l : list pointer) (b' : Block)
  : Prop :=
  instructions b' = l
  /\ predecessors b' = predecessors b
  /\ successors b' = successors b
  /\ localVariables b' = localVariables b
  /\ Block_parent b' = Block_parent b
  /\ unreachable b' = unreachable b.

(** The call has a result, which is block [this] with the instruction vector
    [l]. *)
Definition returns_instructions (r : option Block) (this : Block)
    (l : list pointer) : Prop :=
  exists b' : Block, r = Some b' /\ Block_with_instructions this l b'.

(** From [s] to [s'] the block at [this], which was [b], got the instruction
    vector [l]; no other block, no instruction and no function changed. *)
Definition block_updated (s s' : State) (this : addr) (b : Block)
    (l : list pointer) : Prop :=
  instructionObjects s' = instructionObjects s
  /\ functionObjects s' = functionObjects s
  /\ exists b' : Block,
       blockObjects s' = <[this := b']> (blockObjects s)
       /\ Block_with_instructions b l b'.

(** The size of the id index once the ids [ids] are registered in this
    order, starting from [size] slots: [mapInstruction] resizes the index to
    [resultId + 16] slots when [resultId] is not below its size, and leaves
    its size alone otherwise. *)
Fixpoint index_size (size : N) (ids : list Id) : N :=
  match ids with
  | [] => size
  | r :: ids' => index_size (if decide (size <= r) then r + 16 else size) ids'
  end.

(** ** Well-formed stores *)

(** A pointer whose object exists. *)
Definition live {T : Type} (objects : gmap addr T) (p : pointer) : Prop :=
  is_Some (deref objects p).

(** A block holds at least one instruction, and its instructions and local
    variables exist. *)
Definition Block_ok (h : gmap addr Instruction) (b : Block) : Prop :=
  instructions b <> []
  /\ Forall (live h) (instructions b)
  /\ Forall (live h) (localVariables b).

(** The defining instruction, the parameters and the blocks of a function
    exist. *)
Definition Function_ok (s : State) (f : Function) : Prop :=
  is_Some (instructionObjects s !! functionInstruction f)
  /\ Forall (live (instructionObjects s)) (parameterInstructions f)
  /\ Forall (live (blockObjects s)) (blocks f).

(** Slot [r] of the index is null or points to an instruction whose result
    id is [r]. *)
Definition index_ok (h : gmap addr Instruction) (index : list pointer) : Prop :=
  forall (r : nat) (a : addr),
    index !! r = Some (ptr a) ->
    exists i : Instruction, h !! a = Some i /\ resultId i = N.of_nat r.

(** The functions of a module exist and its index is right. *)
Definition Module_ok (s : State) (m : Module) : Prop :=
  Forall (live (functionObjects s)) (functions m)
  /\ index_ok (instructionObjects s) (idToInstruction m).

Definition store_ok (s : State) : Prop :=
  map_Forall (fun _ b => Block_ok (instructionObjects s) b) (blockObjects s)
  /\ map_Forall (fun _ f => Function_ok s f) (functionObjects s)
  /\ map_Forall (fun _ m => Module_ok s m) (moduleObjects s).

(** The instructions of [h] are still there in [h'], with the same ids. *)
Definition keeps_ids (h h' : gmap addr Instruction) : Prop :=
  forall (a : addr) (i : Instruction),
    h !! a = Some i ->
    exists i' : Instruction, h' !! a = Some i' /\ resultId i' = resultId i.

(** [rewriteOperands] on one operand. *)
Definition rewritten (oldOperand newOperand x : Id) : Id :=
  if decide (x = oldOperand) then newOperand else x.

(** The control-transfer opcodes of [Block::isTerminated]. *)
Definition terminator (op : Op) : bool :=
  match op with
  | OpBranch | OpBranchConditional | OpSwitch
  | OpKill | OpReturn | OpReturnValue => true
  | _ => false
  end.

(** The stores a client builds: modules without functions and with an empty
    index to start with, then allocations of instructions, registrations,
    the two constructors and the member functions that add to a block or to
    a function or remove from it. *)
Inductive built : State -> Prop :=
| built_modules (ms : gmap addr Module) :
    map_Forall (fun _ m => m = mkModule [] []) ms ->
    built (mkState ∅ ∅ ∅ ms)
| built_new_Instruction (s s' : State) (i : Instruction) (a : addr) :
    built s -> new_Instruction i s = Some (a, s') -> built s'
| built_mapInstruction (s s' : State) (this : addr) (p : pointer) :
    built s -> call_Module_mapInstruction this p s = Some (tt, s') -> built s'
| built_new_Block (s s' : State) (id : Id) (parent this : addr) :
    built s -> new_Block id parent s = Some (this, s') -> built s'
| built_new_Function (s s' : State) (FunctionControlMaskNone : word)
    (id resultType functionType firstParamId : Id) (parent this : addr) :
    built s ->
    new_Function FunctionControlMaskNone id resultType functionType
      firstParamId parent s = Some (this, s') ->
    built s'
| built_addInstruction (s s' : State) (this : addr) (inst : pointer) :
    built s -> Block_addInstruction this inst s = Some (tt, s') -> built s'
| built_addInstructionAtFront (s s' : State) (NDEBUG : bool) (this : addr)
    (inst : pointer) :
    built s ->
    Block_addInstructionAtFront NDEBUG this inst s = Some (tt, s') ->
    built s'
| built_addLocalVariable (s s' : State) (this : addr) (inst : pointer) :
    built s -> Function_addLocalVariable this inst s = Some (tt, s') ->
    built s'
| built_insertInstructionBeforeTerminal (s : State) (a : addr) (b b' : Block)
    (inst : pointer) :
    built s -> blockObjects s !! a = Some b ->
    live (instructionObjects s) inst ->
    Block_insertInstructionBeforeTerminal (instructionObjects s) inst b
      = Some b' ->
    built (set_blockObjects <[a := b']> s)
| built_addBlock (s : State) (a : addr) (f : Function) (block : pointer) :
    built s -> functionObjects s !! a = Some f ->
    live (blockObjects s) block ->
    built (set_functionObjects <[a := Function_addBlock block f]> s)
| built_popBlock (s : State) (a : addr) (f f' : Function) (block : pointer) :
    built s -> functionObjects s !! a = Some f ->
    Function_popBlock block f = Some f' ->
    built (set_functionObjects <[a := f']> s).

(** Unfold the operations of the store monad. *)
Ltac run_M :=
  unfold load_Block, load_Function, load_Module, store_Block, store_Function,
    store_Module, deref_Instruction, new_Instruction;
  unfold bind, ret, lift, gets, modify; simpl.

(** * 32-bit arithmetic *)

Lemma wrap32_land (n : N) : wrap32 n = N.land n (N.ones 32).
Proof. unfold wrap32. symmetry. apply N.land_ones. Qed.

Lemma wrap32_idemp (n : N) : wrap32 (wrap32 n) = wrap32 n.
Proof. rewrite !wrap32_land, <- N.land_assoc, N.land_diag. reflexivity. Qed.

Lemma wrap32_add_l (a b : N) : wrap32 (wrap32 a + b) = wrap32 (a + b).
Proof. unfold wrap32. apply N.Div0.add_mod_idemp_l. Qed.

Lemma wrap32_add_r (a b : N) : wrap32 (a + wrap32 b) = wrap32 (a + b).
Proof. unfold wrap32. apply N.Div0.add_mod_idemp_r. Qed.

Lemma wrap32_add_mid (a b c : N) :
  wrap32 (a + wrap32 b + c) = wrap32 (a + b + c).
Proof.
  rewrite <- (wrap32_add_l (a + wrap32 b)), wrap32_add_r, wrap32_add_l.
  reflexivity.
Qed.

Lemma wrap32_shiftl (a k : N) :
  wrap32 (N.shiftl (wrap32 a) k) = wrap32 (N.shiftl a k).
Proof.
  rewrite !N.shiftl_mul_pow2. unfold wrap32.
  apply N.Div0.mul_mod_idemp_l.
Qed.

Lemma wrap32_lor_l (a b : N) : wrap32 (N.lor (wrap32 a) b) = wrap32 (N.lor a b).
Proof.
  rewrite !wrap32_land, !N.land_lor_distr_l, <- N.land_assoc, N.land_diag.
  reflexivity.
Qed.

Lemma wrap32_small (n : N) : n < 2 ^ 32 -> wrap32 n = n.
Proof. intros H. unfold wrap32. apply N.mod_small, H. Qed.

(** * Instruction::dump *)

Lemma foldl_push_back {A : Type} (v out : list A) :
  foldl push_back out v = out ++ v.
Proof.
  revert out. induction v as [|x v IH]; intros out; simpl.
  - symmetry. apply app_nil_r.
  - rewrite IH. unfold push_back. rewrite <- app_assoc. reflexivity.
Qed.

(** The header of the source, computed from a word count that was reduced
    modulo 2^32 on the way, is the header of the exact word count. *)
Lemma header_wrap (wc wc' opcode : N) :
  wrap32 wc = wrap32 wc' ->
  wrap32 (N.lor (wrap32 (N.shiftl wc WordCountShift)) opcode) =
  wrap32 (N.lor (N.shiftl wc' 16) opcode).
Proof.
  intros H. unfold WordCountShift.
  rewrite wrap32_lor_l, <- (wrap32_lor_l (N.shiftl wc' 16)).
  rewrite <- (wrap32_shiftl wc'), <- H, wrap32_shiftl, wrap32_lor_l.
  reflexivity.
Qed.

Lemma Instruction_dump_words (opValue : Op -> N) (i : Instruction)
    (out : list word) :
  Instruction_dump opValue i out = out ++ Instruction_words opValue i.
Proof.
  unfold Instruction_dump, Instruction_words, header.
  rewrite (header_wrap _ (wordCount i)).
  - unfold string_words, id_words.
    destruct (string i) as [s|]; simpl;
      destruct (decide (typeId i = 0)), (decide (resultId i = 0)); simpl;
      rewrite ?foldl_push_back; unfold push_back;
      rewrite <- ?app_assoc; simpl; rewrite ?app_nil_r; reflexivity.
  - unfold wordCount, string_words, id_words.
    destruct (string i) as [s|]; simpl;
      destruct (decide (resultId i = 0)), (decide (typeId i = 0)); simpl;
      change (wrap32 (1 + 1)) with 2; change (wrap32 (2 + 1)) with 3;
      rewrite ?wrap32_idemp, ?wrap32_add_l, ?wrap32_add_r, ?wrap32_add_mid,
        ?wrap32_add_r; f_equal; lia.
Qed.

(** C1. For every instruction, [Instruction::dump] appends the header word
    [(wordCount << 16) | opcode] (a 32-bit word), then the type id if there
    is one, then the result id if there is one, then the operands in order,
    then the words of the string in order; [wordCount] is 1, plus 1 for the
    type id, plus 1 for the result id, plus the number of operands, plus the
    number of string words. *)
Theorem Instruction_dump_layout (opValue : Op -> N) (i : Instruction)
    (out : list word) :
  Instruction_dump opValue i out =
    out ++ [wrap32 (N.lor (N.shiftl (wordCount i) 16) (opValue (opCode i)))]
        ++ (if decide (typeId i = 0) then [] else [typeId i])
        ++ (if decide (resultId i = 0) then [] else [resultId i])
        ++ operands i ++ string_words i
  /\ wordCount i =
       1 + (if decide (typeId i = 0) then 0 else 1)
         + (if decide (resultId i = 0) then 0 else 1)
         + N.of_nat (length (operands i))
         + N.of_nat (length (string_words i)).
Proof.
  split.
  - apply Instruction_dump_words.
  - unfold wordCount, id_words.
    destruct (decide (typeId i = 0)), (decide (resultId i = 0)); reflexivity.
Qed.

(** With a word count and an opcode below 2^16, the count is the upper half
    of the header and the opcode its lower half. *)
Lemma header_fields (opValue : Op -> N) (i : Instruction) :
  wordCount i < 2 ^ 16 -> opValue (opCode i) < 2 ^ 16 ->
  header opValue i = wordCount i * 2 ^ 16 + opValue (opCode i)
  /\ N.shiftr (header opValue i) 16 = wordCount i
  /\ N.land (header opValue i) (N.ones 16) = opValue (opCode i).
Proof.
  intros Hwc Hop. set (wc := wordCount i) in *. set (op := opValue (opCode i)) in *.
  assert (N.land (N.shiftl wc 16) op = 0) as Hdisjoint.
  { apply N.bits_inj. intros k. rewrite N.land_spec, N.bits_0.
    destruct (N.lt_ge_cases k 16) as [Hk|Hk].
    - rewrite N.shiftl_spec_low by exact Hk. reflexivity.
    - destruct (N.eq_dec op 0) as [->|Hnz].
      + rewrite N.bits_0. apply andb_false_r.
      + rewrite (N.bits_above_log2 op k), andb_false_r; [reflexivity|].
        apply N.log2_lt_pow2; [lia|].
        eapply N.lt_le_trans; [exact Hop|].
        apply N.pow_le_mono_r; lia. }
  assert (N.lor (N.shiftl wc 16) op = wc * 2 ^ 16 + op) as Hsum.
  { rewrite <- N.lxor_lor by exact Hdisjoint.
    rewrite <- N.add_nocarry_lxor by exact Hdisjoint.
    rewrite N.shiftl_mul_pow2. reflexivity. }
  assert (header opValue i = wc * 2 ^ 16 + op) as Hh.
  { unfold header. fold wc. fold op. rewrite Hsum. apply wrap32_small.
    change (2 ^ 32) with (2 ^ 16 * 2 ^ 16). nia. }
  split; [exact Hh|]. rewrite Hh. split.
  - rewrite N.shiftr_div_pow2, N.div_add_l by lia.
    rewrite N.div_small by exact Hop. lia.
  - rewrite N.land_ones, N.add_comm, N.Div0.mod_add.
    apply N.mod_small, Hop.
Qed.

(** * Instruction::addStringOperand *)

(** From any state of the loop: the words pushed so far, then the bytes
    already stored in the current word followed by the rest of the string
    and its terminating NUL, four per word. *)
Lemma pack_loop_words (str : list ascii) :
  forall s : PackState,
    (pk_charCount s < 4)%nat ->
    pack_finish (pack_loop str s) =
      pk_string s ++
      (word_of_bytes <$>
         group4 (take (pk_charCount s) (bytes_of (pk_word s))
                   ++ c_str str ++ [NUL])).
Proof.
  induction str as [|c str IH]; intros [[b0 b1 b2 b3] cc out] Hcc;
    cbn [pk_charCount pk_word pk_string] in *.
  - destruct cc as [|[|[|[|cc]]]]; try lia; reflexivity.
  - cbn [pack_loop c_str]. destruct (decide (c = NUL)) as [->|Hc].
    + destruct cc as [|[|[|[|cc]]]]; try lia; reflexivity.
    + rewrite IH.
      * destruct cc as [|[|[|[|cc]]]]; try lia;
          unfold pack_char, push_back; simpl;
          rewrite <- ?app_assoc; reflexivity.
      * destruct cc as [|[|[|[|cc]]]]; try lia;
          unfold pack_char; simpl; lia.
Qed.

(** The words [addStringOperand] stores are the characters of the string
    and the terminating NUL, four per word in the order of the string, the
    last word filled up with zeros; the value the local [word] had before the
    loop does not show. *)
Lemma pack_string_words (word0 : WordBytes) (str : list ascii) :
  pack_string word0 str = word_of_bytes <$> group4 (c_str str ++ [NUL]).
Proof.
  unfold pack_string. rewrite pack_loop_words by (simpl; lia). reflexivity.
Qed.

Lemma pack_loop_count (str : list ascii) :
  forall s : PackState,
    NUL ∉ str -> (pk_charCount s < 4)%nat ->
    length (pk_string (pack_loop str s)) =
      (length (pk_string s) + (pk_charCount s + length str + 1) / 4)%nat
    /\ pk_charCount (pack_loop str s) =
         ((pk_charCount s + length str + 1) mod 4)%nat.
Proof.
  induction str as [|c str IH]; intros s Hnul Hcc.
  - pose proof (Nat.div_mod_eq (pk_charCount s + length (@nil ascii) + 1) 4) as E.
    pose proof (Nat.mod_upper_bound (pk_charCount s + length (@nil ascii) + 1) 4)
      as B.
    cbn [pack_loop]. unfold pack_char, push_back.
    destruct (decide (S (pk_charCount s) = 4%nat)) as [E4|E4];
      cbn [pk_string pk_charCount]; rewrite ?length_app;
      cbn [length] in *; lia.
  - apply not_elem_of_cons in Hnul as [Hc Hnul].
    cbn [pack_loop]. rewrite decide_False by congruence.
    destruct (IH (pack_char c s) Hnul) as [IH1 IH2].
    { unfold pack_char. destruct (decide _); simpl; lia. }
    rewrite IH1, IH2. clear IH1 IH2 IH.
    pose proof (Nat.div_mod_eq (pk_charCount s + length (c :: str) + 1) 4) as E.
    pose proof (Nat.mod_upper_bound (pk_charCount s + length (c :: str) + 1) 4)
      as B.
    unfold pack_char, push_back.
    destruct (decide (S (pk_charCount s) = 4%nat)) as [E4|E4];
      cbn [pk_string pk_charCount]; rewrite ?length_app; cbn [length] in *.
    + pose proof (Nat.div_mod_eq (0 + length str + 1) 4) as E'.
      pose proof (Nat.mod_upper_bound (0 + length str + 1) 4) as B'. lia.
    + pose proof (Nat.div_mod_eq (S (pk_charCount s) + length str + 1) 4) as E'.
      pose proof (Nat.mod_upper_bound (S (pk_charCount s) + length str + 1) 4)
        as B'. lia.
Qed.

(** A string of [n] characters takes [n / 4 + 1] words: there is always room
    for the terminating NUL. *)
Lemma pack_string_length (word0 : WordBytes) (str : list ascii) :
  NUL ∉ str ->
  length (pack_string word0 str) = (length str / 4 + 1)%nat.
Proof.
  intros Hnul. unfold pack_string, pack_finish.
  destruct (pack_loop_count str (mkPackState word0 0 []) Hnul) as [H1 H2];
    [simpl; lia|].
  cbn [pk_string pk_charCount length] in H1, H2.
  pose proof (Nat.div_mod_eq (0 + length str + 1) 4) as E1.
  pose proof (Nat.div_mod_eq (length str) 4) as E2.
  pose proof (Nat.mod_upper_bound (0 + length str + 1) 4) as B1.
  pose proof (Nat.mod_upper_bound (length str) 4) as B2.
  destruct (decide (0 < pk_charCount _)%nat) as [Hpos|Hzero];
    unfold push_back; rewrite ?length_app, H1; cbn [length]; lia.
Qed.

(** C2, as stated, fails: the four characters of "abcd" fill the first word,
    and the terminating NUL that the [do] loop stores next opens a second
    word, which is padded with zeros and pushed as well. *)
Lemma addStringOperand_abcd_not_one_word :
  ~ (exists w : word,
       string (Instruction_addStringOperand (mkWordBytes NUL NUL NUL NUL)
                 "abcd" (Instruction_ctor_op (OpOther 0))) = Some [w]).
Proof.
  intros [w H]. apply (f_equal (fun o => length <$> o)) in H.
  unfold Instruction_addStringOperand in H. simpl in H.
  discriminate H.
Qed.

(** C2, amended. [addStringOperand] with "abcd" stores two words: the bytes
    'a','b','c','d' packed in that order (lowest byte first), then a word of
    four zero bytes that holds the terminating NUL; with "ab" it stores
    exactly one word, with bytes 'a','b',0,0. *)
Theorem addStringOperand_abcd_ab (word0 : WordBytes) (this : Instruction) :
  string (Instruction_addStringOperand word0 "abcd" this) =
    Some [word_of_bytes (mkWordBytes "a" "b" "c" "d"); 0]
  /\ word_of_bytes (mkWordBytes "a" "b" "c" "d") = 0x64636261
  /\ string (Instruction_addStringOperand word0 "ab" this) =
       Some [word_of_bytes (mkWordBytes "a" "b" NUL NUL)]
  /\ word_of_bytes (mkWordBytes "a" "b" NUL NUL) = 0x00006261.
Proof.
  unfold Instruction_addStringOperand. cbn [string].
  rewrite !pack_string_words.
  split; [reflexivity|]. split; [reflexivity|].
  split; reflexivity.
Qed.

(** * Block::insertInstructionBeforeTerminal *)

Lemma insert_from_end_1 {A : Type} (x l : A) (pre : list A) :
  insert_from_end 1 x (pre ++ [l]) = Some (pre ++ [x; l]).
Proof.
  unfold insert_from_end, insert_at. rewrite length_app. simpl.
  rewrite decide_True by lia.
  replace (length pre + 1 - 1)%nat with (length pre) by lia.
  rewrite take_app_length, drop_app_length. reflexivity.
Qed.

Lemma insert_from_end_2 {A : Type} (x a l : A) (pre : list A) :
  insert_from_end 2 x (pre ++ [a; l]) = Some (pre ++ [x; a; l]).
Proof.
  unfold insert_from_end, insert_at. rewrite length_app. simpl.
  rewrite decide_True by lia.
  replace (length pre + 2 - 2)%nat with (length pre) by lia.
  rewrite take_app_length, drop_app_length. reflexivity.
Qed.

Lemma back_opCode_snoc (h : gmap addr Instruction) (this : Block)
    (pre : list pointer) (last : pointer) (i : Instruction) :
  instructions this = pre ++ [last] -> deref h last = Some i ->
  back_opCode h this = Some (opCode i).
Proof.
  intros Hv Hi. unfold back_opCode. rewrite Hv, last_snoc. simpl.
  rewrite Hi. reflexivity.
Qed.

(** The block [insertInstructionBeforeTerminal] returns, by the opcode of the
    last instruction. *)
Lemma insertInstructionBeforeTerminal_cases
    (h : gmap addr Instruction) (inst : pointer) (this : Block)
    (pre : list pointer) (last : pointer) (lastI : Instruction) :
  instructions this = pre ++ [last] ->
  deref h last = Some lastI ->
  match opCode lastI with
  | OpBranchConditional | OpSwitch =>
      forall (pre' : list pointer) (x : pointer), pre = pre' ++ [x] ->
        Block_insertInstructionBeforeTerminal h inst this =
          Some (set_instructions (pre' ++ [inst; x; last]) this)
  | OpBranch =>
      (forall (pre' : list pointer) (x : pointer) (xI : Instruction),
         pre = pre' ++ [x] -> deref h x = Some xI ->
         Block_insertInstructionBeforeTerminal h inst this =
           Some (set_instructions
                   (if decide (opCode xI = OpLoopMerge)
                    then pre' ++ [inst; x; last]
                    else pre' ++ [x; inst; last]) this))
      /\ (pre = [] ->
          Block_insertInstructionBeforeTerminal h inst this =
            Some (set_instructions [inst; last] this))
  | OpKill | OpReturn | OpReturnValue =>
      Block_insertInstructionBeforeTerminal h inst this =
        Some (set_instructions (pre ++ [inst; last]) this)
  | _ =>
      Block_insertInstructionBeforeTerminal h inst this =
        Some (set_instructions (pre ++ [last; inst]) this)
  end.
Proof.
  intros Hv Hlast.
  pose proof (back_opCode_snoc h this pre last lastI Hv Hlast) as Hop.
  unfold Block_insertInstructionBeforeTerminal. rewrite Hop. simpl.
  destruct (opCode lastI) eqn:Hcode; simpl;
    try (rewrite Hv; unfold push_back; rewrite <- app_assoc; reflexivity);
    try (rewrite Hv, insert_from_end_1; reflexivity);
    try (intros pre' x ->; rewrite Hv, <- app_assoc; simpl;
         rewrite insert_from_end_2; reflexivity).
  split.
  - intros pre' x xI -> Hx. rewrite Hv, <- app_assoc. simpl.
    rewrite length_app. simpl. rewrite decide_True by lia.
    replace (length pre' + 2 - 2)%nat with (length pre') by lia.
    rewrite list_lookup_middle by reflexivity. simpl. rewrite Hx. simpl.
    unfold Instruction_getOpCode.
    destruct (decide (opCode xI = OpLoopMerge)) as [e|n].
    + rewrite bool_decide_eq_true_2 by exact e.
      rewrite insert_from_end_2. reflexivity.
    + rewrite bool_decide_eq_false_2 by exact n.
      change (pre' ++ [x; last]) with (pre' ++ [x] ++ [last]).
      rewrite app_assoc, insert_from_end_1, <- app_assoc. reflexivity.
  - intros ->. rewrite Hv. simpl. reflexivity.
Qed.

Lemma set_instructions_with (this : Block) (l : list pointer) :
  Block_with_instructions this l (set_instructions l this).
Proof. repeat split. Qed.

(** C3. [insertInstructionBeforeTerminal] places the new instruction two
    positions from the end when the last instruction is a conditional branch
    or a switch; for an unconditional branch, two positions from the end when
    the second-to-last instruction is a loop merge and one position from the
    end otherwise; immediately before a kill, return or return-value; and at
    the end in every other case.  In each case the call has a result, the
    instructions of the block it returns are the old ones with the new one at
    that place, and the other members of the block are unchanged. *)
Theorem insertInstructionBeforeTerminal_placement
    (h : gmap addr Instruction) (inst : pointer) (this : Block)
    (pre : list pointer) (last : pointer) (lastI : Instruction) :
  instructions this = pre ++ [last] ->
  deref h last = Some lastI ->
  match opCode lastI with
  | OpBranchConditional | OpSwitch =>
      forall (pre' : list pointer) (x : pointer), pre = pre' ++ [x] ->
        returns_instructions
          (Block_insertInstructionBeforeTerminal h inst this) this
          (pre' ++ [inst; x; last])
  | OpBranch =>
      (forall (pre' : list pointer) (x : pointer) (xI : Instruction),
         pre = pre' ++ [x] -> deref h x = Some xI ->
         returns_instructions
           (Block_insertInstructionBeforeTerminal h inst this) this
           (if decide (opCode xI = OpLoopMerge)
            then pre' ++ [inst; x; last]
            else pre' ++ [x; inst; last]))
      /\ (pre = [] ->
          returns_instructions
            (Block_insertInstructionBeforeTerminal h inst this) this
            [inst; last])
  | OpKill | OpReturn | OpReturnValue =>
      returns_instructions
        (Block_insertInstructionBeforeTerminal h inst this) this
        (pre ++ [inst; last])
  | _ =>
      returns_instructions
        (Block_insertInstructionBeforeTerminal h inst this) this
        (pre ++ [last; inst])
  end.
Proof.
  intros Hv Hlast.
  pose proof (insertInstructionBeforeTerminal_cases h inst this pre last lastI
                Hv Hlast) as Hcases.
  unfold returns_instructions.
  destruct (opCode lastI);
    try (eexists; split; [exact Hcases|apply set_instructions_with]);
    try (intros pre' x Hpre; eexists;
         split; [exact (Hcases pre' x Hpre)|apply set_instructions_with]).
  destruct Hcases as [Hsome Hnone]. split.
  - intros pre' x xI Hpre Hx. eexists.
    split; [exact (Hsome pre' x xI Hpre Hx)|apply set_instructions_with].
  - intros Hpre. eexists.
    split; [exact (Hnone Hpre)|apply set_instructions_with].
Qed.

(** * The dump functions only append *)

Section Dump.

Variable opValue : Op -> N.

Lemma dump_Instruction_appends : appends (dump_Instruction opValue).
Proof.
  intros i out. unfold dump_Instruction. simpl.
  rewrite (Instruction_dump_words opValue i out),
    (Instruction_dump_words opValue i []). reflexivity.
Qed.

Lemma dump_each_appends {T : Type} (objects : gmap addr T)
    (dump : T -> list word -> option (list word)) :
  appends dump -> appends (dump_each objects dump).
Proof.
  intros Hd v. induction v as [|p v IH]; intros out; simpl.
  - rewrite app_nil_r. reflexivity.
  - destruct (deref objects p) as [x|]; cbn; [|reflexivity].
    rewrite (Hd x out). destruct (dump x []) as [ws|]; cbn; [|reflexivity].
    rewrite (IH (out ++ ws)), (IH ws).
    destruct (dump_each objects dump v []) as [r|]; cbn; [|reflexivity].
    rewrite app_assoc. reflexivity.
Qed.

Lemma Block_dump_appends (s : State) : appends (Block_dump opValue s).
Proof.
  intros this out. unfold Block_dump.
  destruct (unreachable this && bool_decide (length (instructions this) <= 2)%nat).
  - simpl. rewrite app_nil_r. reflexivity.
  - destruct (instructions this !! 0%nat) as [label|]; cbn; [|reflexivity].
    destruct (deref (instructionObjects s) label) as [i|]; cbn; [|reflexivity].
    rewrite (Instruction_dump_words opValue i out),
      (Instruction_dump_words opValue i []). cbn.
    rewrite (dump_each_appends _ _ dump_Instruction_appends _ (out ++ _)),
      (dump_each_appends _ _ dump_Instruction_appends _ (Instruction_words _ _)).
    destruct (dump_each (instructionObjects s) (dump_Instruction opValue)
                (localVariables this) []) as [lv|]; cbn; [|reflexivity].
    rewrite (dump_each_appends _ _ dump_Instruction_appends _ (_ ++ lv)),
      (dump_each_appends _ _ dump_Instruction_appends _ (Instruction_words _ _ ++ lv)).
    destruct (dump_each (instructionObjects s) (dump_Instruction opValue)
                (drop 1 (instructions this)) []) as [r|]; cbn; [|reflexivity].
    rewrite <- !app_assoc. reflexivity.
Qed.

Lemma Function_dump_appends (s : State) : appends (Function_dump opValue s).
Proof.
  intros this out. unfold Function_dump.
  destruct (instructionObjects s !! functionInstruction this) as [fi|];
    cbn -[Instruction_dump]; [|reflexivity].
  rewrite (Instruction_dump_words opValue fi out),
    (Instruction_dump_words opValue fi []). cbn -[Instruction_dump].
  rewrite (dump_each_appends _ _ dump_Instruction_appends _ (out ++ _)),
    (dump_each_appends _ _ dump_Instruction_appends _ (Instruction_words _ _)).
  destruct (dump_each (instructionObjects s) (dump_Instruction opValue)
              (parameterInstructions this) []) as [ps|]; cbn -[Instruction_dump]; [|reflexivity].
  rewrite (dump_each_appends _ _ (Block_dump_appends s) _ (_ ++ ps)),
    (dump_each_appends _ _ (Block_dump_appends s) _ (Instruction_words _ _ ++ ps)).
  destruct (dump_each (blockObjects s) (Block_dump opValue s) (blocks this) [])
    as [bs|]; cbn -[Instruction_dump]; [|reflexivity].
  rewrite !Instruction_dump_words, <- !app_assoc. reflexivity.
Qed.

Lemma Module_dump_appends (s : State) : appends (Module_dump opValue s).
Proof.
  intros this out. unfold Module_dump.
  apply (dump_each_appends _ _ (Function_dump_appends s)).
Qed.

(** What a traversal appends, from the words of each object. *)
Lemma dump_each_words {T : Type} (objects : gmap addr T)
    (dump : T -> list word -> option (list word)) (v : list pointer)
    (wss : list (list word)) (out : list word) :
  appends dump ->
  words_of_each objects dump v = Some wss ->
  dump_each objects dump v out = Some (out ++ concat wss).
Proof.
  intros Hd. unfold words_of_each. revert wss out.
  induction v as [|p v IH]; intros wss out H; simpl in *.
  - injection H as <-. simpl. rewrite app_nil_r. reflexivity.
  - destruct (deref objects p) as [x|]; simpl in *; [|discriminate].
    rewrite (Hd x out). destruct (dump x []) as [ws|]; simpl in *; [|discriminate].
    destruct (mapM _ v) as [wss'|] eqn:Hm; simpl in *; [|discriminate].
    injection H as <-. rewrite (IH wss' (out ++ ws) eq_refl). simpl.
    rewrite app_assoc. reflexivity.
Qed.

End Dump.

(** The words of a vector of instructions, from the instructions. *)
Lemma words_of_each_Instruction (opValue : Op -> N) (h : gmap addr Instruction)
    (v : list pointer) (insts : list Instruction) :
  mapM (deref h) v = Some insts ->
  words_of_each h (dump_Instruction opValue) v =
    Some (Instruction_words opValue <$> insts).
Proof.
  unfold words_of_each. revert insts.
  induction v as [|p v IH]; intros insts H; simpl in *.
  - injection H as <-. reflexivity.
  - destruct (deref h p) as [i|]; simpl in *; [|discriminate].
    destruct (mapM (deref h) v) as [insts'|]; simpl in *; [|discriminate].
    injection H as <-. rewrite (IH insts' eq_refl). simpl.
    unfold dump_Instruction. rewrite Instruction_dump_words. reflexivity.
Qed.

Lemma dump_each_Instruction (opValue : Op -> N) (h : gmap addr Instruction)
    (v : list pointer) (insts : list Instruction) (out : list word) :
  mapM (deref h) v = Some insts ->
  dump_each h (dump_Instruction opValue) v out =
    Some (out ++ concat (Instruction_words opValue <$> insts)).
Proof.
  intros H. apply dump_each_words.
  - apply dump_Instruction_appends.
  - apply words_of_each_Instruction, H.
Qed.

Lemma Instruction_words_dump (opValue : Op -> N) (i : Instruction) :
  Instruction_words opValue i = Instruction_dump opValue i [].
Proof. rewrite Instruction_dump_words. reflexivity. Qed.

Lemma fmap_Instruction_words (opValue : Op -> N) (v : list Instruction) :
  Instruction_words opValue <$> v =
    (fun i => Instruction_dump opValue i []) <$> v.
Proof. apply list_fmap_ext. intros _ i _. apply Instruction_words_dump. Qed.

(** * Block::dump *)

Lemma Block_dump_skipped (opValue : Op -> N) (s : State) (this : Block)
    (out : list word) :
  unreachable this = true -> (length (instructions this) <= 2)%nat ->
  Block_dump opValue s this out = Some out.
Proof.
  intros Hu Hn. unfold Block_dump.
  rewrite Hu, bool_decide_eq_true_2 by exact Hn. reflexivity.
Qed.

Lemma Block_dump_emitted (opValue : Op -> N) (s : State) (this : Block)
    (out : list word) (label : pointer) (rest : list pointer)
    (l : Instruction) (lv rs : list Instruction) :
  unreachable this = false \/ (2 < length (instructions this))%nat ->
  instructions this = label :: rest ->
  deref (instructionObjects s) label = Some l ->
  mapM (deref (instructionObjects s)) (localVariables this) = Some lv ->
  mapM (deref (instructionObjects s)) rest = Some rs ->
  Block_dump opValue s this out =
    Some (out ++ Instruction_words opValue l
              ++ concat (Instruction_words opValue <$> lv)
              ++ concat (Instruction_words opValue <$> rs)).
Proof.
  intros Hc Hv Hl Hlv Hrs. unfold Block_dump.
  replace (unreachable this && bool_decide (length (instructions this) <= 2)%nat)
    with false.
  - rewrite Hv. cbn. rewrite Hl. cbn.
    rewrite (dump_each_Instruction _ _ _ lv) by exact Hlv. cbn.
    rewrite (dump_each_Instruction _ _ _ rs) by exact Hrs.
    rewrite Instruction_dump_words, <- !app_assoc. reflexivity.
  - symmetry. destruct Hc as [-> | Hn]; [reflexivity|].
    rewrite bool_decide_eq_false_2 by lia. apply andb_false_r.
Qed.

(** C5. [Block::dump] adds nothing to the output when the block is flagged
    unreachable and holds at most 2 instructions; otherwise it emits the
    label instruction, then the local variables in order, then the other
    instructions of the block in order.  An unreachable block made of its
    label alone is skipped; the same block, reachable, is emitted. *)
Theorem Block_dump_spec (opValue : Op -> N) (s : State) (this : Block)
    (out : list word) (label : pointer) (rest : list pointer)
    (l : Instruction) (lv rs : list Instruction) :
  instructions this = label :: rest ->
  deref (instructionObjects s) label = Some l ->
  mapM (deref (instructionObjects s)) (localVariables this) = Some lv ->
  mapM (deref (instructionObjects s)) rest = Some rs ->
  Block_dump opValue s this out =
    (if unreachable this && bool_decide (length (label :: rest) <= 2)%nat
     then Some out
     else Some (out ++ Instruction_dump opValue l []
                    ++ concat ((fun i => Instruction_dump opValue i []) <$> lv)
                    ++ concat ((fun i => Instruction_dump opValue i []) <$> rs)))
  /\ (rest = [] ->
      Block_dump opValue s (Block_setUnreachable this) out = Some out
      /\ (unreachable this = false ->
          Block_dump opValue s this out =
            Some (out ++ Instruction_dump opValue l []
                      ++ concat ((fun i => Instruction_dump opValue i []) <$> lv))
          /\ Block_dump opValue s this out <> Some out)).
Proof.
  intros Hv Hl Hlv Hrs.
  rewrite <- !fmap_Instruction_words, <- Instruction_words_dump. split.
  - rewrite <- Hv.
    destruct (unreachable this) eqn:Hu; simpl.
    + destruct (bool_decide (length (instructions this) <= 2)%nat) eqn:Hn.
      * apply bool_decide_eq_true_1 in Hn.
        apply Block_dump_skipped; assumption.
      * apply bool_decide_eq_false_1 in Hn.
        eapply Block_dump_emitted; eauto. right. lia.
    + eapply Block_dump_emitted; eauto.
  - intros ->. split.
    + apply Block_dump_skipped; [reflexivity|]. simpl. rewrite Hv. simpl. lia.
    + intros Hu.
      assert (Block_dump opValue s this out =
                Some (out ++ Instruction_words opValue l
                          ++ concat (Instruction_words opValue <$> lv))) as E.
      { rewrite (Block_dump_emitted opValue s this out label [] l lv rs);
          auto.
        simpl in Hrs. injection Hrs as <-. simpl. rewrite app_nil_r.
        reflexivity. }
      split; [exact E|]. rewrite E. intros H. injection H as H.
      apply (f_equal length) in H. rewrite !length_app in H.
      unfold Instruction_words in H. simpl in H. lia.
Qed.

(** * Function::dump *)

Lemma Function_dump_words (opValue : Op -> N) (s : State) (this : Function)
    (out : list word) (fi : Instruction) (ps : list Instruction)
    (bws : list (list word)) :
  instructionObjects s !! functionInstruction this = Some fi ->
  mapM (deref (instructionObjects s)) (parameterInstructions this) = Some ps ->
  words_of_each (blockObjects s) (Block_dump opValue s) (blocks this) = Some bws ->
  Function_dump opValue s this out =
    Some (out ++ Instruction_words opValue fi
              ++ concat (Instruction_words opValue <$> ps)
              ++ concat bws
              ++ Instruction_words opValue (Instruction_ctor 0 0 OpFunctionEnd)).
Proof.
  intros Hfi Hps Hbs. unfold Function_dump. rewrite Hfi. cbn -[Instruction_dump].
  rewrite (dump_each_Instruction _ _ _ ps) by exact Hps. cbn -[Instruction_dump].
  rewrite (dump_each_words _ _ _ bws) by (auto using Block_dump_appends).
  cbn -[Instruction_dump].
  rewrite !Instruction_dump_words, <- !app_assoc. reflexivity.
Qed.

(** C8. [Function::dump] emits the defining instruction, then the parameter
    instructions in order, then the blocks in order, then a function-end
    instruction, which has no result id, no type id and no operand, and so
    is one header word. *)
Theorem Function_dump_order (opValue : Op -> N) (s : State) (this : Function)
    (out : list word) (fi : Instruction) (ps : list Instruction)
    (bws : list (list word)) :
  instructionObjects s !! functionInstruction this = Some fi ->
  mapM (deref (instructionObjects s)) (parameterInstructions this) = Some ps ->
  words_of_each (blockObjects s) (Block_dump opValue s) (blocks this) = Some bws ->
  Function_dump opValue s this out =
    Some (out ++ Instruction_dump opValue fi []
              ++ concat ((fun p => Instruction_dump opValue p []) <$> ps)
              ++ concat bws
              ++ Instruction_dump opValue (Instruction_ctor 0 0 OpFunctionEnd) [])
  /\ resultId (Instruction_ctor 0 0 OpFunctionEnd) = NoResult
  /\ typeId (Instruction_ctor 0 0 OpFunctionEnd) = NoType
  /\ operands (Instruction_ctor 0 0 OpFunctionEnd) = []
  /\ Instruction_dump opValue (Instruction_ctor 0 0 OpFunctionEnd) [] =
       [wrap32 (N.lor (N.shiftl 1 16) (opValue OpFunctionEnd))].
Proof.
  intros Hfi Hps Hbs. split; [|repeat split].
  rewrite (Function_dump_words opValue s this out fi ps bws Hfi Hps Hbs).
  rewrite <- fmap_Instruction_words, <- !Instruction_words_dump.
  reflexivity.
Qed.

(** C10. Every dump only appends to the output vector: the vector it is
    given is a prefix of the vector it leaves, all its words unchanged, and
    the words added are those the same dump adds to an empty vector; whether
    the dump is defined does not depend on the vector either. *)
Theorem dump_only_appends (opValue : Op -> N) (s : State) :
  (forall (i : Instruction) (out : list word),
     Instruction_dump opValue i out = out ++ Instruction_dump opValue i [])
  /\ (forall (b : Block) (out : list word),
        Block_dump opValue s b out =
          (fun ws => out ++ ws) <$> Block_dump opValue s b [])
  /\ (forall (f : Function) (out : list word),
        Function_dump opValue s f out =
          (fun ws => out ++ ws) <$> Function_dump opValue s f [])
  /\ (forall (m : Module) (out : list word),
        Module_dump opValue s m out =
          (fun ws => out ++ ws) <$> Module_dump opValue s m []).
Proof.
  split; [|split; [|split]].
  - intros i out. rewrite !Instruction_dump_words. reflexivity.
  - apply Block_dump_appends.
  - apply Function_dump_appends.
  - apply Module_dump_appends.
Qed.

(** * Module::mapInstruction and Module::getInstruction *)

(** Whenever [mapInstruction] is defined, the index has not shrunk, the id is
    mapped to the instruction, and every other id is mapped as before. *)
Lemma Module_mapInstruction_defined (h : gmap addr Instruction) (p : pointer)
    (i : Instruction) (m m' : Module) :
  deref h p = Some i ->
  Module_mapInstruction h p m = Some m' ->
  functions m' = functions m
  /\ (length (idToInstruction m) <= length (idToInstruction m'))%nat
  /\ Module_getInstruction (resultId i) m' = Some p
  /\ (forall (r : Id) (q : pointer),
        r <> resultId i ->
        Module_getInstruction r m = Some q ->
        Module_getInstruction r m' = Some q).
Proof.
  intros Hp. unfold Module_mapInstruction, Module_getInstruction,
    Instruction_getResultId.
  rewrite Hp. simpl.
  set (index := if decide (N.of_nat (length (idToInstruction m)) <= resultId i)
                then resize (N.to_nat (wrap32 (resultId i + 16))) null
                       (idToInstruction m)
                else idToInstruction m).
  destruct (decide (N.to_nat (resultId i) < length index)%nat) as [Hlt|];
    [|discriminate].
  intros [= <-]. simpl.
  assert (length (idToInstruction m) <= length index)%nat as Hlen.
  { subst index. destruct (decide _) as [Hge|]; [|lia].
    rewrite length_resize in *. lia. }
  assert (forall k x, idToInstruction m !! k = Some x -> index !! k = Some x)
    as Hkeep.
  { intros k x Hk. subst index. destruct (decide _) as [Hge|]; [|exact Hk].
    pose proof (lookup_lt_Some _ _ _ Hk).
    rewrite length_resize in *. rewrite lookup_resize by lia. exact Hk. }
  repeat split.
  - rewrite length_insert. exact Hlen.
  - apply list_lookup_insert_eq, Hlt.
  - intros r q Hr Hq. rewrite list_lookup_insert_ne by lia.
    apply Hkeep, Hq.
Qed.

(** [mapInstruction] is defined for every id below 2^32 - 16: the sum
    [resultId + 16] then fits an [unsigned int]. *)
Lemma Module_mapInstruction_is_Some (h : gmap addr Instruction) (p : pointer)
    (i : Instruction) (m : Module) :
  deref h p = Some i ->
  resultId i + 16 < 2 ^ 32 ->
  is_Some (Module_mapInstruction h p m).
Proof.
  intros Hp Hr. unfold Module_mapInstruction, Instruction_getResultId.
  rewrite Hp. simpl.
  rewrite decide_True; [eauto|].
  destruct (decide _) as [Hge|Hlt]; [|lia].
  rewrite length_resize, wrap32_small by exact Hr. lia.
Qed.

(** The growth policy: an id beyond the index grows it to [resultId + 16]
    slots; an id within the index leaves its size alone. *)
Lemma Module_mapInstruction_size (h : gmap addr Instruction) (p : pointer)
    (i : Instruction) (m m' : Module) :
  deref h p = Some i ->
  resultId i + 16 < 2 ^ 32 ->
  Module_mapInstruction h p m = Some m' ->
  N.of_nat (length (idToInstruction m')) =
    if decide (N.of_nat (length (idToInstruction m)) <= resultId i)
    then resultId i + 16
    else N.of_nat (length (idToInstruction m)).
Proof.
  intros Hp Hr. unfold Module_mapInstruction, Instruction_getResultId.
  rewrite Hp. simpl.
  destruct (decide (N.of_nat (length (idToInstruction m)) <= resultId i));
    destruct (decide _); intros [= <-]; simpl; rewrite length_insert;
    [|reflexivity].
  rewrite length_resize, wrap32_small by exact Hr. lia.
Qed.

Lemma mapInstructions_defined (h : gmap addr Instruction) (v : list pointer)
    (insts : list Instruction) (m : Module) :
  Forall2 (fun p i => deref h p = Some i) v insts ->
  StronglySorted N.lt (resultId <$> insts) ->
  Forall (fun i => resultId i + 16 < 2 ^ 32) insts ->
  exists m' : Module,
    mapInstructions h v m = Some m'
    /\ functions m' = functions m
    /\ (forall (k : nat) (p : pointer) (i : Instruction),
          v !! k = Some p -> insts !! k = Some i ->
          Module_getInstruction (resultId i) m' = Some p)
    /\ (forall (r : Id) (q : pointer),
          r ∉ resultId <$> insts ->
          Module_getInstruction r m = Some q ->
          Module_getInstruction r m' = Some q).
Proof.
  intros Hv. revert m.
  induction Hv as [|p i v insts Hp Hv IH]; intros m Hsorted Hbound.
  - exists m. repeat split; try done.
  - rewrite fmap_cons in Hsorted.
    apply StronglySorted_inv in Hsorted as [Hsorted Hall].
    apply Forall_cons in Hbound as [Hi Hbound].
    destruct (Module_mapInstruction_is_Some h p i m Hp Hi) as [m1 Hm1].
    destruct (Module_mapInstruction_defined h p i m m1 Hp Hm1)
      as (Hf1 & _ & Hsame & Hother).
    destruct (IH m1 Hsorted Hbound) as (m' & Hm' & Hf' & Hnew & Hold).
    assert (resultId i ∉ resultId <$> insts) as Hfresh.
    { intros Hin. rewrite Forall_forall in Hall.
      specialize (Hall _ Hin). lia. }
    exists m'. simpl. rewrite Hm1. simpl. repeat split.
    + exact Hm'.
    + congruence.
    + intros [|k] q j Hq Hj; simpl in *.
      * injection Hq as <-. injection Hj as <-. apply Hold; assumption.
      * eapply Hnew; eassumption.
    + intros r q Hr Hq. apply not_elem_of_cons in Hr as [Hr1 Hr2].
      apply Hold; [exact Hr2|]. apply Hother; assumption.
Qed.

(** At the 16 largest ids the sum [resultId + 16] wraps around: the index is
    resized to fewer than 16 slots and the store of the pointer is out of
    range. *)
Lemma Module_mapInstruction_wraps (h : gmap addr Instruction) (p : pointer)
    (i : Instruction) (m : Module) :
  deref h p = Some i ->
  2 ^ 32 <= resultId i + 16 -> resultId i < 2 ^ 32 ->
  N.of_nat (length (idToInstruction m)) <= resultId i ->
  Module_mapInstruction h p m = None.
Proof.
  intros Hp Hhi Hlo Hsize. unfold Module_mapInstruction, Instruction_getResultId.
  rewrite Hp. simpl.
  destruct (decide (N.of_nat (length (idToInstruction m)) <= resultId i));
    [|contradiction].
  rewrite decide_False; [reflexivity|].
  rewrite length_resize. unfold wrap32.
  assert (resultId i + 16 = (resultId i + 16 - 2 ^ 32) + 1 * 2 ^ 32) as E by lia.
  rewrite E, N.Div0.mod_add, N.mod_small by lia. lia.
Qed.

Lemma mapInstructions_app (h : gmap addr Instruction) (v w : list pointer)
    (m : Module) :
  mapInstructions h (v ++ w) m =
    (m' ← mapInstructions h v m; mapInstructions h w m').
Proof.
  revert m. induction v as [|p v IH]; intros m; simpl; [reflexivity|].
  destruct (Module_mapInstruction h p m) as [m1|]; simpl; [apply IH|reflexivity].
Qed.

Lemma mapInstructions_size (h : gmap addr Instruction) (v : list pointer)
    (insts : list Instruction) (m m' : Module) :
  Forall2 (fun p i => deref h p = Some i) v insts ->
  Forall (fun i => resultId i + 16 < 2 ^ 32) insts ->
  mapInstructions h v m = Some m' ->
  N.of_nat (length (idToInstruction m')) =
    index_size (N.of_nat (length (idToInstruction m))) (resultId <$> insts).
Proof.
  intros Hv. revert m.
  induction Hv as [|p i v insts Hp Hv IH]; intros m Hbound Hm'; simpl in *.
  - injection Hm' as <-. reflexivity.
  - apply Forall_cons in Hbound as [Hi Hbound].
    destruct (Module_mapInstruction h p m) as [m1|] eqn:Hm1; [|discriminate].
    simpl in Hm'. rewrite (IH m1 Hbound Hm').
    rewrite (Module_mapInstruction_size h p i m m1 Hp Hi Hm1). reflexivity.
Qed.

(** C6, as stated, fails.  The ids 3, 20 and 4294967285 are increasing and
    not contiguous, yet registering the three instructions with
    [mapInstruction], in this order, does not end in a module in which
    [getInstruction] returns each of them: for the last id the sum
    [resultId + 16] wraps around to 5, and the store into the index is out of
    range. *)
Lemma mapInstruction_getInstruction_id_limit :
  ~ (exists m' : Module,
       mapInstructions limit_instructions
         [ptr 1%positive; ptr 2%positive; ptr 3%positive] (mkModule [] [])
         = Some m'
       /\ Module_getInstruction 3 m' = Some (ptr 1%positive)
       /\ Module_getInstruction 20 m' = Some (ptr 2%positive)
       /\ Module_getInstruction limit_id m' = Some (ptr 3%positive)).
Proof.
  intros (m' & Hrun & _).
  change [ptr 1%positive; ptr 2%positive; ptr 3%positive]
    with ([ptr 1%positive; ptr 2%positive] ++ [ptr 3%positive]) in Hrun.
  rewrite mapInstructions_app in Hrun.
  destruct (mapInstructions limit_instructions [ptr 1%positive; ptr 2%positive]
              (mkModule [] [])) as [m2|] eqn:Hm2; [|discriminate].
  assert (N.of_nat (length (idToInstruction m2)) = 36) as Hsize.
  { rewrite (mapInstructions_size limit_instructions
               [ptr 1%positive; ptr 2%positive]
               [Instruction_ctor 3 NoType OpLabel;
                Instruction_ctor 20 NoType OpLabel] (mkModule [] []) m2);
      [reflexivity|repeat constructor|repeat constructor; simpl; lia|exact Hm2]. }
  cbn [mbind option_bind mapInstructions] in Hrun.
  rewrite (Module_mapInstruction_wraps limit_instructions (ptr 3%positive)
             (Instruction_ctor limit_id NoType OpLabel) m2) in Hrun;
    [discriminate|reflexivity| | |];
    cbn [resultId Instruction_ctor]; unfold limit_id; lia.
Qed.

(** C6, amended.  When instructions with increasing (not necessarily
    contiguous) ids, all below 2^32 - 16, are registered with [mapInstruction]
    one after the other, [getInstruction] with any of these ids returns the
    instruction registered for it, and every id that was mapped before is
    still mapped to the same instruction: growing the index loses nothing.
    The index grows only when an id is not below its size, and then to that
    id plus 16 slots. *)
Theorem mapInstruction_getInstruction (h : gmap addr Instruction)
    (v : list pointer) (insts : list Instruction) (m : Module) :
  Forall2 (fun p i => deref h p = Some i) v insts ->
  StronglySorted N.lt (resultId <$> insts) ->
  Forall (fun i => resultId i + 16 < 2 ^ 32) insts ->
  exists m' : Module,
    mapInstructions h v m = Some m'
    /\ (forall (k : nat) (p : pointer) (i : Instruction),
          v !! k = Some p -> insts !! k = Some i ->
          Module_getInstruction (resultId i) m' = Some p)
    /\ (forall (r : Id) (q : pointer),
          r ∉ resultId <$> insts ->
          Module_getInstruction r m = Some q ->
          Module_getInstruction r m' = Some q)
    /\ N.of_nat (length (idToInstruction m')) =
         index_size (N.of_nat (length (idToInstruction m))) (resultId <$> insts).
Proof.
  intros Hv Hsorted Hbound.
  destruct (mapInstructions_defined h v insts m Hv Hsorted Hbound)
    as (m' & Hm' & _ & Hnew & Hold).
  exists m'. split; [exact Hm'|]. split; [exact Hnew|]. split; [exact Hold|].
  exact (mapInstructions_size h v insts m m' Hv Hbound Hm').
Qed.

(** * Block::addInstruction *)

Lemma call_Module_mapInstruction_run (s : State) (this : addr) (p : pointer)
    (m m' : Module) :
  moduleObjects s !! this = Some m ->
  Module_mapInstruction (instructionObjects s) p m = Some m' ->
  call_Module_mapInstruction this p s =
    Some (tt, set_moduleObjects <[this := m']> s).
Proof.
  intros Hm Hm'.
  unfold call_Module_mapInstruction. run_M.
  rewrite Hm. simpl. rewrite Hm'. reflexivity.
Qed.

(** The store [Block::addInstruction] leaves, by the result id of the
    instruction. *)
Lemma Block_addInstruction_cases (s : State) (this a : addr) (b : Block)
    (i : Instruction) :
  blockObjects s !! this = Some b ->
  instructionObjects s !! a = Some i ->
  let b' := set_instructions (instructions b ++ [ptr a]) b in
  (resultId i = 0 ->
   Block_addInstruction this (ptr a) s =
     Some (tt, set_blockObjects <[this := b']> s))
  /\ (resultId i <> 0 ->
      forall (f : Function) (m : Module),
        functionObjects s !! Block_parent b = Some f ->
        moduleObjects s !! Function_parent f = Some m ->
        resultId i + 16 < 2 ^ 32 ->
        exists m' : Module,
          Block_addInstruction this (ptr a) s =
            Some (tt, set_moduleObjects <[Function_parent f := m']>
                        (set_blockObjects <[this := b']> s))
          /\ Module_mapInstruction (instructionObjects s) (ptr a) m = Some m'
          /\ Module_getInstruction (resultId i) m' = Some (ptr a)).
Proof.
  intros Hb Hi b'. split.
  - intros Hz.
    unfold Block_addInstruction, Instruction_getResultId, push_back. run_M.
    rewrite Hb. simpl. rewrite Hi. simpl.
    rewrite decide_True by exact Hz. reflexivity.
  - intros Hnz f m Hf Hm Hbound.
    destruct (Module_mapInstruction_is_Some (instructionObjects s) (ptr a) i m
                Hi Hbound) as [m' Hm'].
    destruct (Module_mapInstruction_defined (instructionObjects s) (ptr a) i m m'
                Hi Hm') as (_ & _ & Hget & _).
    exists m'. split; [|split; assumption].
    rewrite <- (call_Module_mapInstruction_run
                  (set_blockObjects <[this := b']> s) (Function_parent f)
                  (ptr a) m m' Hm Hm').
    unfold Block_addInstruction, Instruction_getResultId, push_back. run_M.
    rewrite Hb. simpl. rewrite Hi. simpl.
    rewrite decide_False by exact Hnz. simpl. rewrite Hf. reflexivity.
Qed.

Lemma Block_addInstruction_wraps (s : State) (this a : addr) (b : Block)
    (i : Instruction) (f : Function) (m : Module) :
  blockObjects s !! this = Some b ->
  instructionObjects s !! a = Some i ->
  functionObjects s !! Block_parent b = Some f ->
  moduleObjects s !! Function_parent f = Some m ->
  2 ^ 32 <= resultId i + 16 -> resultId i < 2 ^ 32 ->
  N.of_nat (length (idToInstruction m)) <= resultId i ->
  Block_addInstruction this (ptr a) s = None.
Proof.
  intros Hb Hi Hf Hm Hhi Hlo Hsize.
  unfold Block_addInstruction, Instruction_getResultId, push_back,
    call_Module_mapInstruction.
  run_M. rewrite Hb. simpl. rewrite Hi. simpl.
  rewrite decide_False by lia. simpl. rewrite Hf. simpl. rewrite Hm. simpl.
  rewrite (Module_mapInstruction_wraps (instructionObjects s) (ptr a) i m Hi
             Hhi Hlo Hsize).
  reflexivity.
Qed.

(** C9, as stated, fails.  The load with the id 4294967285, which is not 0,
    is added to the example block, yet right after the call [getInstruction]
    with that id does not return it: the call has no result, because the
    registration stores out of the range of the index. *)
Lemma Block_addInstruction_id_limit :
  ~ (exists (s' : State) (m' : Module),
       Block_addInstruction example_block (ptr example_limit_addr)
         example_limit_state = Some (tt, s')
       /\ moduleObjects s' !! example_module = Some m'
       /\ Module_getInstruction limit_id m' = Some (ptr example_limit_addr)).
Proof.
  intros (s' & m' & Hrun & _).
  destruct (moduleObjects example_limit_state !! example_module) as [m|] eqn:Hm;
    [|vm_compute in Hm; discriminate].
  rewrite (Block_addInstruction_wraps example_limit_state example_block
             example_limit_addr
             (mkBlock [ptr 5%positive] [] [] [ptr 6%positive] example_function
                false)
             (Instruction_ctor limit_id 3 OpLoad)
             (mkFunction example_module 2%positive
                [ptr 3%positive; ptr 4%positive] [ptr example_block]) m)
    in Hrun;
    [discriminate|vm_compute; reflexivity|vm_compute; reflexivity
    |vm_compute; reflexivity|exact Hm|unfold limit_id; simpl; lia
    |unfold limit_id; simpl; lia|].
  vm_compute in Hm. injection Hm as <-. unfold limit_id. simpl. lia.
Qed.

(** C9, amended.  [Block::addInstruction] appends the instruction to the
    sequence of the block and changes no other member of the block, no other
    block, no instruction and no function; when the instruction has no
    result id the modules are unchanged too, and when it has one, below
    2^32 - 16, the id is registered in the index of the owning module at
    once, so that [getInstruction] with that id, right after the call,
    returns the instruction added. *)
Theorem Block_addInstruction_spec (s : State) (this a : addr) (b : Block)
    (i : Instruction) :
  blockObjects s !! this = Some b ->
  instructionObjects s !! a = Some i ->
  (resultId i = 0 ->
   exists s' : State,
     Block_addInstruction this (ptr a) s = Some (tt, s')
     /\ block_updated s s' this b (instructions b ++ [ptr a])
     /\ moduleObjects s' = moduleObjects s)
  /\ (resultId i <> 0 ->
      forall (f : Function) (m : Module),
        functionObjects s !! Block_parent b = Some f ->
        moduleObjects s !! Function_parent f = Some m ->
        resultId i + 16 < 2 ^ 32 ->
        exists (s' : State) (m' : Module),
          Block_addInstruction this (ptr a) s = Some (tt, s')
          /\ block_updated s s' this b (instructions b ++ [ptr a])
          /\ moduleObjects s' = <[Function_parent f := m']> (moduleObjects s)
          /\ Module_mapInstruction (instructionObjects s) (ptr a) m = Some m'
          /\ Module_getInstruction (resultId i) m' = Some (ptr a)).
Proof.
  intros Hb Hi.
  destruct (Block_addInstruction_cases s this a b i Hb Hi) as [Hzero Hreg].
  split.
  - intros Hz. eexists. split; [exact (Hzero Hz)|].
    split; [|reflexivity].
    split; [reflexivity|]. split; [reflexivity|].
    eexists. split; [reflexivity|apply set_instructions_with].
  - intros Hnz f m Hf Hm Hbound.
    destruct (Hreg Hnz f m Hf Hm Hbound) as (m' & Hrun & Hm' & Hget).
    eexists _, m'. split; [exact Hrun|].
    split; [|split; [reflexivity|split; assumption]].
    split; [reflexivity|]. split; [reflexivity|].
    eexists. split; [reflexivity|apply set_instructions_with].
Qed.

(** * Block::Block *)

(** The constructor allocates the block and its label, and touches neither
    the functions nor the modules. *)
Lemma new_Block_run (s : State) (id : Id) (parent : addr) :
  new_Block id parent s =
    Some (fresh (dom (blockObjects s)),
          mkState
            (<[fresh (dom (instructionObjects s)) :=
                 Instruction_ctor id NoType OpLabel]> (instructionObjects s))
            (<[fresh (dom (blockObjects s)) :=
                 mkBlock [ptr (fresh (dom (instructionObjects s)))] [] [] []
                   parent false]> (blockObjects s))
            (functionObjects s) (moduleObjects s)).
Proof.
  unfold new_Block. run_M. rewrite lookup_insert_eq. simpl.
  rewrite insert_insert_eq. reflexivity.
Qed.

Lemma new_Block_leaves_index (s s' : State) (id : Id) (parent this : addr) :
  new_Block id parent s = Some (this, s') ->
  moduleObjects s' = moduleObjects s.
Proof. rewrite new_Block_run. intros [= _ <-]. reflexivity. Qed.

(** C4, as stated, fails.  In the example module, the label of the block
    made by [new Block(9, f)] is not what [getInstruction(9)] returns right
    after the construction: the index still holds the null pointer there. *)
Lemma new_Block_label_not_registered :
  ~ (exists (this label : addr) (s' : State) (b : Block) (m' : Module),
       new_Block 9 example_function example_state = Some (this, s')
       /\ blockObjects s' !! this = Some b
       /\ instructions b !! 0%nat = Some (ptr label)
       /\ moduleObjects s' !! example_module = Some m'
       /\ Module_getInstruction 9 m' = Some (ptr label)).
Proof.
  intros (this & label & s' & b & m' & Hrun & _ & _ & Hm' & Hget).
  rewrite new_Block_run in Hrun. injection Hrun as _ <-.
  simpl in Hm'. vm_compute in Hm'. injection Hm' as <-.
  vm_compute in Hget. discriminate Hget.
Qed.

(** C4, amended.  Constructing a Block with a given id creates a new block
    whose only instruction is a new label instruction with that id and no
    type; the label is not registered: the modules, and so their id indexes,
    and the functions are left as they were. *)
Theorem new_Block_spec (s : State) (id : Id) (parent : addr) :
  exists (this label : addr) (s' : State),
    new_Block id parent s = Some (this, s')
    /\ blockObjects s !! this = None
    /\ instructionObjects s !! label = None
    /\ blockObjects s' !! this = Some (mkBlock [ptr label] [] [] [] parent false)
    /\ instructionObjects s' !! label = Some (Instruction_ctor id NoType OpLabel)
    /\ moduleObjects s' = moduleObjects s
    /\ functionObjects s' = functionObjects s
    /\ (forall (m : addr) (r : Id),
          (moduleObjects s' !! m ≫= Module_getInstruction r) =
          (moduleObjects s !! m ≫= Module_getInstruction r)).
Proof.
  eexists _, _, _. rewrite new_Block_run. split; [reflexivity|]. simpl.
  split; [apply not_elem_of_dom, is_fresh|].
  split; [apply not_elem_of_dom, is_fresh|].
  split; [apply lookup_insert_eq|].
  split; [apply lookup_insert_eq|]. auto.
Qed.

(** * Function::Function *)

Section FunctionConstructor.

Variables (this parent t : addr) (ti : Instruction) (firstParamId : Id).

(** One turn of the loop of the constructor. *)
Lemma Function_ctor_param_run (s : State) (p : nat) (ty : Id) (F : Function)
    (m : Module) :
  instructionObjects s !! t = Some ti ->
  operands ti !! (p + 1)%nat = Some ty ->
  functionObjects s !! this = Some F ->
  moduleObjects s !! parent = Some m ->
  firstParamId + N.of_nat p + 16 < 2 ^ 32 ->
  let a := fresh (dom (instructionObjects s)) in
  let param := Instruction_ctor (firstParamId + N.of_nat p) ty OpFunctionParameter in
  exists m' : Module,
    Module_mapInstruction (<[a := param]> (instructionObjects s)) (ptr a) m = Some m'
    /\ Function_ctor_param this parent (ptr t) firstParamId p s =
         Some (tt, mkState (<[a := param]> (instructionObjects s))
                     (blockObjects s)
                     (<[this := set_parameterInstructions
                                  (parameterInstructions F ++ [ptr a]) F]>
                        (functionObjects s))
                     (<[parent := m']> (moduleObjects s))).
Proof.
  intros Ht Hty HF Hm Hbound a param.
  assert (deref (<[a := param]> (instructionObjects s)) (ptr a) = Some param)
    as Ha by apply lookup_insert_eq.
  destruct (Module_mapInstruction_is_Some _ (ptr a) param m Ha) as [m' Hm'].
  { exact Hbound. }
  exists m'. split; [exact Hm'|].
  unfold Function_ctor_param, call_Module_mapInstruction,
    Instruction_getIdOperand, push_back. run_M.
  rewrite Ht. simpl. rewrite Hty. simpl. rewrite Hm. simpl.
  rewrite wrap32_small by lia. fold a. fold param.
  rewrite Hm'. simpl. rewrite HF. reflexivity.
Qed.

Variables (returnType : Id) (ptys : list Id).
Hypothesis Hoperands : operands ti = returnType :: ptys.

(** The loop of the constructor, from parameter [k] on, for [n] parameters. *)
Lemma Function_ctor_loop (n : nat) :
  forall (k : nat) (s : State) (F : Function) (m : Module),
    instructionObjects s !! t = Some ti ->
    (k + n <= length ptys)%nat ->
    functionObjects s !! this = Some F ->
    moduleObjects s !! parent = Some m ->
    (forall j : nat, (j < n)%nat ->
       firstParamId + N.of_nat (k + j) + 16 < 2 ^ 32) ->
    exists (s' : State) (params : list addr) (m' : Module),
      for_each (Function_ctor_param this parent (ptr t) firstParamId) (seq k n) s
        = Some (tt, s')
      /\ length params = n
      /\ functionObjects s' !! this =
           Some (set_parameterInstructions
                   (parameterInstructions F ++ (ptr <$> params)) F)
      /\ moduleObjects s' !! parent = Some m'
      /\ functions m' = functions m
      /\ instructionObjects s ⊆ instructionObjects s'
      /\ Forall (fun a => instructionObjects s !! a = None) params
      /\ NoDup params
      /\ (forall (j : nat) (a : addr) (ty : Id),
            params !! j = Some a -> ptys !! (k + j)%nat = Some ty ->
            instructionObjects s' !! a =
              Some (Instruction_ctor (firstParamId + N.of_nat (k + j)) ty
                      OpFunctionParameter)
            /\ Module_getInstruction (firstParamId + N.of_nat (k + j)) m'
                 = Some (ptr a))
      /\ (forall (r : Id) (q : pointer),
            r < firstParamId + N.of_nat k ->
            Module_getInstruction r m = Some q ->
            Module_getInstruction r m' = Some q).
Proof.
  induction n as [|n IH]; intros k s F m Ht Hlen HF Hm Hbound.
  - exists s, [], m. simpl. rewrite app_nil_r.
    split_and!; try done.
    + destruct F; exact HF.
    + apply NoDup_nil_2.
  - destruct (lookup_lt_is_Some_2 ptys k) as [ty Hty]; [lia|].
    set (a := fresh (dom (instructionObjects s))).
    assert (instructionObjects s !! a = None) as Hfresh.
    { apply not_elem_of_dom, is_fresh. }
    set (param := Instruction_ctor (firstParamId + N.of_nat k) ty
                    OpFunctionParameter).
    destruct (Function_ctor_param_run s k ty F m Ht) as (m1 & Hm1 & Hrun);
      [rewrite Hoperands, Nat.add_1_r; exact Hty|exact HF|exact Hm| |].
    { specialize (Hbound 0%nat). rewrite Nat.add_0_r in Hbound.
      apply Hbound. lia. }
    fold a in Hm1, Hrun. fold param in Hm1, Hrun.
    set (s1 := mkState (<[a := param]> (instructionObjects s)) (blockObjects s)
                 (<[this := set_parameterInstructions
                              (parameterInstructions F ++ [ptr a]) F]>
                    (functionObjects s))
                 (<[parent := m1]> (moduleObjects s))) in Hrun.
    assert (deref (<[a := param]> (instructionObjects s)) (ptr a) = Some param)
      as Ha by apply lookup_insert_eq.
    destruct (Module_mapInstruction_defined _ _ _ _ _ Ha Hm1)
      as (Hf1 & _ & Hget1 & Hother1).
    destruct (IH (S k) s1
                (set_parameterInstructions (parameterInstructions F ++ [ptr a]) F)
                m1)
      as (s' & params & m' & Hloop & Hn & HF' & Hm' & Hf' & Hsub & Hnew & Hnd
          & Hparams & Hold).
    { simpl. rewrite lookup_insert_ne; [exact Ht|]. congruence. }
    { lia. }
    { simpl. apply lookup_insert_eq. }
    { simpl. apply lookup_insert_eq. }
    { intros j Hj. specialize (Hbound (S j)).
      replace (S k + j)%nat with (k + S j)%nat by lia. apply Hbound. lia. }
    exists s', (a :: params), m'. split_and!.
    + simpl. unfold bind at 1. rewrite Hrun. exact Hloop.
    + simpl. lia.
    + rewrite HF'. simpl. rewrite <- app_assoc. reflexivity.
    + exact Hm'.
    + congruence.
    + etrans; [|exact Hsub]. simpl. apply insert_subseteq, Hfresh.
    + apply Forall_cons. split; [exact Hfresh|].
      eapply Forall_impl; [exact Hnew|]. simpl. intros b Hb.
      destruct (decide (a = b)) as [->|Hne].
      * rewrite lookup_insert_eq in Hb. discriminate.
      * rewrite lookup_insert_ne in Hb by exact Hne. exact Hb.
    + apply NoDup_cons. split; [|exact Hnd].
      intros Hin. rewrite Forall_forall in Hnew. specialize (Hnew a Hin).
      simpl in Hnew. rewrite lookup_insert_eq in Hnew. discriminate.
    + intros [|j] b ty' Hb Hty'; simpl in Hb.
      * injection Hb as <-. rewrite Nat.add_0_r in *.
        assert (ty' = ty) as -> by congruence. split.
        -- eapply lookup_weaken; [|exact Hsub]. simpl. apply lookup_insert_eq.
        -- apply Hold; [lia|exact Hget1].
      * replace (k + S j)%nat with (S k + j)%nat in * by lia.
        apply (Hparams j b ty' Hb Hty').
    + intros r q Hr Hq. apply Hold; [lia|].
      apply Hother1; [|exact Hq]. simpl. lia.
Qed.

End FunctionConstructor.

Lemma new_Function_run (FunctionControlMaskNone : word) (s : State)
    (id resultType functionType firstParamId : Id) (parent t : addr)
    (m : Module) (ti : Instruction) (returnType : Id) (ptys : list Id) :
  moduleObjects s !! parent = Some m ->
  Module_getInstruction functionType m = Some (ptr t) ->
  instructionObjects s !! t = Some ti ->
  operands ti = returnType :: ptys ->
  id <> functionType ->
  id + 16 < 2 ^ 32 ->
  (forall k : nat, (k < length ptys)%nat ->
     firstParamId + N.of_nat k + 16 < 2 ^ 32) ->
  exists (this : addr) (s' : State) (F : Function) (m' : Module)
         (params : list addr),
    new_Function FunctionControlMaskNone id resultType functionType
      firstParamId parent s = Some (this, s')
    /\ functionObjects s !! this = None
    /\ functionObjects s' !! this = Some F
    /\ Function_parent F = parent
    /\ instructionObjects s' !! functionInstruction F =
         Some (mkInstruction id resultType OpFunction
                 [FunctionControlMaskNone; functionType] None EmptyString)
    /\ blocks F = []
    /\ parameterInstructions F = ptr <$> params
    /\ length params = length ptys
    /\ NoDup params
    /\ Forall (fun a => instructionObjects s !! a = None) params
    /\ moduleObjects s' !! parent = Some m'
    /\ functions m' = functions m ++ [ptr this]
    /\ (forall (k : nat) (a : addr) (ty : Id),
          params !! k = Some a -> ptys !! k = Some ty ->
          instructionObjects s' !! a =
            Some (Instruction_ctor (firstParamId + N.of_nat k) ty
                    OpFunctionParameter)
          /\ Module_getInstruction (firstParamId + N.of_nat k) m' = Some (ptr a)).
Proof.
  intros Hm Htype Ht Hops Hne Hid Hbound.
  set (this := fresh (dom (functionObjects s))).
  set (fi := fresh (dom (instructionObjects s))).
  assert (functionObjects s !! this = None) as Hthis.
  { apply not_elem_of_dom, is_fresh. }
  assert (instructionObjects s !! fi = None) as Hfi.
  { apply not_elem_of_dom, is_fresh. }
  set (i := mkInstruction id resultType OpFunction
              [FunctionControlMaskNone; functionType] None EmptyString).
  set (h1 := <[fi := i]> (instructionObjects s)).
  assert (deref h1 (ptr fi) = Some i) as Hi by apply lookup_insert_eq.
  destruct (Module_mapInstruction_is_Some h1 (ptr fi) i m Hi Hid) as [m1 Hm1].
  destruct (Module_mapInstruction_defined h1 (ptr fi) i m m1 Hi Hm1)
    as (Hf1 & _ & _ & Hother1).
  set (m2 := Module_addFunction (ptr this) m1).
  set (F0 := mkFunction parent fi [] []).
  set (s2 := mkState h1 (blockObjects s) (<[this := F0]> (functionObjects s))
               (<[parent := m2]> (moduleObjects s))).
  assert (t <> fi) as Htfi by congruence.
  destruct (Function_ctor_loop this parent t ti firstParamId returnType ptys Hops
              (length ptys) 0%nat s2 F0 m2)
    as (s' & params & m' & Hloop & Hn & HF' & Hm' & Hf' & Hsub & Hnew & Hnd
        & Hparams & _).
  { simpl. unfold h1. rewrite lookup_insert_ne by congruence. exact Ht. }
  { simpl. lia. }
  { simpl. apply lookup_insert_eq. }
  { simpl. apply lookup_insert_eq. }
  { intros j Hj. simpl. apply Hbound, Hj. }
  exists this, s', (set_parameterInstructions (ptr <$> params) F0), m', params.
  split_and!; try done.
  - unfold new_Function, call_Module_mapInstruction, call_Module_addFunction,
      Instruction_getNumOperands. run_M.
    rewrite lookup_insert_eq. simpl. rewrite Hm. simpl.
    rewrite insert_insert_eq.
    change (Instruction_addIdOperand functionType
              (Instruction_addImmediateOperand FunctionControlMaskNone
                 (Instruction_ctor id resultType OpFunction))) with i.
    fold fi. fold h1. rewrite Hm1. simpl.
    rewrite lookup_insert_eq. simpl. rewrite lookup_insert_eq. simpl.
    rewrite insert_insert_eq. fold this.
    assert (Module_getInstruction functionType (Module_addFunction (ptr this) m1)
            = Some (ptr t)) as ->.
    { apply (Hother1 functionType (ptr t)); [simpl; congruence|exact Htype]. }
    simpl. unfold h1 at 1. rewrite lookup_insert_ne by congruence.
    rewrite Ht. simpl. rewrite Hops.
    replace (Z.to_nat (Z.of_nat (length (returnType :: ptys)) - 1))
      with (length ptys) by (simpl; lia).
    fold this. fold F0. fold m2. fold s2. rewrite Hloop. reflexivity.
  - eapply lookup_weaken; [|exact Hsub]. simpl. apply lookup_insert_eq.
  - eapply Forall_impl; [exact Hnew|]. simpl. intros a Ha.
    unfold h1 in Ha. apply lookup_insert_None in Ha. tauto.
  - rewrite Hf'. simpl. rewrite Hf1. reflexivity.
Qed.

(** The constructor registers the function first: a function id among the
    16 largest, and not below the size of the index, leaves it without a
    result. *)
Lemma new_Function_wraps (FunctionControlMaskNone : word) (s : State)
    (id resultType functionType firstParamId : Id) (parent : addr)
    (m : Module) :
  moduleObjects s !! parent = Some m ->
  2 ^ 32 <= id + 16 -> id < 2 ^ 32 ->
  N.of_nat (length (idToInstruction m)) <= id ->
  new_Function FunctionControlMaskNone id resultType functionType firstParamId
    parent s = None.
Proof.
  intros Hm Hhi Hlo Hsize.
  unfold new_Function, call_Module_mapInstruction, call_Module_addFunction.
  run_M. rewrite lookup_insert_eq. simpl. rewrite Hm. simpl.
  set (fi := fresh (dom (instructionObjects s))).
  set (i := Instruction_addIdOperand functionType
              (Instruction_addImmediateOperand FunctionControlMaskNone
                 (Instruction_ctor id resultType OpFunction))).
  set (h := <[fi := i]> (<[fi := _]> (instructionObjects s))).
  rewrite (Module_mapInstruction_wraps h (ptr fi) i m);
    [reflexivity|apply lookup_insert_eq|exact Hhi|exact Hlo|exact Hsize].
Qed.

(** C7, as stated, fails.  In the example module the function type with id 2
    is registered and has two parameter types, yet constructing a Function
    with the id 4294967285 against it creates no parameter instruction: the
    constructor has no result, because registering the function itself
    stores out of the range of the index. *)
Lemma new_Function_id_limit :
  ~ (exists (this : addr) (s' : State) (F : Function),
       new_Function 0 limit_id 1 2 6 example_module example_type_state
         = Some (this, s')
       /\ functionObjects s' !! this = Some F
       /\ length (parameterInstructions F) = 2%nat).
Proof.
  intros (this & s' & F & Hrun & _).
  rewrite (new_Function_wraps 0 example_type_state limit_id 1 2 6 example_module
             example_type_module) in Hrun;
    [discriminate|vm_compute; reflexivity|unfold limit_id; lia
    |unfold limit_id; lia|].
  replace (length (idToInstruction example_type_module)) with 18%nat
    by (vm_compute; reflexivity).
  unfold limit_id. lia.
Qed.

(** C7, amended.  Constructing a Function against a registered function type
    whose operands are the return type followed by N parameter types creates
    exactly N parameter instructions, distinct objects with the ids
    [firstParamId], [firstParamId + 1], ... in order, each of the type at the
    same position in the operands of the function type, and registers each
    in the index of the module, provided that the id of the function is not
    the id of its type and that the id of the function and the ids of the
    parameters are below 2^32 - 16. *)
Theorem new_Function_parameters (FunctionControlMaskNone : word) (s : State)
    (id resultType functionType firstParamId : Id) (parent t : addr)
    (m : Module) (ti : Instruction) (returnType : Id) (ptys : list Id) :
  moduleObjects s !! parent = Some m ->
  Module_getInstruction functionType m = Some (ptr t) ->
  instructionObjects s !! t = Some ti ->
  operands ti = returnType :: ptys ->
  id <> functionType ->
  id + 16 < 2 ^ 32 ->
  (forall k : nat, (k < length ptys)%nat ->
     firstParamId + N.of_nat k + 16 < 2 ^ 32) ->
  exists (this : addr) (s' : State) (F : Function) (m' : Module)
         (params : list addr),
    new_Function FunctionControlMaskNone id resultType functionType
      firstParamId parent s = Some (this, s')
    /\ functionObjects s' !! this = Some F
    /\ moduleObjects s' !! parent = Some m'
    /\ parameterInstructions F = ptr <$> params
    /\ length params = length ptys
    /\ NoDup params
    /\ Forall (fun a => instructionObjects s !! a = None) params
    /\ (forall (k : nat) (a : addr) (ty : Id),
          params !! k = Some a -> ptys !! k = Some ty ->
          instructionObjects s' !! a =
            Some (Instruction_ctor (firstParamId + N.of_nat k) ty
                    OpFunctionParameter)
          /\ Module_getInstruction (firstParamId + N.of_nat k) m' = Some (ptr a)).
Proof.
  intros Hm Htype Ht Hops Hne Hid Hbound.
  destruct (new_Function_run FunctionControlMaskNone s id resultType
              functionType firstParamId parent t m ti returnType ptys
              Hm Htype Ht Hops Hne Hid Hbound)
    as (this & s' & F & m' & params & Hrun & _ & HF & _ & _ & _ & Hps & Hn
        & Hnd & Hnew & Hm' & _ & Hparams).
  exists this, s', F, m', params. split_and!; assumption.
Qed.

(** * The statements above, on the examples *)

Lemma insertInstructionBeforeTerminal_placement_witness :
  (instructions loop_block = [ptr 1%positive; ptr 2%positive] ++ [ptr 3%positive]
   /\ deref loop_instructions (ptr 3%positive) =
        Some (Instruction_addIdOperand 13 (Instruction_ctor_op OpBranch)))
  /\ instructions
       <$> Block_insertInstructionBeforeTerminal loop_instructions
             (ptr 4%positive) loop_block
     = Some [ptr 1%positive; ptr 4%positive; ptr 2%positive; ptr 3%positive].
Proof.
  assert (instructions loop_block =
            [ptr 1%positive; ptr 2%positive] ++ [ptr 3%positive]) as H1
    by reflexivity.
  assert (deref loop_instructions (ptr 3%positive) =
            Some (Instruction_addIdOperand 13 (Instruction_ctor_op OpBranch)))
    as H2 by reflexivity.
  split; [split; assumption|].
  destruct (proj1 (insertInstructionBeforeTerminal_placement loop_instructions
                     (ptr 4%positive) loop_block _ _ _ H1 H2)
              [ptr 1%positive] (ptr 2%positive)
              (Instruction_addIdOperand 12 (Instruction_ctor_op OpLoopMerge))
              eq_refl eq_refl) as (b' & Hrun & Hinstructions & _).
  rewrite Hrun. simpl. rewrite Hinstructions. reflexivity.
Defined.

Lemma Block_dump_spec_witness :
  (instructions example_Block =
     ptr 5%positive :: [ptr 7%positive; ptr 8%positive]
   /\ deref (instructionObjects example_final_state) (ptr 5%positive) =
        Some (Instruction_ctor 8 NoType OpLabel)
   /\ mapM (deref (instructionObjects example_final_state))
        (localVariables example_Block) =
        Some [Instruction_ctor 9 3 OpVariable]
   /\ mapM (deref (instructionObjects example_final_state))
        [ptr 7%positive; ptr 8%positive] =
        Some [example_load; Instruction_ctor_op OpReturn])
  /\ Block_dump example_opValue example_final_state example_Block [] =
       Some ([0x200f8; 8] ++ [0x3003b; 3; 9] ++ [0x4003d; 3; 10; 9] ++ [0x100fd]).
Proof.
  assert (instructions example_Block =
            ptr 5%positive :: [ptr 7%positive; ptr 8%positive]) as H1
    by (vm_compute; reflexivity).
  assert (deref (instructionObjects example_final_state) (ptr 5%positive) =
            Some (Instruction_ctor 8 NoType OpLabel)) as H2
    by (vm_compute; reflexivity).
  assert (mapM (deref (instructionObjects example_final_state))
            (localVariables example_Block) =
            Some [Instruction_ctor 9 3 OpVariable]) as H3
    by (vm_compute; reflexivity).
  assert (mapM (deref (instructionObjects example_final_state))
            [ptr 7%positive; ptr 8%positive] =
            Some [example_load; Instruction_ctor_op OpReturn]) as H4
    by (vm_compute; reflexivity).
  split; [repeat split; assumption|].
  exact (proj1 (Block_dump_spec example_opValue example_final_state
                  example_Block [] _ _ _ _ _ H1 H2 H3 H4)).
Defined.

Lemma mapInstruction_getInstruction_witness :
  (Forall2 (fun p i => deref sparse_instructions p = Some i)
     [ptr 1%positive; ptr 2%positive; ptr 3%positive]
     [Instruction_ctor 3 NoType OpLabel; Instruction_ctor 20 NoType OpLabel;
      Instruction_ctor 100 NoType OpLabel]
   /\ StronglySorted N.lt [3; 20; 100]
   /\ Forall (fun i => resultId i + 16 < 2 ^ 32)
        [Instruction_ctor 3 NoType OpLabel; Instruction_ctor 20 NoType OpLabel;
         Instruction_ctor 100 NoType OpLabel])
  /\ exists m' : Module,
       mapInstructions sparse_instructions
         [ptr 1%positive; ptr 2%positive; ptr 3%positive] (mkModule [] [])
         = Some m'
       /\ Module_getInstruction 3 m' = Some (ptr 1%positive)
       /\ Module_getInstruction 20 m' = Some (ptr 2%positive)
       /\ Module_getInstruction 100 m' = Some (ptr 3%positive)
       /\ N.of_nat (length (idToInstruction m')) = 116.
Proof.
  assert (Forall2 (fun p i => deref sparse_instructions p = Some i)
            [ptr 1%positive; ptr 2%positive; ptr 3%positive]
            [Instruction_ctor 3 NoType OpLabel; Instruction_ctor 20 NoType OpLabel;
             Instruction_ctor 100 NoType OpLabel]) as H1
    by (repeat constructor).
  assert (StronglySorted N.lt [3; 20; 100]) as H2
    by (repeat constructor; lia).
  assert (Forall (fun i => resultId i + 16 < 2 ^ 32)
            [Instruction_ctor 3 NoType OpLabel; Instruction_ctor 20 NoType OpLabel;
             Instruction_ctor 100 NoType OpLabel]) as H3
    by (repeat constructor; simpl; lia).
  split; [repeat split; assumption|].
  destruct (mapInstruction_getInstruction sparse_instructions _ _
              (mkModule [] []) H1 H2 H3) as (m' & Hm' & Hnew & _ & Hsize).
  exists m'. split; [exact Hm'|]. split; [|split; [|split]].
  - exact (Hnew 0%nat _ _ eq_refl eq_refl).
  - exact (Hnew 1%nat _ _ eq_refl eq_refl).
  - exact (Hnew 2%nat _ _ eq_refl eq_refl).
  - exact Hsize.
Defined.

Lemma new_Function_parameters_witness :
  (moduleObjects example_type_state !! example_module = Some example_type_module
   /\ Module_getInstruction 2 example_type_module = Some (ptr 1%positive)
   /\ instructionObjects example_type_state !! 1%positive = Some example_type
   /\ operands example_type = 1 :: [3; 4]
   /\ 5 <> 2
   /\ 5 + 16 < 2 ^ 32
   /\ (forall k : nat, (k < length [3; 4])%nat ->
         6 + N.of_nat k + 16 < 2 ^ 32))
  /\ exists (this : addr) (s' : State) (F : Function) (m' : Module)
            (params : list addr),
       new_Function 0 5 1 2 6 example_module example_type_state = Some (this, s')
       /\ functionObjects s' !! this = Some F
       /\ moduleObjects s' !! example_module = Some m'
       /\ parameterInstructions F = ptr <$> params
       /\ length params = 2%nat
       /\ NoDup params
       /\ Forall (fun a => instructionObjects example_type_state !! a = None)
            params
       /\ (forall (k : nat) (a : addr) (ty : Id),
             params !! k = Some a -> [3; 4] !! k = Some ty ->
             instructionObjects s' !! a =
               Some (Instruction_ctor (6 + N.of_nat k) ty OpFunctionParameter)
             /\ Module_getInstruction (6 + N.of_nat k) m' = Some (ptr a)).
Proof.
  assert (moduleObjects example_type_state !! example_module =
            Some example_type_module) as H1 by (vm_compute; reflexivity).
  assert (Module_getInstruction 2 example_type_module = Some (ptr 1%positive))
    as H2 by (vm_compute; reflexivity).
  assert (instructionObjects example_type_state !! 1%positive =
            Some example_type) as H3 by (vm_compute; reflexivity).
  assert (operands example_type = 1 :: [3; 4]) as H4 by reflexivity.
  assert (5 <> 2) as H5 by lia.
  assert (5 + 16 < 2 ^ 32) as H6 by lia.
  assert (forall k : nat, (k < length [3; 4])%nat ->
            6 + N.of_nat k + 16 < 2 ^ 32) as H7
    by (intros k Hk; simpl in Hk; lia).
  split; [repeat split; assumption|].
  exact (new_Function_parameters 0 example_type_state 5 1 2 6 example_module
           1%positive example_type_module example_type 1 [3; 4]
           H1 H2 H3 H4 H5 H6 H7).
Defined.

Lemma Function_dump_order_witness :
  (instructionObjects example_final_state !! functionInstruction example_Function
     = Some (mkInstruction 5 1 OpFunction [0; 2] None EmptyString)
   /\ mapM (deref (instructionObjects example_final_state))
        (parameterInstructions example_Function) =
        Some [Instruction_ctor 6 3 OpFunctionParameter;
              Instruction_ctor 7 4 OpFunctionParameter]
   /\ words_of_each (blockObjects example_final_state)
        (Block_dump example_opValue example_final_state)
        (blocks example_Function) =
        Some [[0x200f8; 8; 0x3003b; 3; 9; 0x4003d; 3; 10; 9; 0x100fd]])
  /\ Function_dump example_opValue example_final_state example_Function [] =
       Some ([0x50036; 1; 5; 0; 2] ++ [0x30037; 3; 6; 0x30037; 4; 7]
             ++ [0x200f8; 8; 0x3003b; 3; 9; 0x4003d; 3; 10; 9; 0x100fd]
             ++ [0x10038]).
Proof.
  assert (instructionObjects example_final_state
            !! functionInstruction example_Function
          = Some (mkInstruction 5 1 OpFunction [0; 2] None EmptyString)) as H1
    by (vm_compute; reflexivity).
  assert (mapM (deref (instructionObjects example_final_state))
            (parameterInstructions example_Function) =
            Some [Instruction_ctor 6 3 OpFunctionParameter;
                  Instruction_ctor 7 4 OpFunctionParameter]) as H2
    by (vm_compute; reflexivity).
  assert (words_of_each (blockObjects example_final_state)
            (Block_dump example_opValue example_final_state)
            (blocks example_Function) =
            Some [[0x200f8; 8; 0x3003b; 3; 9; 0x4003d; 3; 10; 9; 0x100fd]])
    as H3 by (vm_compute; reflexivity).
  split; [repeat split; assumption|].
  exact (proj1 (Function_dump_order example_opValue example_final_state
                  example_Function [] _ _ _ H1 H2 H3)).
Defined.

Lemma Block_addInstruction_spec_witness :
  (blockObjects example_block_state !! example_block =
     Some (mkBlock [ptr 5%positive] [] [] [ptr 6%positive] example_function false)
   /\ instructionObjects example_block_state !! example_load_addr =
        Some example_load
   /\ resultId example_load <> 0
   /\ functionObjects example_block_state !! example_function =
        Some (mkFunction example_module 2%positive
                [ptr 3%positive; ptr 4%positive] [ptr example_block])
   /\ is_Some (moduleObjects example_block_state !! example_module)
   /\ resultId example_load + 16 < 2 ^ 32)
  /\ exists s' : State,
       Block_addInstruction example_block (ptr example_load_addr)
         example_block_state = Some (tt, s')
       /\ (blockObjects s' !! example_block ≫= fun b => last (instructions b))
            = Some (ptr example_load_addr)
       /\ (moduleObjects s' !! example_module ≫= Module_getInstruction 10)
            = Some (ptr example_load_addr).
Proof.
  set (b := mkBlock [ptr 5%positive] [] [] [ptr 6%positive] example_function false).
  set (f := mkFunction example_module 2%positive
              [ptr 3%positive; ptr 4%positive] [ptr example_block]).
  assert (blockObjects example_block_state !! example_block = Some b) as H1
    by (vm_compute; reflexivity).
  assert (instructionObjects example_block_state !! example_load_addr =
            Some example_load) as H2 by (vm_compute; reflexivity).
  assert (resultId example_load <> 0) as H3 by (simpl; lia).
  assert (functionObjects example_block_state !! example_function = Some f)
    as H4 by (vm_compute; reflexivity).
  assert (is_Some (moduleObjects example_block_state !! example_module)) as H5
    by (vm_compute; eauto).
  assert (resultId example_load + 16 < 2 ^ 32) as H6 by (simpl; lia).
  split; [repeat split; assumption|].
  destruct H5 as [m H5].
  destruct (proj2 (Block_addInstruction_spec example_block_state example_block
                     example_load_addr b example_load H1 H2)
              H3 f m H4 H5 H6)
    as (s' & m' & Hrun & (_ & _ & b' & Hblocks & Hinstructions & _) & Hmodules
        & _ & Hget).
  exists s'. split; [exact Hrun|].
  rewrite Hblocks, Hmodules, !lookup_insert_eq.
  split; [|exact Hget].
  simpl. rewrite Hinstructions. reflexivity.
Defined.

(** * Further properties of the code *)

(** * Instruction::rewriteOperands *)

Lemma rewriteOperand_each_run (oldOperand newOperand : Id) (post : list Id) :
  forall (pre : list Id) (this : Instruction),
    operands this = pre ++ post ->
    rewriteOperand_each oldOperand newOperand (seq (length pre) (length post)) this
      = Some (set_operands
                (pre ++ (rewritten oldOperand newOperand <$> post)) this).
Proof.
  induction post as [|x post IH]; intros pre this Hops.
  - simpl. rewrite <- Hops. destruct this; reflexivity.
  - simpl. unfold Instruction_rewriteOperand.
    rewrite Hops, list_lookup_middle by reflexivity. simpl.
    assert (forall this' : Instruction,
              operands this' = (pre ++ [rewritten oldOperand newOperand x]) ++ post ->
              resultId this' = resultId this -> typeId this' = typeId this ->
              opCode this' = opCode this -> string this' = string this ->
              originalString this' = originalString this ->
              rewriteOperand_each oldOperand newOperand
                (seq (S (length pre)) (length post)) this' =
              Some (set_operands
                      (pre ++ rewritten oldOperand newOperand x
                           :: (rewritten oldOperand newOperand <$> post)) this))
      as Hnext.
    { intros this' Hops' H1 H2 H3 H4 H5.
      replace (S (length pre))
        with (length (pre ++ [rewritten oldOperand newOperand x]))
        by (rewrite length_app; simpl; lia).
      rewrite (IH _ this' Hops'), <- app_assoc. simpl.
      unfold set_operands. rewrite H1, H2, H3, H4, H5. reflexivity. }
    unfold rewritten in *. destruct (decide (x = oldOperand)) as [->|Hne].
    + apply Hnext; try reflexivity. simpl.
      rewrite insert_app_r_alt, Nat.sub_diag by lia. simpl.
      rewrite <- app_assoc. reflexivity.
    + apply Hnext; try reflexivity.
      rewrite Hops, <- app_assoc. reflexivity.
Qed.

(** X1. [rewriteOperands] is defined for every instruction; it replaces each
    operand equal to [oldOperand] by [newOperand], leaves the other operands,
    their number and order and every other member alone; when the two ids
    differ, [oldOperand] is no longer an operand afterwards. *)
Theorem Instruction_rewriteOperands_spec (oldOperand newOperand : Id)
    (this : Instruction) :
  exists this' : Instruction,
    Instruction_rewriteOperands oldOperand newOperand this = Some this'
    /\ operands this' = rewritten oldOperand newOperand <$> operands this
    /\ length (operands this') = length (operands this)
    /\ resultId this' = resultId this /\ typeId this' = typeId this
    /\ opCode this' = opCode this /\ string this' = string this
    /\ originalString this' = originalString this
    /\ (oldOperand <> newOperand -> oldOperand ∉ operands this')
    /\ (oldOperand ∉ operands this -> this' = this).
Proof.
  eexists. unfold Instruction_rewriteOperands.
  change (seq 0 (length (operands this)))
    with (seq (length (@nil Id)) (length (operands this))).
  rewrite (rewriteOperand_each_run oldOperand newOperand (operands this) [] this
             eq_refl).
  simpl. split; [reflexivity|]. simpl.
  split; [reflexivity|]. split; [apply length_fmap|].
  do 5 (split; [reflexivity|]). split.
  - intros Hne Hin. apply list_elem_of_fmap in Hin as (x & Hx & _).
    unfold rewritten in Hx. destruct (decide (x = oldOperand)); congruence.
  - intros Hnot. destruct this as [r t o ops str orig]. unfold set_operands.
    simpl in *. f_equal. rewrite <- (list_fmap_id ops) at 2.
    apply list_fmap_ext. intros k x Hk. unfold rewritten.
    rewrite decide_False; [reflexivity|]. intros ->.
    apply Hnot. eapply list_elem_of_lookup_2, Hk.
Qed.

(** * The encoding of strings *)

Lemma group4_cases (l : list ascii) :
  (concat (bytes_of <$> group4 l)
     = l ++ replicate ((4 - length l mod 4) mod 4) NUL
   /\ length (group4 l) = ((length l + 3) / 4)%nat)
  /\ (forall a,
        concat (bytes_of <$> group4 (a :: l))
          = (a :: l) ++ replicate ((4 - length (a :: l) mod 4) mod 4) NUL
        /\ length (group4 (a :: l)) = ((length (a :: l) + 3) / 4)%nat)
  /\ (forall a b,
        concat (bytes_of <$> group4 (a :: b :: l))
          = (a :: b :: l)
              ++ replicate ((4 - length (a :: b :: l) mod 4) mod 4) NUL
        /\ length (group4 (a :: b :: l)) = ((length (a :: b :: l) + 3) / 4)%nat)
  /\ (forall a b c,
        concat (bytes_of <$> group4 (a :: b :: c :: l))
          = (a :: b :: c :: l)
              ++ replicate ((4 - length (a :: b :: c :: l) mod 4) mod 4) NUL
        /\ length (group4 (a :: b :: c :: l))
             = ((length (a :: b :: c :: l) + 3) / 4)%nat).
Proof.
  induction l as [|x l (IH0 & IH1 & IH2 & IH3)].
  - repeat split.
  - split; [exact (IH1 x)|]. split; [exact (fun a => IH2 a x)|].
    split; [exact (fun a b => IH3 a b x)|].
    intros a b c. destruct IH0 as [IHc IHn].
    change (group4 (a :: b :: c :: x :: l))
      with (mkWordBytes a b c x :: group4 l).
    rewrite fmap_cons, concat_cons, IHc. cbn [length].
    replace (S (S (S (S (length l))))) with (length l + 1 * 4)%nat by lia.
    rewrite Nat.Div0.mod_add. split; [reflexivity|].
    rewrite IHn.
    replace (length l + 1 * 4 + 3)%nat with (length l + 3 + 1 * 4)%nat by lia.
    rewrite Nat.div_add by lia. lia.
Qed.

(** The bytes of the groups are the characters, then NULs up to a multiple
    of four. *)
Lemma group4_bytes (l : list ascii) :
  concat (bytes_of <$> group4 l)
    = l ++ replicate ((4 - length l mod 4) mod 4) NUL.
Proof. apply group4_cases. Qed.

Lemma group4_length (l : list ascii) :
  length (group4 l) = ((length l + 3) / 4)%nat.
Proof. apply group4_cases. Qed.

Lemma c_str_no_NUL (str : list ascii) : NUL ∉ c_str str.
Proof.
  induction str as [|c str IH]; simpl.
  - apply not_elem_of_nil.
  - destruct (decide (c = NUL)); [apply not_elem_of_nil|].
    apply not_elem_of_cons. split; [congruence|exact IH].
Qed.

(** Reading a C string back from its characters followed by a NUL. *)
Lemma c_str_terminated (l rest : list ascii) :
  NUL ∉ l -> c_str (l ++ NUL :: rest) = l.
Proof.
  induction l as [|c l IH]; intros Hnul; simpl.
  - reflexivity.
  - apply not_elem_of_cons in Hnul as [Hc Hnul].
    rewrite decide_False by congruence. rewrite IH by exact Hnul. reflexivity.
Qed.

Lemma lor_low_high (a c k : N) :
  a < 2 ^ k -> N.lor a (N.shiftl c k) = a + c * 2 ^ k.
Proof.
  intros Ha.
  assert (N.land a (N.shiftl c k) = 0) as Hdisjoint.
  { apply N.bits_inj. intros n. rewrite N.land_spec, N.bits_0.
    destruct (N.lt_ge_cases n k) as [Hn|Hn].
    - rewrite N.shiftl_spec_low by exact Hn. apply andb_false_r.
    - destruct (N.eq_dec a 0) as [->|Hnz]; [rewrite N.bits_0; reflexivity|].
      rewrite (N.bits_above_log2 a n); [reflexivity|].
      apply N.log2_lt_pow2; [lia|].
      eapply N.lt_le_trans; [exact Ha|]. apply N.pow_le_mono_r; lia. }
  rewrite <- N.lxor_lor by exact Hdisjoint.
  rewrite <- N.add_nocarry_lxor by exact Hdisjoint.
  rewrite N.shiftl_mul_pow2. reflexivity.
Qed.

(** The value of a word, from its bytes: the first byte is the lowest. *)
Lemma word_of_bytes_sum (w : WordBytes) :
  word_of_bytes w =
    N_of_ascii (byte0 w) + 2 ^ 8 * N_of_ascii (byte1 w)
      + 2 ^ 16 * N_of_ascii (byte2 w) + 2 ^ 24 * N_of_ascii (byte3 w).
Proof.
  unfold word_of_bytes.
  pose proof (N_ascii_bounded (byte0 w)) as B0.
  pose proof (N_ascii_bounded (byte1 w)) as B1.
  pose proof (N_ascii_bounded (byte2 w)) as B2.
  set (a := N_of_ascii (byte0 w)) in *. set (b := N_of_ascii (byte1 w)) in *.
  set (c := N_of_ascii (byte2 w)) in *. set (d := N_of_ascii (byte3 w)) in *.
  replace (N.shiftl c 16) with (N.shiftl (N.shiftl c 8) 8)
    by (rewrite N.shiftl_shiftl; reflexivity).
  replace (N.shiftl d 24) with (N.shiftl (N.shiftl (N.shiftl d 8) 8) 8)
    by (rewrite !N.shiftl_shiftl; reflexivity).
  rewrite <- !N.shiftl_lor.
  rewrite (lor_low_high a), (lor_low_high b), (lor_low_high c)
    by (change (2 ^ 8) with 256; assumption).
  change (2 ^ 8) with 256. change (2 ^ 16) with 65536.
  change (2 ^ 24) with 16777216. lia.
Qed.

Lemma word_of_bytes_inj (w w' : WordBytes) :
  word_of_bytes w = word_of_bytes w' -> w = w'.
Proof.
  rewrite !word_of_bytes_sum. destruct w as [a b c d], w' as [a' b' c' d'].
  cbn [byte0 byte1 byte2 byte3].
  pose proof (N_ascii_bounded a). pose proof (N_ascii_bounded b).
  pose proof (N_ascii_bounded c). pose proof (N_ascii_bounded d).
  pose proof (N_ascii_bounded a'). pose proof (N_ascii_bounded b').
  pose proof (N_ascii_bounded c'). pose proof (N_ascii_bounded d').
  intros E.
  assert (N_of_ascii a = N_of_ascii a' /\ N_of_ascii b = N_of_ascii b'
          /\ N_of_ascii c = N_of_ascii c' /\ N_of_ascii d = N_of_ascii d')
    as (Ea & Eb & Ec & Ed) by lia.
  apply (f_equal ascii_of_N) in Ea, Eb, Ec, Ed.
  rewrite !ascii_N_embedding in Ea, Eb, Ec, Ed. congruence.
Qed.

Lemma pad_after_NUL (n : nat) :
  ((4 - (n + 1) mod 4) mod 4 = 3 - n mod 4)%nat.
Proof.
  pose proof (Nat.div_mod_eq n 4) as E. pose proof (Nat.mod_upper_bound n 4) as B.
  assert (n mod 4 = 0 \/ n mod 4 = 1 \/ n mod 4 = 2 \/ n mod 4 = 3)%nat
    as [H|[H|[H|H]]] by lia; rewrite H in *.
  - replace (n + 1)%nat with (1 + (n / 4) * 4)%nat by lia.
    rewrite Nat.Div0.mod_add. reflexivity.
  - replace (n + 1)%nat with (2 + (n / 4) * 4)%nat by lia.
    rewrite Nat.Div0.mod_add. reflexivity.
  - replace (n + 1)%nat with (3 + (n / 4) * 4)%nat by lia.
    rewrite Nat.Div0.mod_add. reflexivity.
  - replace (n + 1)%nat with (0 + (n / 4 + 1) * 4)%nat by lia.
    rewrite Nat.Div0.mod_add. reflexivity.
Qed.

(** X2. [addStringOperand] stores the characters of the text up to its
    first NUL, then a NUL, then as many NULs as it takes to fill the last
    word (at most 3), four bytes per word in the order of the text, whatever
    the local [word] held before; it keeps the text for [getStringOperand]
    and leaves the ids, the opcode and the operands alone. *)
Theorem addStringOperand_encoding (word0 : WordBytes) (str : String.string)
    (this : Instruction) :
  exists groups : list WordBytes,
    string (Instruction_addStringOperand word0 str this)
      = Some (word_of_bytes <$> groups)
    /\ concat (bytes_of <$> groups)
         = c_str (list_ascii_of_string str) ++ NUL
             :: replicate (3 - length (c_str (list_ascii_of_string str)) mod 4)
                  NUL
    /\ Instruction_getStringOperand (Instruction_addStringOperand word0 str this)
         = string_of_list_ascii (c_str (list_ascii_of_string str))
    /\ resultId (Instruction_addStringOperand word0 str this) = resultId this
    /\ typeId (Instruction_addStringOperand word0 str this) = typeId this
    /\ opCode (Instruction_addStringOperand word0 str this) = opCode this
    /\ operands (Instruction_addStringOperand word0 str this) = operands this.
Proof.
  exists (group4 (c_str (list_ascii_of_string str) ++ [NUL])).
  split; [|split; [|repeat split]].
  - unfold Instruction_addStringOperand. cbn [string].
    rewrite pack_string_words. reflexivity.
  - rewrite group4_bytes, length_app. cbn [length].
    rewrite pad_after_NUL, <- app_assoc. reflexivity.
Qed.

(** X3. The text takes [n / 4 + 1] words, [n] being the number of its
    characters before the first NUL: at least one word, also for the empty
    text, and one word more than the characters fill when [n] is a multiple
    of 4. *)
Theorem addStringOperand_word_count (word0 : WordBytes) (str : String.string)
    (this : Instruction) :
  exists ws : list word,
    string (Instruction_addStringOperand word0 str this) = Some ws
    /\ length ws = (length (c_str (list_ascii_of_string str)) / 4 + 1)%nat.
Proof.
  eexists. split; [reflexivity|].
  rewrite pack_string_words, length_fmap, group4_length, length_app.
  cbn [length].
  replace (length (c_str (list_ascii_of_string str)) + 1 + 3)%nat
    with (length (c_str (list_ascii_of_string str)) + 1 * 4)%nat by lia.
  rewrite Nat.div_add by lia. reflexivity.
Qed.

(** Reading the characters back from the groups. *)
Lemma group4_decode (l : list ascii) :
  NUL ∉ l -> c_str (concat (bytes_of <$> group4 (l ++ [NUL]))) = l.
Proof.
  intros Hnul. rewrite group4_bytes, <- app_assoc. cbn [app].
  apply c_str_terminated, Hnul.
Qed.

(** X4. The words determine the text: two calls of [addStringOperand] that
    store the same words were given the same characters up to the first
    NUL. *)
Theorem addStringOperand_injective (word1 word2 : WordBytes)
    (str1 str2 : String.string) (this1 this2 : Instruction) :
  string (Instruction_addStringOperand word1 str1 this1)
    = string (Instruction_addStringOperand word2 str2 this2) ->
  c_str (list_ascii_of_string str1) = c_str (list_ascii_of_string str2).
Proof.
  unfold Instruction_addStringOperand. cbn [string].
  rewrite !pack_string_words. intros [= E].
  apply (list_fmap_eq_inj word_of_bytes word_of_bytes_inj) in E.
  pose proof (group4_decode _ (c_str_no_NUL (list_ascii_of_string str1))) as D1.
  pose proof (group4_decode _ (c_str_no_NUL (list_ascii_of_string str2))) as D2.
  rewrite E in D1. congruence.
Qed.

Lemma addStringOperand_injective_witness :
  string (Instruction_addStringOperand (mkWordBytes NUL NUL NUL NUL) "main"
            (Instruction_ctor_op (OpOther 5)))
    = string (Instruction_addStringOperand (mkWordBytes "x" "y" "z" "w") "main"
                (Instruction_ctor 1 2 (OpOther 6)))
  /\ c_str (list_ascii_of_string "main") = c_str (list_ascii_of_string "main").
Proof.
  assert (string (Instruction_addStringOperand (mkWordBytes NUL NUL NUL NUL)
                    "main" (Instruction_ctor_op (OpOther 5)))
          = string (Instruction_addStringOperand (mkWordBytes "x" "y" "z" "w")
                      "main" (Instruction_ctor 1 2 (OpOther 6)))) as H
    by reflexivity.
  split; [exact H|].
  exact (addStringOperand_injective _ _ _ _ _ _ H).
Defined.

(** * The header of an instruction and the words that follow it *)

Lemma Instruction_words_length (opValue : Op -> N) (i : Instruction) :
  N.of_nat (length (Instruction_words opValue i)) = wordCount i.
Proof.
  unfold Instruction_words, wordCount. cbn [length].
  rewrite !length_app. unfold word, Id. lia.
Qed.

(** X5. The first word [Instruction::dump] emits has the opcode in its lower
    16 bits and, in its upper 16 bits, the number of words emitted for the
    instruction modulo 2^16: the count is right for an instruction of fewer
    than 65536 words and truncated for a longer one.  (The opcode is below
    2^16.) *)
Theorem Instruction_dump_header (opValue : Op -> N) (i : Instruction) :
  opValue (opCode i) < 2 ^ 16 ->
  exists (h : word) (rest : list word),
    Instruction_dump opValue i [] = h :: rest
    /\ N.land h (N.ones 16) = opValue (opCode i)
    /\ N.shiftr h 16 = N.of_nat (length (h :: rest)) mod 2 ^ 16
    /\ (N.of_nat (length (h :: rest)) < 2 ^ 16 ->
        N.shiftr h 16 = N.of_nat (length (h :: rest))).
Proof.
  intros Hop. rewrite Instruction_dump_words. cbn [app].
  pose proof (Instruction_words_length opValue i) as Hlen.
  unfold Instruction_words in *. eexists _, _. split; [reflexivity|].
  rewrite Hlen. clear Hlen. unfold header.
  set (wc := wordCount i). set (op := opValue (opCode i)) in *.
  rewrite N.lor_comm, lor_low_high by exact Hop.
  pose proof (N.div_mod wc (2 ^ 16)) as E.
  pose proof (N.mod_upper_bound wc (2 ^ 16)) as B.
  set (q := wc / 2 ^ 16) in *. set (r := wc mod 2 ^ 16) in *.
  assert (wrap32 (op + wc * 2 ^ 16) = op + r * 2 ^ 16) as ->.
  { unfold wrap32.
    replace (op + wc * 2 ^ 16) with (op + r * 2 ^ 16 + q * 2 ^ 32)
      by (change (2 ^ 32) with (2 ^ 16 * 2 ^ 16); lia).
    rewrite N.Div0.mod_add. apply N.mod_small.
    change (2 ^ 32) with (2 ^ 16 * 2 ^ 16). change (2 ^ 16) with 65536 in *.
    lia. }
  split; [|split].
  - rewrite N.land_ones, N.Div0.mod_add. apply N.mod_small, Hop.
  - rewrite N.shiftr_div_pow2, N.div_add by (change (2 ^ 16) with 65536; lia).
    rewrite N.div_small by exact Hop. reflexivity.
  - intros Hsmall.
    rewrite N.shiftr_div_pow2, N.div_add by (change (2 ^ 16) with 65536; lia).
    rewrite N.div_small by exact Hop. subst r.
    rewrite N.mod_small by exact Hsmall. reflexivity.
Qed.

Lemma Instruction_dump_header_witness :
  example_opValue (opCode example_load) < 2 ^ 16
  /\ exists (h : word) (rest : list word),
       Instruction_dump example_opValue example_load [] = h :: rest
       /\ N.land h (N.ones 16) = 61
       /\ N.shiftr h 16 = 4 mod 2 ^ 16.
Proof.
  assert (example_opValue (opCode example_load) < 2 ^ 16) as H
    by (vm_compute; reflexivity).
  split; [exact H|].
  destruct (Instruction_dump_header example_opValue example_load H)
    as (h & rest & Hd & Hop & Hcount & _).
  exists h, rest. split; [exact Hd|]. split; [exact Hop|].
  rewrite Hcount, <- Hd. reflexivity.
Defined.

(** * Module::dump *)

(** X6. [Module::dump] appends the words of its functions in the order of
    the function list; a module without functions adds nothing. *)
Theorem Module_dump_order (opValue : Op -> N) (s : State) (this : Module)
    (out : list word) (fws : list (list word)) :
  words_of_each (functionObjects s) (Function_dump opValue s) (functions this)
    = Some fws ->
  Module_dump opValue s this out = Some (out ++ concat fws)
  /\ (functions this = [] -> Module_dump opValue s this out = Some out).
Proof.
  intros Hfs. split.
  - unfold Module_dump. apply dump_each_words; [|exact Hfs].
    apply Function_dump_appends.
  - intros Hnil. unfold Module_dump. rewrite Hnil. reflexivity.
Qed.

Lemma Module_dump_order_witness :
  words_of_each (functionObjects example_final_state)
    (Function_dump example_opValue example_final_state)
    (functions example_Module)
    = Some [[327734; 1; 5; 0; 2; 196663; 3; 6; 196663; 4; 7; 131320; 8;
             196667; 3; 9; 262205; 3; 10; 9; 65789; 65592]]
  /\ Module_dump example_opValue example_final_state example_Module [119734787]
     = Some ([119734787]
             ++ concat [[327734; 1; 5; 0; 2; 196663; 3; 6; 196663; 4; 7;
                         131320; 8; 196667; 3; 9; 262205; 3; 10; 9; 65789;
                         65592]]).
Proof.
  assert (words_of_each (functionObjects example_final_state)
            (Function_dump example_opValue example_final_state)
            (functions example_Module)
          = Some [[327734; 1; 5; 0; 2; 196663; 3; 6; 196663; 4; 7; 131320; 8;
                   196667; 3; 9; 262205; 3; 10; 9; 65789; 65592]]) as H
    by (vm_compute; reflexivity).
  split; [exact H|].
  exact (proj1 (Module_dump_order example_opValue example_final_state
                  example_Module [119734787] _ H)).
Defined.

(** * Well-formed stores *)

Lemma live_insert {T : Type} (objects : gmap addr T) (a : addr) (x : T)
    (p : pointer) :
  live objects p -> live (<[a := x]> objects) p.
Proof.
  unfold live. destruct p as [|b]; simpl; [trivial|].
  intros Hb. destruct (decide (a = b)) as [->|Hne].
  - rewrite lookup_insert_eq. eauto.
  - rewrite lookup_insert_ne by exact Hne. exact Hb.
Qed.

Lemma live_insert_eq {T : Type} (objects : gmap addr T) (a : addr) (x : T) :
  live (<[a := x]> objects) (ptr a).
Proof. unfold live. simpl. rewrite lookup_insert_eq. eauto. Qed.

Lemma keeps_ids_refl (h : gmap addr Instruction) : keeps_ids h h.
Proof. intros a i Hi. eauto. Qed.

Lemma keeps_ids_insert_new (h : gmap addr Instruction) (a : addr)
    (i : Instruction) :
  h !! a = None -> keeps_ids h (<[a := i]> h).
Proof.
  intros Hnew b j Hj. exists j. split; [|reflexivity].
  rewrite lookup_insert_ne; [exact Hj|]. congruence.
Qed.

Lemma keeps_ids_insert_same (h : gmap addr Instruction) (a : addr)
    (i i' : Instruction) :
  h !! a = Some i -> resultId i' = resultId i -> keeps_ids h (<[a := i']> h).
Proof.
  intros Ha Hid b j Hj. destruct (decide (a = b)) as [->|Hne].
  - exists i'. rewrite lookup_insert_eq. split; [reflexivity|]. congruence.
  - exists j. rewrite lookup_insert_ne by exact Hne. eauto.
Qed.

Lemma live_keeps (h h' : gmap addr Instruction) (p : pointer) :
  keeps_ids h h' -> live h p -> live h' p.
Proof.
  unfold live. intros Hk. destruct p as [|a]; simpl; [trivial|].
  intros [i Hi]. destruct (Hk a i Hi) as (i' & Hi' & _). eauto.
Qed.

Lemma Block_ok_keeps (h h' : gmap addr Instruction) (b : Block) :
  keeps_ids h h' -> Block_ok h b -> Block_ok h' b.
Proof.
  intros Hk (Hne & Hi & Hl). split; [exact Hne|].
  split; (eapply Forall_impl; [eassumption|]); intros p; apply live_keeps, Hk.
Qed.

Lemma index_ok_keeps (h h' : gmap addr Instruction) (index : list pointer) :
  keeps_ids h h' -> index_ok h index -> index_ok h' index.
Proof.
  intros Hk Hidx r a Hr. destruct (Hidx r a Hr) as (i & Hi & Hid).
  destruct (Hk a i Hi) as (i' & Hi' & Hid'). exists i'. split; congruence.
Qed.

(** The four ways the store changes. *)
Lemma store_ok_instructions (s : State) (h' : gmap addr Instruction) :
  store_ok s -> keeps_ids (instructionObjects s) h' ->
  store_ok (mkState h' (blockObjects s) (functionObjects s) (moduleObjects s)).
Proof.
  intros (Hb & Hf & Hm) Hk. split; [|split]; intros a x Hx; simpl in *.
  - eapply Block_ok_keeps; [exact Hk|]. exact (Hb a x Hx).
  - destruct (Hf a x Hx) as ([i Hi] & Hps & Hbs). split; [|split].
    + simpl. destruct (Hk _ _ Hi) as (i' & Hi' & _). eauto.
    + simpl. eapply Forall_impl; [exact Hps|]. intros p. apply live_keeps, Hk.
    + exact Hbs.
  - destruct (Hm a x Hx) as (Hfs & Hidx). split; [exact Hfs|].
    simpl. eapply index_ok_keeps; eassumption.
Qed.

Lemma store_ok_block (s : State) (a : addr) (b : Block) :
  store_ok s -> Block_ok (instructionObjects s) b ->
  store_ok (set_blockObjects <[a := b]> s).
Proof.
  intros (Hb & Hf & Hm) Hok. split; [|split]; simpl.
  - apply map_Forall_insert_2; assumption.
  - intros c f Hc. destruct (Hf c f Hc) as (Hi & Hps & Hbs).
    split; [exact Hi|]. split; [exact Hps|]. simpl.
    eapply Forall_impl; [exact Hbs|]. intros p. apply live_insert.
  - exact Hm.
Qed.

Lemma store_ok_function (s : State) (a : addr) (f : Function) :
  store_ok s -> Function_ok s f ->
  store_ok (set_functionObjects <[a := f]> s).
Proof.
  intros (Hb & Hf & Hm) Hok. split; [|split]; simpl.
  - exact Hb.
  - apply map_Forall_insert_2; [exact Hok|exact Hf].
  - intros c m Hc. destruct (Hm c m Hc) as (Hfs & Hidx). split; [|exact Hidx].
    simpl. eapply Forall_impl; [exact Hfs|]. intros p. apply live_insert.
Qed.

Lemma store_ok_module (s : State) (a : addr) (m : Module) :
  store_ok s -> Module_ok s m ->
  store_ok (set_moduleObjects <[a := m]> s).
Proof.
  intros (Hb & Hf & Hm) Hok. split; [|split]; simpl.
  - exact Hb.
  - exact Hf.
  - apply map_Forall_insert_2; [exact Hok|exact Hm].
Qed.

(** [mapInstruction] keeps the index right. *)
Lemma Module_mapInstruction_ok (s : State) (p : pointer) (m m' : Module) :
  Module_ok s m ->
  Module_mapInstruction (instructionObjects s) p m = Some m' ->
  Module_ok s m'.
Proof.
  intros (Hfs & Hidx). unfold Module_mapInstruction, Instruction_getResultId.
  destruct (deref (instructionObjects s) p) as [i|] eqn:Hp; simpl; [|discriminate].
  set (index := if decide (N.of_nat (length (idToInstruction m)) <= resultId i)
                then resize (N.to_nat (wrap32 (resultId i + 16))) null
                       (idToInstruction m)
                else idToInstruction m).
  destruct (decide (N.to_nat (resultId i) < length index)%nat) as [Hlt|];
    [|discriminate].
  intros [= <-]. split; [exact Hfs|]. simpl.
  assert (index_ok (instructionObjects s) index) as Hindex.
  { subst index. destruct (decide _) as [Hge|]; [|exact Hidx].
    intros r a Hr.
    destruct (decide (r < length (idToInstruction m))%nat) as [Hin|Hout].
    - apply Hidx. rewrite <- Hr. symmetry. apply lookup_resize; [|exact Hin].
      apply lookup_lt_Some in Hr. rewrite length_resize in Hr. exact Hr.
    - pose proof (lookup_lt_Some _ _ _ Hr) as Hr'. rewrite length_resize in Hr'.
      rewrite lookup_resize_new in Hr by lia. discriminate. }
  intros r a Hr. destruct (decide (r = N.to_nat (resultId i))) as [->|Hne].
  - rewrite list_lookup_insert_eq in Hr by exact Hlt. injection Hr as ->.
    exists i. split; [exact Hp|]. lia.
  - rewrite list_lookup_insert_ne in Hr by congruence. apply Hindex, Hr.
Qed.

Lemma call_Module_mapInstruction_inv (s s' : State) (this : addr) (p : pointer) :
  call_Module_mapInstruction this p s = Some (tt, s') ->
  exists m m' : Module,
    moduleObjects s !! this = Some m
    /\ Module_mapInstruction (instructionObjects s) p m = Some m'
    /\ s' = set_moduleObjects <[this := m']> s.
Proof.
  unfold call_Module_mapInstruction. run_M.
  destruct (moduleObjects s !! this) as [m|] eqn:Hm; simpl; [|discriminate].
  destruct (Module_mapInstruction _ p m) as [m'|] eqn:Hm'; simpl;
    [|discriminate].
  intros [= <-]. exists m, m'. auto.
Qed.

Lemma call_Module_mapInstruction_ok (s s' : State) (this : addr) (p : pointer) :
  store_ok s -> call_Module_mapInstruction this p s = Some (tt, s') ->
  store_ok s'.
Proof.
  intros Hok Hrun.
  apply call_Module_mapInstruction_inv in Hrun as (m & m' & Hm & Hm' & ->).
  apply store_ok_module; [exact Hok|].
  eapply Module_mapInstruction_ok; [|exact Hm'].
  destruct Hok as (_ & _ & Hmods). exact (Hmods this m Hm).
Qed.

Lemma new_Instruction_ok (s s' : State) (i : Instruction) (a : addr) :
  store_ok s -> new_Instruction i s = Some (a, s') ->
  store_ok s' /\ instructionObjects s !! a = None
  /\ s' = set_instructionObjects <[a := i]> s.
Proof.
  intros Hok. unfold new_Instruction. intros [= <- <-].
  assert (instructionObjects s !! fresh (dom (instructionObjects s)) = None)
    as Hnew by apply not_elem_of_dom, is_fresh.
  split; [|split; [exact Hnew|reflexivity]].
  apply (store_ok_instructions s); [exact Hok|].
  apply keeps_ids_insert_new, Hnew.
Qed.

Lemma store_ok_lookup_block (s : State) (a : addr) (b : Block) :
  store_ok s -> blockObjects s !! a = Some b ->
  Block_ok (instructionObjects s) b.
Proof. intros (Hb & _ & _) Ha. exact (Hb a b Ha). Qed.

Lemma store_ok_lookup_function (s : State) (a : addr) (f : Function) :
  store_ok s -> functionObjects s !! a = Some f -> Function_ok s f.
Proof. intros (_ & Hf & _) Ha. exact (Hf a f Ha). Qed.

Lemma store_ok_lookup_module (s : State) (a : addr) (m : Module) :
  store_ok s -> moduleObjects s !! a = Some m -> Module_ok s m.
Proof. intros (_ & _ & Hm) Ha. exact (Hm a m Ha). Qed.

Lemma Forall_insert_at {A : Type} (P : A -> Prop) (k : nat) (x : A)
    (l : list A) :
  P x -> Forall P l -> Forall P (insert_at k x l).
Proof.
  intros Hx Hl. unfold insert_at. apply Forall_app. split.
  - apply Forall_take, Hl.
  - apply Forall_cons. split; [exact Hx|]. apply Forall_drop, Hl.
Qed.

Lemma insert_at_not_nil {A : Type} (k : nat) (x : A) (l : list A) :
  insert_at k x l <> [].
Proof. unfold insert_at. destruct (take k l); discriminate. Qed.

Lemma new_Block_ok (s s' : State) (id : Id) (parent this : addr) :
  store_ok s -> new_Block id parent s = Some (this, s') -> store_ok s'.
Proof.
  intros Hok. rewrite new_Block_run. intros [= _ <-].
  set (label := fresh (dom (instructionObjects s))).
  assert (instructionObjects s !! label = None) as Hnew
    by apply not_elem_of_dom, is_fresh.
  refine (store_ok_block
            (mkState (<[label := Instruction_ctor id NoType OpLabel]>
                        (instructionObjects s))
               (blockObjects s) (functionObjects s) (moduleObjects s))
            (fresh (dom (blockObjects s)))
            (mkBlock [ptr label] [] [] [] parent false) _ _).
  - apply store_ok_instructions; [exact Hok|].
    apply keeps_ids_insert_new, Hnew.
  - simpl. split; [discriminate|]. split; [|apply Forall_nil_2].
    apply Forall_singleton, live_insert_eq.
Qed.

(** The tail that [addInstruction] and [addInstructionAtFront] share. *)
Lemma register_if_result_ok (s s' : State) (b : Block) (inst : pointer)
    (i : Instruction) :
  store_ok s ->
  (if decide (Instruction_getResultId i = 0) then ret tt
   else let* f := load_Function (Block_parent b) in
        call_Module_mapInstruction (Function_parent f) inst) s = Some (tt, s') ->
  store_ok s'.
Proof.
  intros Hok. destruct (decide _).
  - intros [= <-]. exact Hok.
  - run_M. destruct (functionObjects s !! Block_parent b) as [f|]; simpl;
      [|discriminate].
    apply call_Module_mapInstruction_ok, Hok.
Qed.

Lemma Block_addInstruction_ok (s s' : State) (this : addr) (inst : pointer) :
  store_ok s -> Block_addInstruction this inst s = Some (tt, s') -> store_ok s'.
Proof.
  intros Hok. unfold Block_addInstruction. run_M.
  destruct (blockObjects s !! this) as [b|] eqn:Hb; simpl; [|discriminate].
  destruct (deref (instructionObjects s) inst) as [i|] eqn:Hi; simpl;
    [|discriminate].
  apply register_if_result_ok.
  apply store_ok_block; [exact Hok|].
  destruct (store_ok_lookup_block s this b Hok Hb) as (Hne & Hlive & Hlocals).
  split; [|split]; simpl.
  - unfold push_back. destruct (instructions b); discriminate.
  - apply Forall_app. split; [exact Hlive|].
    apply Forall_singleton. unfold live. rewrite Hi. eauto.
  - exact Hlocals.
Qed.

Lemma Block_addInstructionAtFront_ok (NDEBUG : bool) (s s' : State)
    (this : addr) (inst : pointer) :
  store_ok s ->
  Block_addInstructionAtFront NDEBUG this inst s = Some (tt, s') ->
  store_ok s'.
Proof.
  intros Hok. unfold Block_addInstructionAtFront, assert. unfold bind at 1.
  unfold load_Block at 1. run_M.
  destruct (blockObjects s !! this) as [b|] eqn:Hb; simpl; [|discriminate].
  assert (forall s0 : State,
            s0 = s ->
            ((if decide (instructions b = []) then lift None else ret tt) ;;
             store_Block this
               (set_instructions (insert_at 1 inst (instructions b)) b) ;;
             let* i := deref_Instruction inst in
             if decide (Instruction_getResultId i = 0) then ret tt
             else let* f := load_Function (Block_parent b) in
                  call_Module_mapInstruction (Function_parent f) inst) s0
              = Some (tt, s') -> store_ok s') as Htail.
  { intros s0 ->. run_M. destruct (decide (instructions b = [])); simpl;
      [discriminate|].
    destruct (deref (instructionObjects s) inst) as [i|] eqn:Hi; simpl;
      [|discriminate].
    apply register_if_result_ok.
    apply store_ok_block; [exact Hok|].
    destruct (store_ok_lookup_block s this b Hok Hb) as (Hne & Hlive & Hlocals).
    split; [|split]; simpl.
    - apply insert_at_not_nil.
    - apply Forall_insert_at; [|exact Hlive]. unfold live. rewrite Hi. eauto.
    - exact Hlocals. }
  destruct NDEBUG; simpl.
  - apply Htail. reflexivity.
  - destruct (bool_decide (instructions b = [])); simpl; [discriminate|].
    destruct (head (instructions b)) as [front|]; simpl; [|discriminate].
    destruct (deref (instructionObjects s) front) as [fi|]; simpl;
      [|discriminate].
    destruct (bool_decide (Instruction_getOpCode fi = OpLabel)); simpl;
      [|discriminate].
    destruct (deref (instructionObjects s) inst) as [i|]; simpl;
      [|discriminate].
    destruct (bool_decide (Instruction_getOpCode i = OpLabel)); simpl;
      [discriminate|].
    apply Htail. reflexivity.
Qed.

Lemma Function_addLocalVariable_ok (s s' : State) (this : addr)
    (inst : pointer) :
  store_ok s -> Function_addLocalVariable this inst s = Some (tt, s') ->
  store_ok s'.
Proof.
  intros Hok. unfold Function_addLocalVariable. run_M.
  destruct (functionObjects s !! this) as [f|] eqn:Hf; simpl; [|discriminate].
  destruct (blocks f !! 0%nat) as [[|e]|]; simpl; try discriminate.
  run_M. destruct (blockObjects s !! e) as [b|] eqn:Hb; simpl; [|discriminate].
  intros Hrun.
  destruct (call_Module_mapInstruction_inv _ _ _ _ Hrun) as (m & m' & _ & Hm' & _).
  apply (call_Module_mapInstruction_ok _ _ _ _) in Hrun; [exact Hrun|].
  apply store_ok_block; [exact Hok|].
  destruct (store_ok_lookup_block s e b Hok Hb) as (Hne & Hlive & Hlocals).
  split; [exact Hne|]. split; [exact Hlive|]. simpl.
  apply Forall_app. split; [exact Hlocals|]. apply Forall_singleton.
  unfold live. unfold Module_mapInstruction in Hm'. simpl in Hm'.
  destruct (deref (instructionObjects s) inst); [eauto|discriminate].
Qed.

Lemma for_each_ok {A : Type} (body : A -> M unit) (l : list A) :
  (forall (x : A) (s s' : State),
     store_ok s -> body x s = Some (tt, s') -> store_ok s') ->
  forall s s' : State,
    store_ok s -> for_each body l s = Some (tt, s') -> store_ok s'.
Proof.
  intros Hbody. induction l as [|x l IH]; intros s s' Hok; simpl.
  - intros [= <-]. exact Hok.
  - unfold bind. destruct (body x s) as [[[] s1]|] eqn:Hx; [|discriminate].
    apply IH. eapply Hbody; eassumption.
Qed.

Lemma Function_ctor_param_ok (this parent : addr) (typeInst : pointer)
    (firstParamId : Id) (p : nat) (s s' : State) :
  store_ok s ->
  Function_ctor_param this parent typeInst firstParamId p s = Some (tt, s') ->
  store_ok s'.
Proof.
  intros Hok. unfold Function_ctor_param. run_M.
  destruct (deref (instructionObjects s) typeInst) as [ti|]; simpl;
    [|discriminate].
  destruct (Instruction_getIdOperand (p + 1) ti) as [ty|]; simpl;
    [|discriminate].
  set (param := Instruction_ctor (wrap32 (firstParamId + N.of_nat p)) ty
                  OpFunctionParameter).
  set (a := fresh (dom (instructionObjects s))).
  assert (instructionObjects s !! a = None) as Hnew
    by apply not_elem_of_dom, is_fresh.
  set (s1 := mkState (<[a := param]> (instructionObjects s)) (blockObjects s)
               (functionObjects s) (moduleObjects s)).
  assert (store_ok s1) as Hok1.
  { apply store_ok_instructions; [exact Hok|].
    apply keeps_ids_insert_new, Hnew. }
  destruct (call_Module_mapInstruction parent (ptr a) s1) as [[[] s2]|] eqn:Hmap;
    [|discriminate].
  pose proof (call_Module_mapInstruction_ok _ _ _ _ Hok1 Hmap) as Hok2.
  apply call_Module_mapInstruction_inv in Hmap as (m & m' & _ & _ & Hs2).
  destruct (functionObjects s2 !! this) as [f|] eqn:Hf; simpl; [|discriminate].
  intros [= <-].
  apply store_ok_function; [exact Hok2|].
  destruct (store_ok_lookup_function s2 this f Hok2 Hf) as (Hfi & Hps & Hbs).
  split; [exact Hfi|]. split; [|exact Hbs]. simpl.
  apply Forall_app. split; [exact Hps|]. apply Forall_singleton.
  subst s2. simpl. apply live_insert_eq.
Qed.

Lemma new_Function_ok (FunctionControlMaskNone : word)
    (id resultType functionType firstParamId : Id) (parent this : addr)
    (s s' : State) :
  store_ok s ->
  new_Function FunctionControlMaskNone id resultType functionType firstParamId
    parent s = Some (this, s') ->
  store_ok s'.
Proof.
  intros Hok. unfold new_Function, call_Module_addFunction. run_M.
  set (fi := fresh (dom (instructionObjects s))).
  set (f0 := fresh (dom (functionObjects s))).
  assert (instructionObjects s !! fi = None) as Hnew
    by apply not_elem_of_dom, is_fresh.
  rewrite lookup_insert_eq. simpl. rewrite insert_insert_eq.
  set (i := Instruction_addIdOperand functionType
              (Instruction_addImmediateOperand FunctionControlMaskNone
                 (Instruction_ctor id resultType OpFunction))).
  set (s1 := mkState (<[fi := i]> (instructionObjects s)) (blockObjects s)
               (<[f0 := mkFunction parent fi [] []]> (functionObjects s))
               (moduleObjects s)).
  assert (store_ok s1) as Hok1.
  { refine (store_ok_function
              (mkState (<[fi := i]> (instructionObjects s)) (blockObjects s)
                 (functionObjects s) (moduleObjects s))
              f0 (mkFunction parent fi [] []) _ _).
    - apply store_ok_instructions; [exact Hok|].
      apply keeps_ids_insert_new, Hnew.
    - split; [|split]; simpl; [|apply Forall_nil_2|apply Forall_nil_2].
      rewrite lookup_insert_eq. eauto. }
  destruct (call_Module_mapInstruction parent (ptr fi) s1) as [[[] s2]|] eqn:Hmap;
    [|discriminate].
  pose proof (call_Module_mapInstruction_ok _ _ _ _ Hok1 Hmap) as Hok2.
  apply call_Module_mapInstruction_inv in Hmap as (m & m' & _ & _ & Hs2).
  destruct (moduleObjects s2 !! parent) as [m2|] eqn:Hm2; simpl; [|discriminate].
  assert (store_ok (set_moduleObjects
                      <[parent := Module_addFunction (ptr f0) m2]> s2)) as Hok3.
  { apply store_ok_module; [exact Hok2|].
    destruct (store_ok_lookup_module s2 parent m2 Hok2 Hm2) as (Hfs & Hidx).
    split; [|exact Hidx]. simpl. apply Forall_app. split; [exact Hfs|].
    apply Forall_singleton. subst s2. simpl. apply live_insert_eq. }
  rewrite lookup_insert_eq. simpl.
  destruct (Module_getInstruction functionType _) as [typeInst|]; simpl;
    [|discriminate].
  destruct (deref (instructionObjects s2) typeInst) as [ti|]; simpl;
    [|discriminate].
  destruct (for_each _ _ _) as [[[] s3]|] eqn:Hloop; [|discriminate].
  intros [= _ <-].
  eapply for_each_ok; [|exact Hok3|exact Hloop].
  intros p. apply Function_ctor_param_ok.
Qed.

Lemma Block_insertInstructionBeforeTerminal_ok (h : gmap addr Instruction)
    (inst : pointer) (b b' : Block) :
  Block_ok h b -> live h inst ->
  Block_insertInstructionBeforeTerminal h inst b = Some b' ->
  Block_ok h b'.
Proof.
  intros (Hne & Hlive & Hlocals) Hinst.
  assert (forall (k : nat) (v : list pointer),
            insert_from_end k inst (instructions b) = Some v ->
            Block_ok h (set_instructions v b)) as Hins.
  { intros k v. unfold insert_from_end. destruct (decide _); [|discriminate].
    intros [= <-]. split; [apply insert_at_not_nil|].
    split; [|exact Hlocals]. apply Forall_insert_at; assumption. }
  unfold Block_insertInstructionBeforeTerminal.
  destruct (back_opCode h b) as [op|]; simpl; [|discriminate].
  destruct op; simpl;
    try (intros [= <-]; split; [|split]; simpl;
         [unfold push_back; destruct (instructions b); discriminate
         |apply Forall_app; split; [exact Hlive|apply Forall_singleton, Hinst]
         |exact Hlocals]);
    try (destruct (insert_from_end _ inst (instructions b)) as [v|] eqn:Hv;
         simpl; [|discriminate]; intros [= <-]; eapply Hins; exact Hv).
  destruct (if decide (1 < length (instructions b))%nat then _ else _)
    as [isLoopMerge|]; simpl; [|discriminate].
  destruct (insert_from_end _ inst (instructions b)) as [v|] eqn:Hv;
    simpl; [|discriminate]. intros [= <-]. eapply Hins. exact Hv.
Qed.

Lemma example_final_state_ok : store_ok example_final_state.
Proof.
  split; [|split]; apply map_Forall_to_list.
  - replace (map_to_list (blockObjects example_final_state))
      with [(example_block, example_Block)] by (vm_compute; reflexivity).
    apply Forall_singleton.
    change (Block_ok (instructionObjects example_final_state) example_Block).
    split; [|split].
    + vm_compute. discriminate.
    + replace (instructions example_Block)
        with [ptr 5%positive; ptr 7%positive; ptr 8%positive]
        by (vm_compute; reflexivity).
      repeat constructor; vm_compute; eauto.
    + replace (localVariables example_Block) with [ptr 6%positive]
        by (vm_compute; reflexivity).
      repeat constructor; vm_compute; eauto.
  - replace (map_to_list (functionObjects example_final_state))
      with [(example_function, example_Function)] by (vm_compute; reflexivity).
    apply Forall_singleton.
    change (Function_ok example_final_state example_Function).
    split; [|split].
    + vm_compute. eauto.
    + replace (parameterInstructions example_Function)
        with [ptr 3%positive; ptr 4%positive] by (vm_compute; reflexivity).
      repeat constructor; vm_compute; eauto.
    + replace (blocks example_Function) with [ptr 1%positive]
        by (vm_compute; reflexivity).
      repeat constructor; vm_compute; eauto.
  - set (m := example_Module).
    replace (map_to_list (moduleObjects example_final_state))
      with [(example_module, m)] by (vm_compute; reflexivity).
    apply Forall_singleton. change (Module_ok example_final_state m). split.
    + replace (functions m) with [ptr 1%positive] by (vm_compute; reflexivity).
      repeat constructor; vm_compute; eauto.
    + unfold index_ok. intros r a.
      replace (idToInstruction m)
        with [null; null; ptr 1%positive; null; null; ptr 2%positive;
              ptr 3%positive; ptr 4%positive; null; ptr 6%positive;
              ptr 7%positive; null; null; null; null; null; null; null]
        by (vm_compute; reflexivity).
      do 18 (destruct r as [|r];
             [cbn [lookup list_lookup];
              first [discriminate
                    |intros [= <-]; eexists; split; vm_compute; reflexivity]|]).
      discriminate.
Qed.

Lemma Forall_removelast {A : Type} (P : A -> Prop) (l : list A) :
  Forall P l -> Forall P (removelast l).
Proof.
  induction 1 as [|x l Hx Hl IH]; [constructor|].
  destruct l as [|y l]; [constructor|].
  change (Forall P (x :: removelast (y :: l))). constructor; assumption.
Qed.



Lemma dump_each_is_Some {T : Type} (objects : gmap addr T)
    (dump : T -> list word -> option (list word)) (v : list pointer) :
  Forall (fun p => exists x : T,
            deref objects p = Some x /\ forall out, is_Some (dump x out)) v ->
  forall out : list word, is_Some (dump_each objects dump v out).
Proof.
  induction 1 as [|p v (x & Hp & Hx) Hv IH]; intros out; simpl.
  - eauto.
  - rewrite Hp. simpl. destruct (Hx out) as [out' ->]. simpl. apply IH.
Qed.

Lemma dump_each_Instruction_is_Some (opValue : Op -> N)
    (h : gmap addr Instruction) (v : list pointer) (out : list word) :
  Forall (live h) v -> is_Some (dump_each h (dump_Instruction opValue) v out).
Proof.
  intros Hv. apply dump_each_is_Some.
  eapply Forall_impl; [exact Hv|]. intros p [i Hi]. exists i.
  split; [exact Hi|]. unfold dump_Instruction. eauto.
Qed.

Lemma Block_dump_is_Some (opValue : Op -> N) (s : State) (b : Block)
    (out : list word) :
  Block_ok (instructionObjects s) b -> is_Some (Block_dump opValue s b out).
Proof.
  intros (Hne & Hlive & Hlocals). unfold Block_dump.
  destruct (unreachable b && _); [eauto|].
  destruct (instructions b) as [|label rest] eqn:Hv; [contradiction|].
  apply Forall_cons in Hlive as [[i Hi] Hrest]. simpl. rewrite Hi. simpl.
  destruct (dump_each_Instruction_is_Some opValue (instructionObjects s)
              (localVariables b) (Instruction_dump opValue i out) Hlocals)
    as [out' ->]. simpl.
  rewrite drop_0. apply dump_each_Instruction_is_Some, Hrest.
Qed.

Lemma Function_dump_is_Some (opValue : Op -> N) (s : State) (f : Function)
    (out : list word) :
  store_ok s -> Function_ok s f -> is_Some (Function_dump opValue s f out).
Proof.
  intros Hok ([fi Hfi] & Hps & Hbs). unfold Function_dump. rewrite Hfi. simpl.
  destruct (dump_each_Instruction_is_Some opValue (instructionObjects s)
              (parameterInstructions f) (Instruction_dump opValue fi out) Hps)
    as [out1 ->]. simpl.
  destruct (dump_each_is_Some (blockObjects s) (Block_dump opValue s)
              (blocks f)) with (out := out1) as [out2 ->]; [|simpl; eauto].
  eapply Forall_impl; [exact Hbs|]. intros p [b Hb]. exists b.
  split; [exact Hb|]. intros out'. apply Block_dump_is_Some.
  destruct p as [|a]; [discriminate|].
  eapply store_ok_lookup_block; eassumption.
Qed.

(** X8. On a well-formed store the dump functions run into no undefined
    behaviour: [Module::dump], [Function::dump] and [Block::dump] return a
    result for every object of the store and every output vector. *)
Theorem dump_defined (opValue : Op -> N) (s : State) :
  store_ok s ->
  (forall (a : addr) (m : Module) (out : list word),
     moduleObjects s !! a = Some m -> is_Some (Module_dump opValue s m out))
  /\ (forall (a : addr) (f : Function) (out : list word),
        functionObjects s !! a = Some f ->
        is_Some (Function_dump opValue s f out))
  /\ (forall (a : addr) (b : Block) (out : list word),
        blockObjects s !! a = Some b -> is_Some (Block_dump opValue s b out)).
Proof.
  intros Hok. split_and!.
  - intros a m out Hm. unfold Module_dump. apply dump_each_is_Some.
    destruct (store_ok_lookup_module s a m Hok Hm) as (Hfs & _).
    eapply Forall_impl; [exact Hfs|]. intros p [f Hf]. exists f.
    split; [exact Hf|]. intros out'. apply Function_dump_is_Some; [exact Hok|].
    destruct p as [|c]; [discriminate|].
    eapply store_ok_lookup_function; eassumption.
  - intros a f out Hf. apply Function_dump_is_Some; [exact Hok|].
    eapply store_ok_lookup_function; eassumption.
  - intros a b out Hb. apply Block_dump_is_Some.
    eapply store_ok_lookup_block; eassumption.
Qed.

Lemma dump_defined_witness :
  store_ok example_final_state
  /\ is_Some (Module_dump example_opValue example_final_state example_Module []).
Proof.
  split; [exact example_final_state_ok|].
  refine (proj1 (dump_defined example_opValue example_final_state
                   example_final_state_ok) example_module example_Module [] _).
  vm_compute. reflexivity.
Defined.

(** Every store a client builds is well formed. *)
Lemma built_store_ok (s : State) : built s -> store_ok s.
Proof.
  induction 1 as [ms Hms| | | | | | | | s a b b' inst _ IH Hb Hinst Hins
                  | s a f block _ IH Hf Hblock | s a f f' block _ IH Hf Hpop].
  - split; [apply map_Forall_empty|]. split; [apply map_Forall_empty|].
    intros a m Hm. cbn [moduleObjects] in Hm. rewrite (Hms a m Hm).
    split; [constructor|]. intros r c Hr. destruct r; discriminate Hr.
  - eapply new_Instruction_ok; eassumption.
  - eapply call_Module_mapInstruction_ok; eassumption.
  - eapply new_Block_ok; eassumption.
  - eapply new_Function_ok; eassumption.
  - eapply Block_addInstruction_ok; eassumption.
  - eapply Block_addInstructionAtFront_ok; eassumption.
  - eapply Function_addLocalVariable_ok; eassumption.
  - apply store_ok_block; [exact IH|].
    eapply Block_insertInstructionBeforeTerminal_ok; [|exact Hinst|exact Hins].
    eapply store_ok_lookup_block; eassumption.
  - apply store_ok_function; [exact IH|].
    destruct (store_ok_lookup_function s a f IH Hf) as (Hfi & Hps & Hbs).
    split; [exact Hfi|]. split; [exact Hps|]. simpl.
    apply Forall_app. split; [exact Hbs|]. apply Forall_singleton, Hblock.
  - unfold Function_popBlock in Hpop.
    destruct (blocks f) as [|b0 bs] eqn:Hblocks; [discriminate|].
    injection Hpop as <-. apply store_ok_function; [exact IH|].
    destruct (store_ok_lookup_function s a f IH Hf) as (Hfi & Hps & Hbs).
    split; [exact Hfi|]. split; [exact Hps|]. cbn [blocks].
    rewrite Hblocks in Hbs.
    apply (Forall_removelast _ (b0 :: bs)), Hbs.
Qed.

(** X9. In every store built from modules with an empty index by
    allocating instructions, registering them, constructing blocks and
    functions and adding to them, [getInstruction] never returns an
    instruction registered under another id: a pointer found for [id] is to
    an existing instruction whose result id is [id], and [getTypeId] with
    [id] then returns the type id of that very instruction. *)
Theorem getInstruction_consistent (s : State) (a : addr) (m : Module)
    (id : Id) (p : addr) :
  built s ->
  moduleObjects s !! a = Some m ->
  Module_getInstruction id m = Some (ptr p) ->
  exists i : Instruction,
    instructionObjects s !! p = Some i
    /\ resultId i = id
    /\ Module_getTypeId (instructionObjects s) id m = Some (typeId i).
Proof.
  intros Hbuilt Hm Hget.
  destruct (store_ok_lookup_module s a m (built_store_ok s Hbuilt) Hm)
    as (_ & Hidx).
  unfold Module_getInstruction in Hget.
  destruct (Hidx _ _ Hget) as (i & Hi & Hid). exists i.
  split; [exact Hi|]. split; [lia|].
  unfold Module_getTypeId. rewrite Hget. simpl. rewrite Hi. reflexivity.
Qed.

Lemma getInstruction_consistent_witness :
  (built example_state
   /\ moduleObjects example_state !! example_module
        = Some (default (mkModule [] [])
                  (moduleObjects example_state !! example_module))
   /\ Module_getInstruction 7
        (default (mkModule [] [])
           (moduleObjects example_state !! example_module))
        = Some (ptr 4%positive))
  /\ exists i : Instruction,
       instructionObjects example_state !! 4%positive = Some i
       /\ resultId i = 7
       /\ Module_getTypeId (instructionObjects example_state) 7
            (default (mkModule [] [])
               (moduleObjects example_state !! example_module))
          = Some (typeId i).
Proof.
  assert (built example_state) as H0.
  { apply (built_new_Function example_type_state example_state 0 5 1 2 6
             example_module example_function);
      [|vm_compute; reflexivity].
    apply (built_mapInstruction
             (exec (new_Instruction example_type) empty_module_state)
             example_type_state example_module (ptr 1%positive));
      [|vm_compute; reflexivity].
    apply (built_new_Instruction empty_module_state _ example_type 1%positive);
      [|vm_compute; reflexivity].
    apply built_modules. apply map_Forall_singleton. reflexivity. }
  assert (moduleObjects example_state !! example_module
          = Some (default (mkModule [] [])
                    (moduleObjects example_state !! example_module))) as H1
    by (vm_compute; reflexivity).
  assert (Module_getInstruction 7
            (default (mkModule [] [])
               (moduleObjects example_state !! example_module))
          = Some (ptr 4%positive)) as H2 by (vm_compute; reflexivity).
  split; [split; [exact H0|split; assumption]|].
  exact (getInstruction_consistent example_state example_module _ 7 4%positive
           H0 H1 H2).
Defined.

(** * Block::addInstructionAtFront *)

Lemma Block_addInstructionAtFront_run (NDEBUG : bool) (s : State)
    (this l a : addr) (b : Block) (rest : list pointer) (li i : Instruction) :
  blockObjects s !! this = Some b ->
  instructions b = ptr l :: rest ->
  instructionObjects s !! l = Some li -> opCode li = OpLabel ->
  instructionObjects s !! a = Some i -> opCode i <> OpLabel ->
  Block_addInstructionAtFront NDEBUG this (ptr a) s =
    (if decide (Instruction_getResultId i = 0) then ret tt
     else let* f := load_Function (Block_parent b) in
          call_Module_mapInstruction (Function_parent f) (ptr a))
      (set_blockObjects
         <[this := set_instructions (ptr l :: ptr a :: rest) b]> s).
Proof.
  intros Hb Hv Hl Hlabel Hi Hnot.
  unfold Block_addInstructionAtFront, assert, Instruction_getOpCode.
  unfold bind at 1. unfold load_Block at 1. run_M. rewrite Hb. simpl.
  rewrite Hv. simpl.
  destruct NDEBUG; run_M;
    repeat first
      [ rewrite Hl | rewrite Hi | rewrite Hlabel
      | rewrite (bool_decide_eq_true_2 (OpLabel = OpLabel) eq_refl)
      | rewrite (bool_decide_eq_false_2 (opCode i = OpLabel) Hnot)
      | progress simpl ];
    reflexivity.
Qed.

(** The store [Block::addInstructionAtFront] leaves, by the result id of the
    instruction. *)
Lemma Block_addInstructionAtFront_cases (s : State) (this l a : addr)
    (b : Block) (rest : list pointer) (li i : Instruction) :
  blockObjects s !! this = Some b ->
  instructions b = ptr l :: rest ->
  instructionObjects s !! l = Some li -> opCode li = OpLabel ->
  instructionObjects s !! a = Some i -> opCode i <> OpLabel ->
  let b' := set_instructions (ptr l :: ptr a :: rest) b in
  Block_getId (instructionObjects s) b' = Block_getId (instructionObjects s) b
  /\ (resultId i = 0 ->
      forall NDEBUG : bool,
        Block_addInstructionAtFront NDEBUG this (ptr a) s =
          Some (tt, set_blockObjects <[this := b']> s))
  /\ (resultId i <> 0 ->
      forall (f : Function) (m : Module),
        functionObjects s !! Block_parent b = Some f ->
        moduleObjects s !! Function_parent f = Some m ->
        resultId i + 16 < 2 ^ 32 ->
        exists m' : Module,
          Module_mapInstruction (instructionObjects s) (ptr a) m = Some m'
          /\ Module_getInstruction (resultId i) m' = Some (ptr a)
          /\ forall NDEBUG : bool,
               Block_addInstructionAtFront NDEBUG this (ptr a) s =
                 Some (tt, set_moduleObjects <[Function_parent f := m']>
                             (set_blockObjects <[this := b']> s))).
Proof.
  intros Hb Hv Hl Hlabel Hi Hnot b'. split; [|split].
  - unfold Block_getId. rewrite Hv. reflexivity.
  - intros Hz NDEBUG.
    rewrite (Block_addInstructionAtFront_run NDEBUG s this l a b rest li i)
      by assumption.
    unfold Instruction_getResultId. rewrite decide_True by exact Hz.
    reflexivity.
  - intros Hnz f m Hf Hm Hbound.
    destruct (Module_mapInstruction_is_Some (instructionObjects s) (ptr a) i m
                Hi Hbound) as [m' Hm'].
    destruct (Module_mapInstruction_defined (instructionObjects s) (ptr a) i m m'
                Hi Hm') as (_ & _ & Hget & _).
    exists m'. split; [exact Hm'|]. split; [exact Hget|]. intros NDEBUG.
    rewrite (Block_addInstructionAtFront_run NDEBUG s this l a b rest li i)
      by assumption.
    unfold Instruction_getResultId. rewrite decide_False by exact Hnz.
    run_M. rewrite Hf. simpl.
    exact (call_Module_mapInstruction_run
             (set_blockObjects <[this := b']> s) (Function_parent f) (ptr a)
             m m' Hm Hm').
Qed.

(** X10. [addInstructionAtFront], called on a block that starts with its
    label for an instruction that is not a label, puts the instruction right
    after the label and before everything else, changes no other member of
    the block and nothing else but the index, and keeps the id of the block;
    it leaves the modules alone when the result id is 0 and registers a
    result id that is not 0 and below 2^32 - 16 at once, as [addInstruction]
    does; with these conditions met, the assertions make no difference. *)
Theorem Block_addInstructionAtFront_spec (s : State) (this l a : addr)
    (b : Block) (rest : list pointer) (li i : Instruction) :
  blockObjects s !! this = Some b ->
  instructions b = ptr l :: rest ->
  instructionObjects s !! l = Some li -> opCode li = OpLabel ->
  instructionObjects s !! a = Some i -> opCode i <> OpLabel ->
  (resultId i = 0 ->
   exists s' : State,
     (forall NDEBUG : bool,
        Block_addInstructionAtFront NDEBUG this (ptr a) s = Some (tt, s'))
     /\ block_updated s s' this b (ptr l :: ptr a :: rest)
     /\ moduleObjects s' = moduleObjects s
     /\ (blockObjects s' !! this ≫= Block_getId (instructionObjects s'))
          = Block_getId (instructionObjects s) b)
  /\ (resultId i <> 0 ->
      forall (f : Function) (m : Module),
        functionObjects s !! Block_parent b = Some f ->
        moduleObjects s !! Function_parent f = Some m ->
        resultId i + 16 < 2 ^ 32 ->
        exists (s' : State) (m' : Module),
          (forall NDEBUG : bool,
             Block_addInstructionAtFront NDEBUG this (ptr a) s = Some (tt, s'))
          /\ block_updated s s' this b (ptr l :: ptr a :: rest)
          /\ moduleObjects s' = <[Function_parent f := m']> (moduleObjects s)
          /\ Module_mapInstruction (instructionObjects s) (ptr a) m = Some m'
          /\ Module_getInstruction (resultId i) m' = Some (ptr a)
          /\ (blockObjects s' !! this ≫= Block_getId (instructionObjects s'))
               = Block_getId (instructionObjects s) b).
Proof.
  intros Hb Hv Hl Hlabel Hi Hnot.
  destruct (Block_addInstructionAtFront_cases s this l a b rest li i
              Hb Hv Hl Hlabel Hi Hnot) as (Hid & Hzero & Hreg).
  assert (forall bs : gmap addr Block,
            (<[this := set_instructions (ptr l :: ptr a :: rest) b]> bs
               !! this ≫= Block_getId (instructionObjects s))
            = Block_getId (instructionObjects s) b) as Hget.
  { intros bs. rewrite lookup_insert_eq. exact Hid. }
  split.
  - intros Hz. eexists. split; [exact (Hzero Hz)|].
    split; [|split; [reflexivity|apply Hget]].
    split; [reflexivity|]. split; [reflexivity|].
    eexists. split; [reflexivity|apply set_instructions_with].
  - intros Hnz f m Hf Hm Hbound.
    destruct (Hreg Hnz f m Hf Hm Hbound) as (m' & Hm' & Hfound & Hrun).
    eexists _, m'. split; [exact Hrun|].
    split; [|split; [reflexivity|split; [exact Hm'|split; [exact Hfound|]]]].
    + split; [reflexivity|]. split; [reflexivity|].
      eexists. split; [reflexivity|apply set_instructions_with].
    + apply Hget.
Qed.

(** X11. With the assertions compiled in, [addInstructionAtFront] gives no
    result when the instruction to insert is a label or when the block does
    not start with a label; on a block without instructions it gives none
    with or without the assertions. *)
Theorem Block_addInstructionAtFront_refused (s : State) (this : addr)
    (b : Block) (inst : pointer) :
  blockObjects s !! this = Some b ->
  (instructions b = [] ->
   forall NDEBUG : bool, Block_addInstructionAtFront NDEBUG this inst s = None)
  /\ (forall (front : pointer) (rest : list pointer) (fi i : Instruction),
        instructions b = front :: rest ->
        deref (instructionObjects s) front = Some fi ->
        deref (instructionObjects s) inst = Some i ->
        opCode fi <> OpLabel \/ opCode i = OpLabel ->
        Block_addInstructionAtFront false this inst s = None).
Proof.
  intros Hb. split.
  - intros Hnil NDEBUG.
    unfold Block_addInstructionAtFront, assert. unfold bind at 1.
    unfold load_Block at 1. run_M. rewrite Hb. simpl. rewrite Hnil.
    destruct NDEBUG; reflexivity.
  - intros front rest fi i Hv Hfront Hinst Hbad.
    unfold Block_addInstructionAtFront, assert, Instruction_getOpCode.
    unfold bind at 1. unfold load_Block at 1. run_M. rewrite Hb. simpl.
    rewrite Hv. simpl. rewrite Hfront. simpl.
    destruct (bool_decide (opCode fi = OpLabel)) eqn:Hfi; simpl; [|reflexivity].
    rewrite Hinst. simpl.
    destruct (bool_decide (opCode i = OpLabel)) eqn:Hi; simpl; [reflexivity|].
    apply bool_decide_eq_true_1 in Hfi. apply bool_decide_eq_false_1 in Hi.
    tauto.
Qed.

Lemma Block_addInstructionAtFront_spec_witness :
  (blockObjects example_block_state !! example_block =
     Some (mkBlock [ptr 5%positive] [] [] [ptr 6%positive] example_function false)
   /\ instructionObjects example_block_state !! 5%positive =
        Some (Instruction_ctor 8 NoType OpLabel)
   /\ instructionObjects example_block_state !! example_load_addr =
        Some example_load
   /\ opCode example_load <> OpLabel)
  /\ exists s' : State,
       (forall NDEBUG : bool,
          Block_addInstructionAtFront NDEBUG example_block
            (ptr example_load_addr) example_block_state = Some (tt, s'))
       /\ instructions <$> blockObjects s' !! example_block
            = Some [ptr 5%positive; ptr example_load_addr]
       /\ (moduleObjects s' !! example_module ≫= Module_getInstruction 10)
            = Some (ptr example_load_addr).
Proof.
  set (b := mkBlock [ptr 5%positive] [] [] [ptr 6%positive] example_function false).
  set (f := mkFunction example_module 2%positive
              [ptr 3%positive; ptr 4%positive] [ptr example_block]).
  assert (blockObjects example_block_state !! example_block = Some b) as H1
    by (vm_compute; reflexivity).
  assert (instructionObjects example_block_state !! 5%positive =
            Some (Instruction_ctor 8 NoType OpLabel)) as H2
    by (vm_compute; reflexivity).
  assert (instructionObjects example_block_state !! example_load_addr =
            Some example_load) as H3 by (vm_compute; reflexivity).
  assert (opCode example_load <> OpLabel) as H4 by discriminate.
  assert (functionObjects example_block_state !! example_function = Some f)
    as H5 by (vm_compute; reflexivity).
  assert (is_Some (moduleObjects example_block_state !! example_module)) as H6
    by (vm_compute; eauto).
  split; [repeat split; assumption|].
  destruct H6 as [m H6].
  destruct (proj2 (Block_addInstructionAtFront_spec example_block_state
                     example_block 5%positive example_load_addr b []
                     (Instruction_ctor 8 NoType OpLabel) example_load
                     H1 eq_refl H2 eq_refl H3 H4))
    with (f := f) (m := m)
    as (s' & m' & Hrun & (_ & _ & b' & Hblocks & Hinstructions & _)
        & Hmodules & _ & Hget & _);
    [simpl; lia|exact H5|exact H6|simpl; lia|].
  exists s'. split; [exact Hrun|].
  rewrite Hblocks, Hmodules, !lookup_insert_eq. simpl.
  rewrite Hinstructions. split; [reflexivity|exact Hget].
Defined.

Lemma Block_addInstructionAtFront_refused_witness :
  blockObjects example_block_state !! example_block =
    Some (mkBlock [ptr 5%positive] [] [] [ptr 6%positive] example_function false)
  /\ Block_addInstructionAtFront false example_block (ptr 5%positive)
       example_block_state = None.
Proof.
  assert (blockObjects example_block_state !! example_block =
            Some (mkBlock [ptr 5%positive] [] [] [ptr 6%positive]
                    example_function false)) as H1
    by (vm_compute; reflexivity).
  split; [exact H1|].
  refine (proj2 (Block_addInstructionAtFront_refused example_block_state
                   example_block _ (ptr 5%positive) H1)
            (ptr 5%positive) [] (Instruction_ctor 8 NoType OpLabel)
            (Instruction_ctor 8 NoType OpLabel) eq_refl _ _ (or_intror eq_refl));
    vm_compute; reflexivity.
Defined.

(** * Termination of a block *)

Lemma Block_isTerminated_terminator (h : gmap addr Instruction) (b : Block) :
  Block_isTerminated h b = terminator <$> back_opCode h b.
Proof.
  unfold Block_isTerminated. destruct (back_opCode h b) as [op|]; [|reflexivity].
  destruct op; reflexivity.
Qed.

Lemma Block_addInstruction_run (s : State) (this a : addr) (b : Block)
    (i : Instruction) :
  blockObjects s !! this = Some b ->
  instructionObjects s !! a = Some i ->
  Block_addInstruction this (ptr a) s =
    (if decide (Instruction_getResultId i = 0) then ret tt
     else let* f := load_Function (Block_parent b) in
          call_Module_mapInstruction (Function_parent f) (ptr a))
      (set_blockObjects
         <[this := set_instructions (instructions b ++ [ptr a]) b]> s).
Proof.
  intros Hb Hi. unfold Block_addInstruction. unfold bind at 1.
  unfold load_Block at 1. run_M. rewrite Hb. simpl. rewrite Hi. reflexivity.
Qed.

(** X12. After [addInstruction] the block is terminated exactly when the
    instruction just added is a branch, a conditional branch, a switch, a
    kill or a return; the block has one instruction more and, when it was
    not empty, the same id as before. *)
Theorem Block_addInstruction_isTerminated (s : State) (this a : addr)
    (b : Block) (i : Instruction) :
  blockObjects s !! this = Some b ->
  instructionObjects s !! a = Some i ->
  resultId i = 0
  \/ (exists (f : Function) (m : Module),
        functionObjects s !! Block_parent b = Some f
        /\ moduleObjects s !! Function_parent f = Some m
        /\ resultId i + 16 < 2 ^ 32) ->
  exists (s' : State) (b' : Block),
    Block_addInstruction this (ptr a) s = Some (tt, s')
    /\ blockObjects s' !! this = Some b'
    /\ Block_isTerminated (instructionObjects s') b' = Some (terminator (opCode i))
    /\ Block_getNumInstructions b' = S (Block_getNumInstructions b)
    /\ (instructions b <> [] ->
        Block_getId (instructionObjects s') b' =
          Block_getId (instructionObjects s) b).
Proof.
  intros Hb Hi Hreg.
  set (b' := set_instructions (instructions b ++ [ptr a]) b).
  assert (forall s' : State,
            instructionObjects s' = instructionObjects s ->
            blockObjects s' !! this = Some b' ->
            blockObjects s' !! this = Some b'
            /\ Block_isTerminated (instructionObjects s') b'
                 = Some (terminator (opCode i))
            /\ Block_getNumInstructions b' = S (Block_getNumInstructions b)
            /\ (instructions b <> [] ->
                Block_getId (instructionObjects s') b' =
                  Block_getId (instructionObjects s) b)) as Hpost.
  { intros s' Hinst Hlook. split; [exact Hlook|]. rewrite Hinst. split; [|split].
    - rewrite Block_isTerminated_terminator.
      rewrite (back_opCode_snoc _ b' (instructions b) (ptr a) i eq_refl Hi).
      reflexivity.
    - unfold Block_getNumInstructions, b'. simpl. rewrite length_app. simpl. lia.
    - intros Hne. unfold Block_getId, b'. simpl.
      destruct (instructions b); [congruence|reflexivity]. }
  rewrite (Block_addInstruction_run s this a b i Hb Hi).
  unfold Instruction_getResultId.
  destruct (decide (resultId i = 0)) as [Hz|Hnz].
  - eexists _, b'. split; [reflexivity|]. apply Hpost; [reflexivity|].
    simpl. apply lookup_insert_eq.
  - destruct Hreg as [Hz|(f & m & Hf & Hm & Hbound)]; [congruence|].
    destruct (Module_mapInstruction_is_Some (instructionObjects s) (ptr a) i m
                Hi Hbound) as [m' Hm'].
    run_M. rewrite Hf. simpl.
    pose proof (call_Module_mapInstruction_run
                  (set_blockObjects <[this := b']> s) (Function_parent f)
                  (ptr a) m m' Hm Hm') as Hrun.
    eexists _, b'. split; [exact Hrun|]. apply Hpost; [reflexivity|].
    simpl. apply lookup_insert_eq.
Qed.

Lemma Block_addInstruction_isTerminated_witness :
  (blockObjects example_block_state !! example_block =
     Some (mkBlock [ptr 5%positive] [] [] [ptr 6%positive] example_function false)
   /\ instructionObjects example_block_state !! example_load_addr =
        Some example_load)
  /\ exists (s' : State) (b' : Block),
       Block_addInstruction example_block (ptr example_load_addr)
         example_block_state = Some (tt, s')
       /\ blockObjects s' !! example_block = Some b'
       /\ Block_isTerminated (instructionObjects s') b' = Some false.
Proof.
  set (b := mkBlock [ptr 5%positive] [] [] [ptr 6%positive] example_function false).
  set (f := mkFunction example_module 2%positive
              [ptr 3%positive; ptr 4%positive] [ptr example_block]).
  assert (blockObjects example_block_state !! example_block = Some b) as H1
    by (vm_compute; reflexivity).
  assert (instructionObjects example_block_state !! example_load_addr =
            Some example_load) as H2 by (vm_compute; reflexivity).
  assert (functionObjects example_block_state !! example_function = Some f)
    as H3 by (vm_compute; reflexivity).
  assert (is_Some (moduleObjects example_block_state !! example_module)) as H4
    by (vm_compute; eauto).
  split; [split; assumption|].
  destruct H4 as [m H4].
  destruct (Block_addInstruction_isTerminated example_block_state example_block
              example_load_addr b example_load H1 H2)
    as (s' & b' & Hrun & Hb' & Hterm & _).
  { right. exists f, m. split; [exact H3|]. split; [exact H4|]. simpl. lia. }
  exists s', b'. split; [exact Hrun|]. split; [exact Hb'|exact Hterm].
Defined.

Lemma insert_from_end_spec {A : Type} (k : nat) (x : A) (l : list A) :
  (1 <= k <= length l)%nat ->
  exists v : list A,
    insert_from_end k x l = Some v
    /\ last v = last l
    /\ v ≡ₚ x :: l
    /\ v !! (length l - k)%nat = Some x.
Proof.
  intros Hk. unfold insert_from_end, insert_at.
  rewrite decide_True by lia. eexists. split; [reflexivity|].
  set (n := (length l - k)%nat).
  assert (drop n l <> []) as Hdrop.
  { intros E. apply (f_equal length) in E. rewrite length_drop in E.
    simpl in E. lia. }
  split; [|split].
  - rewrite <- (take_drop n l) at 3.
    destruct (drop n l) as [|y d] eqn:E; [congruence|].
    rewrite !last_app. simpl. destruct d; reflexivity.
  - rewrite <- Permutation_middle. rewrite take_drop. reflexivity.
  - rewrite lookup_app_r by (rewrite length_take; lia).
    rewrite length_take. replace (n - n `min` length l)%nat with 0%nat by lia.
    reflexivity.
Qed.

(** X13. On a terminated block of at least two existing instructions
    [insertInstructionBeforeTerminal] always has a result, and the result
    still ends with the same terminator: the block stays terminated, the new
    instruction is added once and nothing else is added, removed or changed
    outside the instruction vector. *)
Theorem insertInstructionBeforeTerminal_keeps_terminator
    (h : gmap addr Instruction) (inst : pointer) (b : Block) :
  Block_isTerminated h b = Some true ->
  Forall (live h) (instructions b) ->
  (2 <= length (instructions b))%nat ->
  exists b' : Block,
    Block_insertInstructionBeforeTerminal h inst b = Some b'
    /\ last (instructions b') = last (instructions b)
    /\ Block_isTerminated h b' = Some true
    /\ instructions b' ≡ₚ inst :: instructions b
    /\ b' = set_instructions (instructions b') b.
Proof.
  intros Hterm Hlive Hlen.
  assert (forall k : nat, (1 <= k <= 2)%nat ->
            exists b' : Block,
              (v ← insert_from_end k inst (instructions b);
               Some (set_instructions v b)) = Some b'
              /\ last (instructions b') = last (instructions b)
              /\ Block_isTerminated h b' = Some true
              /\ instructions b' ≡ₚ inst :: instructions b
              /\ b' = set_instructions (instructions b') b) as Hins.
  { intros k Hk.
    destruct (insert_from_end_spec k inst (instructions b)) as (v & -> & Hlast & Hperm & _);
      [lia|].
    exists (set_instructions v b). simpl.
    split; [reflexivity|]. split; [exact Hlast|]. split; [|split].
    - rewrite Block_isTerminated_terminator in *.
      unfold back_opCode in *. simpl. rewrite Hlast. exact Hterm.
    - exact Hperm.
    - reflexivity. }
  rewrite Block_isTerminated_terminator in Hterm.
  unfold Block_insertInstructionBeforeTerminal.
  destruct (back_opCode h b) as [op|]; [|discriminate].
  simpl in Hterm. injection Hterm as Hop.
  destruct op; try discriminate; simpl; try (apply Hins; lia).
  rewrite decide_True by lia.
  destruct (lookup_lt_is_Some_2 (instructions b) (length (instructions b) - 2))
    as [p Hp]; [lia|].
  rewrite Hp. simpl.
  rewrite Forall_lookup in Hlive. destruct (Hlive _ _ Hp) as [i Hi].
  rewrite Hi. simpl.
  destruct (bool_decide (Instruction_getOpCode i = OpLoopMerge)); apply Hins; lia.
Qed.

Lemma insertInstructionBeforeTerminal_keeps_terminator_witness :
  (Block_isTerminated loop_instructions loop_block = Some true
   /\ Forall (live loop_instructions) (instructions loop_block)
   /\ (2 <= length (instructions loop_block))%nat)
  /\ exists b' : Block,
       Block_insertInstructionBeforeTerminal loop_instructions (ptr 4%positive)
         loop_block = Some b'
       /\ last (instructions b') = Some (ptr 3%positive).
Proof.
  assert (Block_isTerminated loop_instructions loop_block = Some true) as H1
    by (vm_compute; reflexivity).
  assert (Forall (live loop_instructions) (instructions loop_block)) as H2.
  { repeat constructor; vm_compute; eauto. }
  assert (2 <= length (instructions loop_block))%nat as H3 by (simpl; lia).
  split; [repeat split; assumption|].
  destruct (insertInstructionBeforeTerminal_keeps_terminator loop_instructions
              (ptr 4%positive) loop_block H1 H2 H3) as (b' & Hrun & Hlast & _).
  exists b'. split; [exact Hrun|exact Hlast].
Defined.

(** X14. The offset of two from the end is taken without looking at the
    label: on a block that holds only its label and a conditional branch or
    a switch, [insertInstructionBeforeTerminal] puts the new instruction
    before the label, so that the id of the block becomes the result id of
    the new instruction; on a block that holds the conditional branch or
    the switch alone it has no result. *)
Theorem insertInstructionBeforeTerminal_short_block
    (h : gmap addr Instruction) (inst t : pointer) (b : Block)
    (ti : Instruction) :
  deref h t = Some ti ->
  opCode ti = OpBranchConditional \/ opCode ti = OpSwitch ->
  (instructions b = [t] ->
   Block_insertInstructionBeforeTerminal h inst b = None)
  /\ (forall label : pointer,
        instructions b = [label; t] ->
        Block_insertInstructionBeforeTerminal h inst b =
          Some (set_instructions [inst; label; t] b)
        /\ forall i : Instruction,
             deref h inst = Some i ->
             Block_getId h (set_instructions [inst; label; t] b) =
               Some (resultId i)).
Proof.
  intros Ht Hop. split.
  - intros Hv. unfold Block_insertInstructionBeforeTerminal.
    rewrite (back_opCode_snoc h b [] t ti Hv Ht).
    destruct Hop as [-> | ->]; simpl; rewrite Hv; reflexivity.
  - intros label Hv. split.
    + unfold Block_insertInstructionBeforeTerminal.
      rewrite (back_opCode_snoc h b [label] t ti Hv Ht).
      destruct Hop as [-> | ->]; simpl; rewrite Hv; reflexivity.
    + intros i Hi. unfold Block_getId. simpl. rewrite Hi. reflexivity.
Qed.

Lemma insertInstructionBeforeTerminal_short_block_witness :
  (deref loop_instructions (ptr 5%positive) = None
   /\ deref (<[5%positive := Instruction_ctor_op OpSwitch]> loop_instructions)
        (ptr 5%positive) = Some (Instruction_ctor_op OpSwitch))
  /\ Block_insertInstructionBeforeTerminal
       (<[5%positive := Instruction_ctor_op OpSwitch]> loop_instructions)
       (ptr 4%positive)
       (mkBlock [ptr 1%positive; ptr 5%positive] [] [] [] 1%positive false)
     = Some (mkBlock [ptr 4%positive; ptr 1%positive; ptr 5%positive] [] [] []
               1%positive false).
Proof.
  assert (deref (<[5%positive := Instruction_ctor_op OpSwitch]> loop_instructions)
            (ptr 5%positive) = Some (Instruction_ctor_op OpSwitch)) as H1
    by (vm_compute; reflexivity).
  split; [split; [vm_compute; reflexivity|exact H1]|].
  exact (proj1 (proj2 (insertInstructionBeforeTerminal_short_block
                         (<[5%positive := Instruction_ctor_op OpSwitch]>
                            loop_instructions)
                         (ptr 4%positive) (ptr 5%positive)
                         (mkBlock [ptr 1%positive; ptr 5%positive] [] [] []
                            1%positive false)
                         (Instruction_ctor_op OpSwitch) H1 (or_intror eq_refl))
                 (ptr 1%positive) eq_refl)).
Defined.

(** * Predecessors and successors *)

(** X15. [addPredecessor] records an edge in one direction only and keeps
    duplicates: afterwards [hasPredecessor] holds for the added block and for
    the blocks it held for before, the successors are untouched and the count
    of predecessors has grown by one.  [isPredecessorOf] answers false for
    the null pointer, and true for a block that has this one among its
    predecessors. *)
Theorem predecessor_edges (objects : gmap addr Block) (this : addr)
    (b : Block) (p q : pointer) :
  (Block_hasPredecessor p (Block_addPredecessor q b) = true
     <-> p = q \/ Block_hasPredecessor p b = true)
  /\ Block_hasPredecessor p (Block_addSuccessor q b) = Block_hasPredecessor p b
  /\ successors (Block_addPredecessor q b) = successors b
  /\ Block_getNumPredecessors (Block_addPredecessor q b)
       = (Block_getNumPredecessors b + 1)%Z
  /\ Block_isPredecessorOf objects this null = Some false
  /\ (forall a : addr,
        Block_isPredecessorOf (<[a := Block_addPredecessor (ptr this) b]> objects)
          this (ptr a) = Some true)
  /\ (forall (a : addr) (pred : Block),
        objects !! a = Some pred ->
        Block_isPredecessorOf objects this (ptr a)
          = Some (Block_hasPredecessor (ptr this) pred)).
Proof.
  split; [|split; [|split; [|split; [|split; [|split]]]]];
    [| | | | | |intros a pred Ha; unfold Block_isPredecessorOf, deref;
                rewrite Ha; reflexivity].
  - unfold Block_hasPredecessor, Block_addPredecessor, push_back. simpl.
    rewrite !bool_decide_eq_true, elem_of_app, list_elem_of_singleton. tauto.
  - reflexivity.
  - reflexivity.
  - unfold Block_getNumPredecessors, Block_addPredecessor, push_back. simpl.
    rewrite length_app. simpl. lia.
  - reflexivity.
  - intros a. unfold Block_isPredecessorOf, deref. rewrite lookup_insert_eq.
    simpl. f_equal. unfold Block_hasPredecessor, Block_addPredecessor, push_back.
    simpl. apply bool_decide_eq_true_2. rewrite elem_of_app, list_elem_of_singleton.
    right. reflexivity.
Qed.

(** * Function::addBlock and Function::popBlock *)

(** X16. [popBlock] undoes the last [addBlock], whatever block it is passed:
    its argument is not looked at.  After [addBlock] the last block is the
    added one and the entry block is the one the function had, or the added
    one when it had none.  On a function without blocks [popBlock] has no
    result. *)
Theorem Function_popBlock_addBlock (f : Function) (block arg : pointer) :
  Function_popBlock arg (Function_addBlock block f) = Some f
  /\ Function_getLastBlock (Function_addBlock block f) = Some block
  /\ Function_getEntryBlock (Function_addBlock block f)
       = Some (default block (Function_getEntryBlock f))
  /\ (blocks f = [] -> Function_popBlock arg f = None).
Proof.
  destruct f as [par fi ps bs].
  unfold Function_popBlock, Function_addBlock, Function_getLastBlock,
    Function_getEntryBlock, push_back.
  simpl. split; [|split; [|split]].
  - destruct (bs ++ [block]) as [|x l] eqn:E.
    + destruct bs; discriminate.
    + rewrite <- E, removelast_last. reflexivity.
  - apply last_snoc.
  - destruct bs; reflexivity.
  - intros ->. reflexivity.
Qed.

(** * Function::addLocalVariable *)



Lemma mapM_snoc {A B : Type} (f : A -> option B) (l : list A) (x : A)
    (k : list B) (y : B) :
  mapM f l = Some k -> f x = Some y -> mapM f (l ++ [x]) = Some (k ++ [y]).
Proof.
  rewrite !mapM_Some. intros Hl Hx. apply Forall2_app; [exact Hl|].
  constructor; [exact Hx|constructor].
Qed.

(** X18. A local variable added to a block that is written out is emitted
    after the label and after the local variables added before it, and
    before every other instruction of the block, whenever it was added. *)
Theorem Block_dump_local_variable (opValue : Op -> N) (s : State) (b : Block)
    (a : addr) (i : Instruction) (label : pointer) (rest : list pointer)
    (l : Instruction) (lv rs : list Instruction) (out : list word) :
  unreachable b = false \/ (2 < length (instructions b))%nat ->
  instructions b = label :: rest ->
  deref (instructionObjects s) label = Some l ->
  mapM (deref (instructionObjects s)) (localVariables b) = Some lv ->
  mapM (deref (instructionObjects s)) rest = Some rs ->
  instructionObjects s !! a = Some i ->
  Block_dump opValue s (Block_addLocalVariable (ptr a) b) out =
    Some (out ++ Instruction_words opValue l
              ++ concat (Instruction_words opValue <$> lv)
              ++ Instruction_words opValue i
              ++ concat (Instruction_words opValue <$> rs)).
Proof.
  intros Hreach Hv Hl Hlv Hrs Hi.
  rewrite (Block_dump_emitted opValue s (Block_addLocalVariable (ptr a) b) out
             label rest l (lv ++ [i]) rs Hreach Hv Hl); [| |exact Hrs].
  - rewrite fmap_app, concat_app. cbn [fmap list_fmap concat].
    rewrite app_nil_r, <- !app_assoc. reflexivity.
  - unfold Block_addLocalVariable, push_back. simpl.
    apply mapM_snoc; [exact Hlv|exact Hi].
Qed.

Lemma Block_dump_local_variable_witness :
  (unreachable example_Block = false
   /\ instructions example_Block =
        [ptr 5%positive; ptr example_load_addr; ptr 8%positive]
   /\ localVariables example_Block = [ptr 6%positive])
  /\ Block_dump example_opValue example_final_state
       (Block_addLocalVariable (ptr example_load_addr) example_Block) [] =
     Some (Instruction_words example_opValue (Instruction_ctor 8 NoType OpLabel)
           ++ Instruction_words example_opValue (Instruction_ctor 9 3 OpVariable)
           ++ Instruction_words example_opValue example_load
           ++ Instruction_words example_opValue example_load
           ++ Instruction_words example_opValue (Instruction_ctor_op OpReturn)).
Proof.
  assert (unreachable example_Block = false) as H1 by (vm_compute; reflexivity).
  assert (instructions example_Block =
            [ptr 5%positive; ptr example_load_addr; ptr 8%positive]) as H2
    by (vm_compute; reflexivity).
  assert (localVariables example_Block = [ptr 6%positive]) as H3
    by (vm_compute; reflexivity).
  split; [repeat split; assumption|].
  rewrite (Block_dump_local_variable example_opValue example_final_state
             example_Block example_load_addr example_load (ptr 5%positive)
             [ptr example_load_addr; ptr 8%positive]
             (Instruction_ctor 8 NoType OpLabel)
             [Instruction_ctor 9 3 OpVariable]
             [example_load; Instruction_ctor_op OpReturn] []
             (or_introl H1) H2);
    [|vm_compute; reflexivity|rewrite H3; vm_compute; reflexivity
     |vm_compute; reflexivity|vm_compute; reflexivity].
  cbn [fmap list_fmap concat app]. rewrite !app_nil_r. reflexivity.
Defined.

(** * The getters of a constructed function *)

(** X19. On a function just constructed [getId] returns the id and
    [getReturnType] the result type given to the constructor, [getParamId]
    returns the consecutive ids from the first parameter id on for the
    parameters of the function type and has no result beyond them, and there
    is no entry block yet. *)
Theorem new_Function_getters (FunctionControlMaskNone : word) (s : State)
    (id resultType functionType firstParamId : Id) (parent t : addr)
    (m : Module) (ti : Instruction) (returnType : Id) (ptys : list Id) :
  moduleObjects s !! parent = Some m ->
  Module_getInstruction functionType m = Some (ptr t) ->
  instructionObjects s !! t = Some ti ->
  operands ti = returnType :: ptys ->
  id <> functionType ->
  id + 16 < 2 ^ 32 ->
  (forall k : nat, (k < length ptys)%nat ->
     firstParamId + N.of_nat k + 16 < 2 ^ 32) ->
  exists (this : addr) (s' : State) (F : Function),
    new_Function FunctionControlMaskNone id resultType functionType
      firstParamId parent s = Some (this, s')
    /\ functionObjects s' !! this = Some F
    /\ Function_getId (instructionObjects s') F = Some id
    /\ Function_getReturnType (instructionObjects s') F = Some resultType
    /\ (forall k : nat, (k < length ptys)%nat ->
          Function_getParamId (instructionObjects s') k F =
            Some (firstParamId + N.of_nat k))
    /\ (forall k : nat, (length ptys <= k)%nat ->
          Function_getParamId (instructionObjects s') k F = None)
    /\ Function_getEntryBlock F = None
    /\ Function_getLastBlock F = None.
Proof.
  intros Hm Ht Hti Hops Hne Hid Hparams.
  destruct (new_Function_run FunctionControlMaskNone s id resultType
              functionType firstParamId parent t m ti returnType ptys
              Hm Ht Hti Hops Hne Hid Hparams)
    as (this & s' & F & m' & params & Hrun & _ & HF & _ & Hfi & Hblocks
        & Hps & Hlen & _ & _ & _ & _ & Hparam).
  exists this, s', F. split; [exact Hrun|]. split; [exact HF|].
  split; [unfold Function_getId; rewrite Hfi; reflexivity|].
  split; [unfold Function_getReturnType; rewrite Hfi; reflexivity|].
  split; [|split; [|split]].
  - intros k Hk.
    destruct (lookup_lt_is_Some_2 params k) as [a Ha]; [lia|].
    destruct (lookup_lt_is_Some_2 ptys k) as [ty Hty]; [lia|].
    destruct (Hparam k a ty Ha Hty) as [Hi _].
    unfold Function_getParamId. rewrite Hps, list_lookup_fmap, Ha. simpl.
    rewrite Hi. reflexivity.
  - intros k Hk. unfold Function_getParamId.
    rewrite Hps, list_lookup_fmap, lookup_ge_None_2 by lia. reflexivity.
  - unfold Function_getEntryBlock. rewrite Hblocks. reflexivity.
  - unfold Function_getLastBlock. rewrite Hblocks. reflexivity.
Qed.

Lemma new_Function_getters_witness :
  (moduleObjects example_type_state !! example_module = Some example_type_module
   /\ Module_getInstruction 2 example_type_module = Some (ptr 1%positive)
   /\ instructionObjects example_type_state !! 1%positive = Some example_type
   /\ operands example_type = 1 :: [3; 4])
  /\ exists (this : addr) (s' : State) (F : Function),
       new_Function 0 5 1 2 6 example_module example_type_state = Some (this, s')
       /\ functionObjects s' !! this = Some F
       /\ Function_getId (instructionObjects s') F = Some 5
       /\ Function_getReturnType (instructionObjects s') F = Some 1
       /\ Function_getParamId (instructionObjects s') 1 F = Some 7.
Proof.
  assert (moduleObjects example_type_state !! example_module =
            Some example_type_module) as H1 by (vm_compute; reflexivity).
  assert (Module_getInstruction 2 example_type_module = Some (ptr 1%positive))
    as H2 by (vm_compute; reflexivity).
  assert (instructionObjects example_type_state !! 1%positive =
            Some example_type) as H3 by (vm_compute; reflexivity).
  assert (operands example_type = 1 :: [3; 4]) as H4 by reflexivity.
  assert (5 <> 2) as H5 by lia.
  assert (5 + 16 < 2 ^ 32) as H6 by lia.
  assert (forall k : nat, (k < length [3; 4])%nat ->
            6 + N.of_nat k + 16 < 2 ^ 32) as H7
    by (intros k Hk; simpl in Hk; lia).
  split; [repeat split; assumption|].
  destruct (new_Function_getters 0 example_type_state 5 1 2 6 example_module
              1%positive example_type_module example_type 1 [3; 4]
              H1 H2 H3 H4 H5 H6 H7)
    as (this & s' & F & Hrun & HF & Hid & Hret & Hparam & _).
  exists this, s', F. split; [exact Hrun|]. split; [exact HF|].
  split; [exact Hid|]. split; [exact Hret|].
  apply (Hparam 1%nat). simpl. lia.
Defined.

(** * Module::mapInstruction *)

Lemma Module_mapInstruction_other_slot (h : gmap addr Instruction)
    (p : pointer) (i : Instruction) (m m' : Module) (r : Id) :
  deref h p = Some i ->
  Module_mapInstruction h p m = Some m' ->
  r <> resultId i ->
  Module_getInstruction r m = None \/ Module_getInstruction r m = Some null ->
  Module_getInstruction r m' = None \/ Module_getInstruction r m' = Some null.
Proof.
  intros Hp Hm' Hr Hold. unfold Module_mapInstruction in Hm'.
  rewrite Hp in Hm'. simpl in Hm'. unfold Instruction_getResultId in Hm'.
  unfold Module_getInstruction in *.
  destruct (decide (N.to_nat (resultId i) < length _)%nat) as [Hin|];
    [|discriminate].
  injection Hm' as <-. simpl.
  rewrite list_lookup_insert_ne by lia.
  destruct (decide (N.of_nat (length (idToInstruction m)) <= resultId i));
    [|exact Hold].
  set (n := N.to_nat (wrap32 (resultId i + 16))) in *.
  destruct (decide (N.to_nat r < n)%nat) as [Hlt|Hge].
  - destruct (decide (N.to_nat r < length (idToInstruction m))%nat).
    + rewrite lookup_resize by lia. exact Hold.
    + right. apply lookup_resize_new; lia.
  - left. apply lookup_resize_old. lia.
Qed.

(** X20. [Function::Function] has no result when the id of the function
    type is not registered with the module, or is registered with a null
    pointer: the function type is looked up without a check. *)
Theorem new_Function_unregistered_type (FunctionControlMaskNone : word)
    (s : State) (id resultType functionType firstParamId : Id) (parent : addr)
    (m : Module) :
  moduleObjects s !! parent = Some m ->
  id <> functionType ->
  Module_getInstruction functionType m = None
  \/ Module_getInstruction functionType m = Some null ->
  new_Function FunctionControlMaskNone id resultType functionType firstParamId
    parent s = None.
Proof.
  intros Hm Hne Hold.
  unfold new_Function, call_Module_mapInstruction, call_Module_addFunction.
  run_M. rewrite lookup_insert_eq. simpl. rewrite Hm. simpl.
  set (fi := fresh (dom (instructionObjects s))).
  set (i := Instruction_addIdOperand functionType
              (Instruction_addImmediateOperand FunctionControlMaskNone
                 (Instruction_ctor id resultType OpFunction))).
  set (h := <[fi := i]> (<[fi := _]> (instructionObjects s))).
  destruct (Module_mapInstruction h (ptr fi) m) as [m1|] eqn:Hm1; [|reflexivity].
  simpl. rewrite lookup_insert_eq. simpl. rewrite lookup_insert_eq. simpl.
  assert (deref h (ptr fi) = Some i) as Hfi by apply lookup_insert_eq.
  destruct (Module_mapInstruction_other_slot h (ptr fi) i m m1 functionType
              Hfi Hm1) as [Hnone|Hnull]; [simpl; congruence|exact Hold| |].
  - unfold Module_getInstruction in *. simpl. rewrite Hnone. reflexivity.
  - unfold Module_getInstruction in *. simpl. rewrite Hnull. reflexivity.
Qed.

Lemma new_Function_unregistered_type_witness :
  (moduleObjects empty_module_state !! example_module = Some (mkModule [] [])
   /\ 5 <> 2
   /\ (Module_getInstruction 2 (mkModule [] []) = None
       \/ Module_getInstruction 2 (mkModule [] []) = Some null))
  /\ new_Function 0 5 1 2 6 example_module empty_module_state = None.
Proof.
  assert (moduleObjects empty_module_state !! example_module
          = Some (mkModule [] [])) as H1 by (vm_compute; reflexivity).
  assert (5 <> 2) as H2 by lia.
  assert (Module_getInstruction 2 (mkModule [] []) = None
          \/ Module_getInstruction 2 (mkModule [] []) = Some null) as H3
    by (left; reflexivity).
  split; [repeat split; assumption|].
  exact (new_Function_unregistered_type 0 empty_module_state 5 1 2 6
           example_module (mkModule [] []) H1 H2 H3).
Defined.

(** X21. Registering a second instruction under an id that is already
    registered replaces the first: the last one mapped is the one found, the
    index keeps its size and every other slot keeps its pointer. *)
Theorem Module_mapInstruction_overwrite (h : gmap addr Instruction)
    (p1 p2 : pointer) (i1 i2 : Instruction) (m : Module) :
  deref h p1 = Some i1 ->
  deref h p2 = Some i2 ->
  resultId i2 = resultId i1 ->
  resultId i1 + 16 < 2 ^ 32 ->
  exists m1 m2 : Module,
    Module_mapInstruction h p1 m = Some m1
    /\ Module_mapInstruction h p2 m1 = Some m2
    /\ Module_getInstruction (resultId i1) m2 = Some p2
    /\ length (idToInstruction m2) = length (idToInstruction m1)
    /\ (forall r : Id, r <> resultId i1 ->
          Module_getInstruction r m2 = Module_getInstruction r m1)
    /\ functions m2 = functions m.
Proof.
  intros Hp1 Hp2 Hid Hbound.
  destruct (Module_mapInstruction_is_Some h p1 i1 m Hp1 Hbound) as [m1 Hm1].
  destruct (Module_mapInstruction_defined h p1 i1 m m1 Hp1 Hm1)
    as (Hf1 & _ & Hget1 & _).
  assert (N.to_nat (resultId i1) < length (idToInstruction m1))%nat as Hin
    by (apply lookup_lt_Some in Hget1; exact Hget1).
  exists m1. eexists. split; [exact Hm1|].
  unfold Module_mapInstruction at 1. rewrite Hp2. simpl.
  unfold Instruction_getResultId. rewrite Hid.
  rewrite (decide_False (P := N.of_nat _ <= _)) by lia.
  rewrite decide_True by exact Hin.
  split; [reflexivity|]. unfold Module_getInstruction. simpl.
  split; [apply list_lookup_insert_eq; exact Hin|].
  split; [apply length_insert|].
  split; [|exact Hf1].
  intros r Hr. apply list_lookup_insert_ne. lia.
Qed.

Lemma Module_mapInstruction_overwrite_witness :
  (deref loop_instructions (ptr 1%positive) = Some (Instruction_ctor 11 NoType OpLabel)
   /\ deref (<[5%positive := Instruction_ctor 11 3 OpLoad]> loop_instructions)
        (ptr 5%positive) = Some (Instruction_ctor 11 3 OpLoad))
  /\ exists m1 m2 : Module,
       Module_mapInstruction
         (<[5%positive := Instruction_ctor 11 3 OpLoad]> loop_instructions)
         (ptr 1%positive) (mkModule [] []) = Some m1
       /\ Module_mapInstruction
            (<[5%positive := Instruction_ctor 11 3 OpLoad]> loop_instructions)
            (ptr 5%positive) m1 = Some m2
       /\ Module_getInstruction 11 m2 = Some (ptr 5%positive).
Proof.
  set (h := <[5%positive := Instruction_ctor 11 3 OpLoad]> loop_instructions).
  assert (deref h (ptr 1%positive) = Some (Instruction_ctor 11 NoType OpLabel))
    as H1 by (vm_compute; reflexivity).
  assert (deref h (ptr 5%positive) = Some (Instruction_ctor 11 3 OpLoad))
    as H2 by (vm_compute; reflexivity).
  split; [split; [vm_compute; reflexivity|exact H2]|].
  destruct (Module_mapInstruction_overwrite h (ptr 1%positive) (ptr 5%positive)
              (Instruction_ctor 11 NoType OpLabel) (Instruction_ctor 11 3 OpLoad)
              (mkModule [] []) H1 H2 eq_refl)
    as (m1 & m2 & Hm1 & Hm2 & Hget & _); [simpl; lia|].
  exists m1, m2. split; [exact Hm1|]. split; [exact Hm2|exact Hget].
Defined.

(** X22. When the result id is not below the size of the index,
    [mapInstruction] resizes the index to the id plus 16: the old slots keep
    their pointers, the slot of the id gets the instruction, the other new
    slots, among them the fifteen above the id, are null, and there is no
    slot from the id plus 16 on. *)
Theorem Module_mapInstruction_growth (h : gmap addr Instruction) (p : pointer)
    (i : Instruction) (m : Module) :
  deref h p = Some i ->
  resultId i + 16 < 2 ^ 32 ->
  N.of_nat (length (idToInstruction m)) <= resultId i ->
  exists m' : Module,
    Module_mapInstruction h p m = Some m'
    /\ N.of_nat (length (idToInstruction m')) = resultId i + 16
    /\ Module_getInstruction (resultId i) m' = Some p
    /\ (forall r : Id, r < N.of_nat (length (idToInstruction m)) ->
          Module_getInstruction r m' = Module_getInstruction r m)
    /\ (forall r : Id,
          N.of_nat (length (idToInstruction m)) <= r -> r < resultId i + 16 ->
          r <> resultId i -> Module_getInstruction r m' = Some null)
    /\ (forall r : Id, resultId i + 16 <= r ->
          Module_getInstruction r m' = None).
Proof.
  intros Hp Hbound Hlen.
  unfold Module_mapInstruction. rewrite Hp. simpl.
  unfold Instruction_getResultId.
  rewrite (decide_True (P := N.of_nat _ <= _)) by exact Hlen.
  rewrite (wrap32_small (resultId i + 16)) by lia.
  rewrite decide_True by (rewrite length_resize; lia).
  eexists. split; [reflexivity|]. unfold Module_getInstruction. simpl.
  rewrite length_insert, length_resize.
  split; [lia|].
  split; [apply list_lookup_insert_eq; rewrite length_resize; lia|].
  split; [|split].
  - intros r Hr. rewrite list_lookup_insert_ne by lia.
    apply lookup_resize; lia.
  - intros r Hlo Hhi Hne. rewrite list_lookup_insert_ne by lia.
    apply lookup_resize_new; lia.
  - intros r Hr. apply lookup_ge_None_2.
    rewrite length_insert, length_resize. lia.
Qed.

Lemma Module_mapInstruction_growth_witness :
  (deref loop_instructions (ptr 1%positive) = Some (Instruction_ctor 11 NoType OpLabel)
   /\ resultId (Instruction_ctor 11 NoType OpLabel) + 16 < 2 ^ 32
   /\ N.of_nat (length (idToInstruction (mkModule [] [])))
        <= resultId (Instruction_ctor 11 NoType OpLabel))
  /\ exists m' : Module,
       Module_mapInstruction loop_instructions (ptr 1%positive) (mkModule [] [])
         = Some m'
       /\ N.of_nat (length (idToInstruction m')) = 27
       /\ Module_getInstruction 26 m' = Some null
       /\ Module_getInstruction 27 m' = None.
Proof.
  assert (deref loop_instructions (ptr 1%positive)
          = Some (Instruction_ctor 11 NoType OpLabel)) as H1
    by (vm_compute; reflexivity).
  assert (resultId (Instruction_ctor 11 NoType OpLabel) + 16 < 2 ^ 32) as H2
    by (simpl; lia).
  assert (N.of_nat (length (idToInstruction (mkModule [] [])))
            <= resultId (Instruction_ctor 11 NoType OpLabel)) as H3
    by (simpl; lia).
  split; [repeat split; assumption|].
  destruct (Module_mapInstruction_growth loop_instructions (ptr 1%positive)
              (Instruction_ctor 11 NoType OpLabel) (mkModule [] []) H1 H2 H3)
    as (m' & Hm' & Hsize & _ & _ & Hnull & Hnone).
  exists m'. split; [exact Hm'|]. split; [exact Hsize|].
  split; [apply Hnull; simpl; lia|apply Hnone; simpl; lia].
Defined.

(** X23. For a 32-bit result id [mapInstruction] has a result exactly when
    the id is below the size of the index or below 2^32 - 16: from there on
    the sum of the id and 16 wraps around and the store into the index is
    out of range. *)
Theorem Module_mapInstruction_domain (h : gmap addr Instruction) (p : pointer)
    (i : Instruction) (m : Module) :
  deref h p = Some i ->
  resultId i < 2 ^ 32 ->
  is_Some (Module_mapInstruction h p m)
    <-> (resultId i < N.of_nat (length (idToInstruction m))
         \/ resultId i + 16 < 2 ^ 32).
Proof.
  intros Hp Hword. split.
  - intros Hsome.
    destruct (decide (resultId i < N.of_nat (length (idToInstruction m))));
      [left; assumption|].
    destruct (decide (resultId i + 16 < 2 ^ 32)); [right; assumption|].
    rewrite (Module_mapInstruction_wraps h p i m Hp) in Hsome by lia.
    destruct Hsome as [? [=]].
  - intros [Hin|Hbound].
    + unfold Module_mapInstruction. rewrite Hp. simpl.
      unfold Instruction_getResultId.
      rewrite (decide_False (P := N.of_nat _ <= _)) by lia.
      rewrite decide_True by lia. eauto.
    + exact (Module_mapInstruction_is_Some h p i m Hp Hbound).
Qed.

Lemma Module_mapInstruction_domain_witness :
  (deref {[ 1%positive := Instruction_ctor 4294967285 NoType OpLabel ]}
     (ptr 1%positive) = Some (Instruction_ctor 4294967285 NoType OpLabel)
   /\ resultId (Instruction_ctor 4294967285 NoType OpLabel) < 2 ^ 32)
  /\ ~ is_Some (Module_mapInstruction
                  {[ 1%positive := Instruction_ctor 4294967285 NoType OpLabel ]}
                  (ptr 1%positive) (mkModule [] [])).
Proof.
  assert (deref {[ 1%positive := Instruction_ctor 4294967285 NoType OpLabel ]}
            (ptr 1%positive) = Some (Instruction_ctor 4294967285 NoType OpLabel))
    as H1 by reflexivity.
  assert (resultId (Instruction_ctor 4294967285 NoType OpLabel) < 2 ^ 32) as H2
    by (simpl; lia).
  split; [split; assumption|].
  intros Hsome.
  apply (Module_mapInstruction_domain _ _ _ (mkModule [] []) H1 H2) in Hsome.
  simpl in Hsome. lia.
Defined.

(** X24. Once an instruction is registered, [getTypeId] with its result id
    returns its type id and [getStorageClass] its first operand;
    [getStorageClass] has no result when the instruction has no operand. *)
Theorem Module_getStorageClass_registered (h : gmap addr Instruction)
    (p : pointer) (i : Instruction) (m : Module) :
  deref h p = Some i ->
  resultId i + 16 < 2 ^ 32 ->
  exists m' : Module,
    Module_mapInstruction h p m = Some m'
    /\ Module_getTypeId h (resultId i) m' = Some (typeId i)
    /\ Module_getStorageClass h (resultId i) m' = head (operands i).
Proof.
  intros Hp Hbound.
  destruct (Module_mapInstruction_is_Some h p i m Hp Hbound) as [m' Hm'].
  destruct (Module_mapInstruction_defined h p i m m' Hp Hm')
    as (_ & _ & Hget & _).
  exists m'. split; [exact Hm'|]. unfold Module_getInstruction in Hget.
  unfold Module_getTypeId, Module_getStorageClass. rewrite Hget. simpl.
  rewrite Hp. simpl. split; [reflexivity|].
  unfold Instruction_getImmediateOperand. destruct (operands i); reflexivity.
Qed.

Lemma Module_getStorageClass_registered_witness :
  (deref (instructionObjects example_block_state) (ptr example_load_addr)
     = Some example_load
   /\ resultId example_load + 16 < 2 ^ 32)
  /\ exists m' : Module,
       Module_mapInstruction (instructionObjects example_block_state)
         (ptr example_load_addr) (mkModule [] []) = Some m'
       /\ Module_getTypeId (instructionObjects example_block_state) 10 m'
            = Some 3
       /\ Module_getStorageClass (instructionObjects example_block_state) 10 m'
            = Some 9.
Proof.
  assert (deref (instructionObjects example_block_state) (ptr example_load_addr)
          = Some example_load) as H1 by (vm_compute; reflexivity).
  assert (resultId example_load + 16 < 2 ^ 32) as H2 by (simpl; lia).
  split; [split; assumption|].
  exact (Module_getStorageClass_registered (instructionObjects example_block_state)
           (ptr example_load_addr) example_load (mkModule [] []) H1 H2).
Defined.

(** * A block just constructed *)

(** X25. A block just constructed has the id given to the constructor, is
    neither terminated nor unreachable, has no predecessor and no successor,
    and is written out as its label alone. *)
Theorem new_Block_getters (opValue : Op -> N) (s : State) (id : Id)
    (parent : addr) :
  exists (this : addr) (s' : State) (b : Block),
    new_Block id parent s = Some (this, s')
    /\ blockObjects s' !! this = Some b
    /\ Block_getId (instructionObjects s') b = Some id
    /\ Block_isTerminated (instructionObjects s') b = Some false
    /\ Block_isUnreachable b = false
    /\ Block_getNumPredecessors b = 0%Z
    /\ Block_getNumSuccessors b = 0%Z
    /\ forall out : list word,
         Block_dump opValue s' b out =
           Some (out ++ Instruction_words opValue
                          (Instruction_ctor id NoType OpLabel)).
Proof.
  eexists _, _, _. rewrite new_Block_run. split; [reflexivity|].
  cbn [blockObjects instructionObjects].
  split; [apply lookup_insert_eq|].
  split; [unfold Block_getId; simpl; rewrite lookup_insert_eq; reflexivity|].
  split; [unfold Block_isTerminated, back_opCode; simpl;
          rewrite lookup_insert_eq; reflexivity|].
  split; [reflexivity|]. split; [reflexivity|]. split; [reflexivity|].
  intros out.
  rewrite (Block_dump_emitted opValue _ _ out
             (ptr (fresh (dom (instructionObjects s)))) []
             (Instruction_ctor id NoType OpLabel) [] []);
    [|left; reflexivity|reflexivity|apply lookup_insert_eq|reflexivity
     |reflexivity].
  cbn [fmap list_fmap concat]. rewrite !app_nil_r. reflexivity.
Qed.
